(** * Webhook queue and stock synchroniser of axam-shopify-sincronizacion

    A shallow embedding of three modules of the repository:

    - [webhookQueue.js] (class [WebhookQueue]): the FIFO queue of Shopify
      webhooks with its cache of processed orders and its retry loop;
    - [syncStocks.js]: [getManagerProductBySKU], [syncProductStock],
      [processInParallel] and [syncMultipleProducts];
    - [createClientAndOrderShopify.js]: [axiosWithRetry].

    Around these: the runs of the queue as a whole; [server.js] with the
    processor it gives the queue, [processOrderNotification] and
    [reprocessLastWebhook]; of [syncStocks.js] also [isGeneralWarehouse],
    [extractStockFromProduct] and [loadAllManagerProductsWithStock]; and
    [calcularDV].

    JavaScript numbers are integers here ([Z]), but for the numbers that
    [extractStockFromProduct] adds up, which are left open; [Date.now()] is
    an explicit argument [now]; an [await] is a point where the embedding
    hands control back to its caller. *)

From stdpp Require Import gmap strings list pretty.
From Stdlib Require Import ZArith Lia.
From Stdlib Require Import Sorted.
From Stdlib Require Import Floats.

Open Scope Z_scope.

(** ** JavaScript primitives used by both modules *)

Module JS.

(** The values an order id field can hold in a JSON body. *)
Inductive value :=
| undefined
| null
| num (z : Z)
| str (s : string).

(** [v?.toString()].  The digits of a number are those of the integer,
    as JavaScript prints an integer below [1e21]; from there on JavaScript
    prints an exponent, which the order ids at hand do not reach. *)
Definition toString_opt (v : value) : option string :=
  match v with
  | undefined | null => None
  | num z => Some (pretty z)
  | str s => Some s
  end.

(** Truthiness of a string: every string but the empty one. *)
Definition truthy (s : string) : bool := negb (String.eqb s "").

(** Truthiness of a value that is a string or [undefined]. *)
Definition truthy_opt (o : option string) : bool :=
  match o with
  | Some s => truthy s
  | None => false
  end.

(** [a || b] on such values. *)
Definition or_else (a b : option string) : option string :=
  if truthy_opt a then a else b.

(** [options.x || d] for a numeric option: [undefined] and [0] give [d]. *)
Definition num_or (o : option Z) (d : Z) : Z :=
  match o with
  | Some v => if v =? 0 then d else v
  | None => d
  end.

(** [hay.includes(needle)] *)
Fixpoint includes (needle hay : string) : bool :=
  if String.prefix needle hay then true
  else match hay with
       | EmptyString => false
       | String _ rest => includes needle rest
       end.

(** [c.toLowerCase()] on the ASCII letters; other characters are kept. *)
Definition lower_ascii (c : Ascii.ascii) : Ascii.ascii :=
  let n := Ascii.N_of_ascii c in
  if ((65 <=? n)%N && (n <=? 90)%N)%bool then Ascii.ascii_of_N (n + 32) else c.

Fixpoint toLowerCase (s : string) : string :=
  match s with
  | EmptyString => EmptyString
  | String c rest => String (lower_ascii c) (toLowerCase rest)
  end.

(** [arr.slice(from, to)], with the negative indices of JavaScript
    counted from the end of the array. *)
Definition clamp_index (len k : Z) : Z :=
  if k <? 0 then Z.max (len + k) 0 else Z.min k len.

Definition slice {A} (arr : list A) (from to : Z) : list A :=
  let len := Z.of_nat (length arr) in
  let a := clamp_index len from in
  let b := clamp_index len to in
  take (Z.to_nat (b - a)) (drop (Z.to_nat a) arr).

(** An [Error] as the modules inspect it: [error.response?.status],
    [error.response?.headers['retry-after']] (a number of seconds, as
    [parseInt] reads it), of the body of the answer
    [error.response?.data?.retry] (a number of seconds), [.detail] and
    [.message], the mark [error.isRateLimit], and [error.message]. *)
Record error := mkError {
  response_status : option Z;
  retry_after : option Z;
  data_retry : option Z;
  data_detail : option string;
  data_message : option string;
  marked_isRateLimit : bool;
  message : string
}.

(** [new Error(msg)] *)
Definition Error (msg : string) : error :=
  {| response_status := None; retry_after := None; data_retry := None;
     data_detail := None; data_message := None; marked_isRateLimit := false;
     message := msg |}.

(** The error of a request answered with [status], with or without a
    Retry-After header. *)
Definition http_error (status : Z) (retryAfter : option Z) (msg : string) : error :=
  {| response_status := Some status; retry_after := retryAfter; data_retry := None;
     data_detail := None; data_message := None; marked_isRateLimit := false;
     message := msg |}.

(** [error.isRateLimit = true] *)
Definition mark_isRateLimit (e : error) : error :=
  {| response_status := response_status e; retry_after := retry_after e;
     data_retry := data_retry e; data_detail := data_detail e;
     data_message := data_message e; marked_isRateLimit := true;
     message := message e |}.

(** [s?.includes(needle)], falsy on [undefined]. *)
Definition includes_opt (needle : string) (s : option string) : bool :=
  match s with
  | Some hay => includes needle hay
  | None => false
  end.

Definition status_is (e : error) (code : Z) : bool :=
  match response_status e with
  | Some c => c =? code
  | None => false
  end.

(** [error.response?.status >= 500] *)
Definition status_ge (e : error) (code : Z) : bool :=
  match response_status e with
  | Some c => code <=? c
  | None => false
  end.

End JS.

(** ** webhookQueue.js *)

Module WebhookQueue.

Inductive Status := processing | completed | failed.

#[global] Instance Status_eq_dec : EqDecision Status.
Proof. solve_decision. Defined.

Definition status_name (st : Status) : string :=
  match st with
  | processing => "processing"
  | completed => "completed"
  | failed => "failed"
  end.

(** What [processWebhook] resolves to: [{ success, retry, error }]. *)
Record Result := mkResult {
  success : bool;
  retry : bool;
  error : option string
}.

(** An entry of [processedOrders]. *)
Record CacheEntry := mkEntry {
  timestamp : Z;
  status : Status;
  result : option Result;
  entry_error : option string
}.

Record Config := mkConfig {
  cacheTTL : Z;
  minRequestDelay : Z;
  maxRetries : Z;
  baseRetryDelay : Z;
  maxRetryDelay : Z;
  cleanupInterval : Z
}.

(** The [options] argument of the constructor. *)
Record Options := mkOptions {
  opt_cacheTTL : option Z;
  opt_minRequestDelay : option Z;
  opt_maxRetries : option Z;
  opt_baseRetryDelay : option Z;
  opt_maxRetryDelay : option Z;
  opt_cleanupInterval : option Z
}.

Record Stats := mkStats {
  total : Z;
  processed : Z;
  duplicates : Z;
  stat_failed : Z;
  retries : Z
}.

(** The webhook body: the two fields [enqueue] reads; the rest of the
    body is carried along untouched and is not modelled. *)
Record Payload := mkPayload {
  id : JS.value;
  order_id : JS.value
}.

Record QueueItem := mkItem {
  orderId : string;
  webhookData : Payload;
  topic : string;
  shop : string;
  enqueuedAt : Z;
  retryCount : Z
}.

(** The fields of a [WebhookQueue] object. *)
Record Queue := mkQueue {
  queue : list QueueItem;
  processedOrders : gmap string CacheEntry;
  isProcessing : bool;
  config : Config;
  stats : Stats
}.

Definition set_queue (l : list QueueItem) (q : Queue) : Queue :=
  mkQueue l (processedOrders q) (isProcessing q) (config q) (stats q).
Definition set_processedOrders (m : gmap string CacheEntry) (q : Queue) : Queue :=
  mkQueue (queue q) m (isProcessing q) (config q) (stats q).
Definition set_isProcessing (b : bool) (q : Queue) : Queue :=
  mkQueue (queue q) (processedOrders q) b (config q) (stats q).
Definition set_stats (st : Stats) (q : Queue) : Queue :=
  mkQueue (queue q) (processedOrders q) (isProcessing q) (config q) st.

Definition incr_total (st : Stats) : Stats :=
  mkStats (total st + 1) (processed st) (duplicates st) (stat_failed st) (retries st).
Definition incr_processed (st : Stats) : Stats :=
  mkStats (total st) (processed st + 1) (duplicates st) (stat_failed st) (retries st).
Definition incr_duplicates (st : Stats) : Stats :=
  mkStats (total st) (processed st) (duplicates st + 1) (stat_failed st) (retries st).
Definition incr_failed (st : Stats) : Stats :=
  mkStats (total st) (processed st) (duplicates st) (stat_failed st + 1) (retries st).
Definition incr_retries (st : Stats) : Stats :=
  mkStats (total st) (processed st) (duplicates st) (stat_failed st) (retries st + 1).

(** [constructor(options)] *)
Definition new (options : Options) : Queue :=
  {| queue := [];
     processedOrders := ∅;
     isProcessing := false;
     config :=
       {| cacheTTL := JS.num_or (opt_cacheTTL options) (24 * 60 * 60 * 1000);
          minRequestDelay := JS.num_or (opt_minRequestDelay options) 1500;
          maxRetries := JS.num_or (opt_maxRetries options) 5;
          baseRetryDelay := JS.num_or (opt_baseRetryDelay options) 5000;
          maxRetryDelay := JS.num_or (opt_maxRetryDelay options) 120000;
          cleanupInterval := JS.num_or (opt_cleanupInterval options) (60 * 60 * 1000) |};
     stats := mkStats 0 0 0 0 0 |}.

(** [now - data.timestamp > cacheTTL] *)
Definition expired (now : Z) (cfg : Config) (e : CacheEntry) : bool :=
  cacheTTL cfg <? now - timestamp e.

(** [cleanupCache()] *)
Definition cleanupCache (now : Z) (q : Queue) : Queue :=
  set_processedOrders
    (filter (λ kv, expired now (config q) kv.2 = false) (processedOrders q)) q.

(** [isOrderProcessed(orderId)]: the answer and the queue, whose cache
    loses the entry when it has outlived the TTL. *)
Definition isOrderProcessed (now : Z) (oid : string) (q : Queue) : bool * Queue :=
  if negb (JS.truthy oid) then (false, q)
  else match processedOrders q !! oid with
       | None => (false, q)
       | Some cached =>
           if expired now (config q) cached
           then (false, set_processedOrders (delete oid (processedOrders q)) q)
           else (bool_decide (status cached = completed)
                 || bool_decide (status cached = processing), q)
       end.

(** [markAsProcessing(orderId)] *)
Definition markAsProcessing (now : Z) (oid : string) (q : Queue) : Queue :=
  set_processedOrders
    (<[oid := mkEntry now processing None None]> (processedOrders q)) q.

(** [markAsCompleted(orderId, result)] *)
Definition markAsCompleted (now : Z) (oid : string) (r : Result) (q : Queue) : Queue :=
  set_stats (incr_processed (stats q))
    (set_processedOrders
       (<[oid := mkEntry now completed (Some r) None]> (processedOrders q)) q).

(** [markAsFailed(orderId, error)] *)
Definition markAsFailed (now : Z) (oid : string) (err : option string) (q : Queue) : Queue :=
  set_stats (incr_failed (stats q))
    (set_processedOrders
       (<[oid := mkEntry now failed None err]> (processedOrders q)) q).

(** [forceReprocess(orderId)] *)
Definition forceReprocess (oid : string) (q : Queue) : bool * Queue :=
  (true, set_processedOrders (delete oid (processedOrders q)) q).

(** [webhookData.id?.toString() || webhookData.order_id?.toString()] *)
Definition extract_orderId (data : Payload) : option string :=
  JS.or_else (JS.toString_opt (id data)) (JS.toString_opt (order_id data)).

(** The object [enqueue] returns. *)
Record EnqueueResult := mkEnqueueResult {
  queued : bool;
  reason : option string;
  res_orderId : option string;
  cacheStatus : option string;
  position : option Z
}.

(** *** The consumer loop

    [processQueue] is an [async] function: it runs until an [await] and is
    resumed later.  [Phase] names the [await] at which the one consumer
    stands; [Idle] when no consumer runs. *)
Inductive Phase :=
| Idle
| AwaitProcessWebhook   (* await this.processWebhook(item) *)
| AwaitRetryDelay       (* await delay(retryDelay) *)
| AwaitMinDelay.        (* await delay(this.config.minRequestDelay) *)

Record System := mkSystem {
  obj : Queue;
  consumer : Phase
}.

#[global] Instance Phase_eq_dec : EqDecision Phase.
Proof. solve_decision. Defined.

(** What a run shows to the outside. *)
Inductive Event :=
| CallProcessWebhook (item : QueueItem)
| Sleep (ms : Z)
| Returned (r : EnqueueResult).

(** How the promise of [processWebhook] settles. *)
Inductive Settled :=
| Resolved (r : Result)
| Rejected (e : JS.error).

(** What the function given to [setProcessor] does: it returns an object,
    of which [success], [retry] and [error] may be present, or it throws. *)
Record RawResult := mkRaw {
  raw_success : option bool;
  raw_retry : option bool;
  raw_error : option string
}.

Inductive ProcessorOutcome :=
| Returns (r : RawResult)
| Throws (e : JS.error).

(** [serializeError(error)] for an [Error] instance. *)
Definition serializeError (e : JS.error) : string := JS.message e.

(** The [processWebhook] that [setProcessor] installs:
    [{ success: result.success !== false, retry: false, ...result }], and in
    its [catch] [{ success: false, retry: isRateLimit, error: errorMsg }]. *)
Definition setProcessor (o : ProcessorOutcome) : Settled :=
  match o with
  | Returns r =>
      Resolved {| success := default true (raw_success r);
                  retry := default false (raw_retry r);
                  error := raw_error r |}
  | Throws e =>
      let errorMsg := serializeError e in
      let isRateLimit :=
        JS.status_is e 429
        || JS.includes "429" errorMsg
        || JS.includes "rate limit" (JS.toLowerCase errorMsg) in
      Resolved {| success := false; retry := isRateLimit; error := Some errorMsg |}
  end.

(** The [processWebhook] of the class itself, before [setProcessor]. *)
Definition processWebhook_default : Settled :=
  Rejected (JS.Error "processWebhook debe ser implementado").

(** [Math.min(baseRetryDelay * Math.pow(2, retryCount - 1), maxRetryDelay)];
    [retryCount] is at least 1 where the loop computes it. *)
Definition retryDelay (cfg : Config) (retryCount : Z) : Z :=
  Z.min (baseRetryDelay cfg * 2 ^ (retryCount - 1)) (maxRetryDelay cfg).

(** [this.queue.shift()] *)
Definition shift (q : Queue) : Queue := set_queue (tail (queue q)) q.

(** The head of the [while] loop, up to [await this.processWebhook(item)];
    when the queue is empty the loop ends and [isProcessing] is reset. *)
Definition loop_head (now : Z) (q : Queue) : System * list Event :=
  match queue q with
  | [] => (mkSystem (set_isProcessing false q) Idle, [])
  | item :: _ =>
      (mkSystem (markAsProcessing now (orderId item) q) AwaitProcessWebhook,
       [CallProcessWebhook item])
  end.

(** The end of the loop body: [if (this.queue.length > 0) await delay(...)],
    then the loop condition. *)
Definition loop_tail (now : Z) (q : Queue) : System * list Event :=
  match queue q with
  | [] => loop_head now q
  | _ :: _ => (mkSystem q AwaitMinDelay, [Sleep (minRequestDelay (config q))])
  end.

(** The retry branch: [item.retryCount++], [stats.retries++], the delay, the
    cache entry deleted, then [await delay(retryDelay)].  [item] is the
    object at the head of the queue, so the increment shows there. *)
Definition retry_branch (item : QueueItem) (rest : list QueueItem) (q : Queue)
  : System * list Event :=
  let item' := mkItem (orderId item) (webhookData item) (topic item) (shop item)
                      (enqueuedAt item) (retryCount item + 1) in
  let q1 := set_stats (incr_retries (stats q)) (set_queue (item' :: rest) q) in
  let d := retryDelay (config q) (retryCount item') in
  let q2 := set_processedOrders (delete (orderId item) (processedOrders q1)) q1 in
  (mkSystem q2 AwaitRetryDelay, [Sleep d]).

(** The test of the [catch] of the loop: status 429, or a message with
    ['429'], ['rate limit'] or ['too many requests']. *)
Definition isRateLimit (e : JS.error) : bool :=
  let errorMsg := serializeError e in
  JS.status_is e 429
  || JS.includes "429" errorMsg
  || JS.includes "rate limit" (JS.toLowerCase errorMsg)
  || JS.includes "too many requests" (JS.toLowerCase errorMsg).

(** The loop body after [await this.processWebhook(item)]: the three
    branches of the [try] and the two of the [catch].  [item] is the head
    of the queue: only the consumer removes items, so the queue is not
    empty here in any run. *)
Definition resume_processWebhook (now : Z) (r : Settled) (q : Queue)
  : System * list Event :=
  match queue q with
  | [] => (mkSystem q AwaitProcessWebhook, [])
  | item :: rest =>
      match r with
      | Resolved res =>
          if success res then
            loop_tail now (shift (markAsCompleted now (orderId item) res q))
          else if retry res && (retryCount item <? maxRetries (config q)) then
            retry_branch item rest q
          else
            loop_tail now (shift (markAsFailed now (orderId item) (error res) q))
      | Rejected e =>
          let errorMsg := serializeError e in
          if isRateLimit e && (retryCount item <? maxRetries (config q)) then
            retry_branch item rest q
          else
            loop_tail now (shift (markAsFailed now (orderId item) (Some errorMsg) q))
      end
  end.

(** [processQueue()], from the call to its first [await]. *)
Definition processQueue (now : Z) (sys : System) : System * list Event :=
  if isProcessing (obj sys) then (sys, [])
  else loop_head now (set_isProcessing true (obj sys)).

(** [enqueue(webhookData, topic, shop)] *)
Definition enqueue (now : Z) (data : Payload) (tp sh : string) (sys : System)
  : System * EnqueueResult * list Event :=
  let q := obj sys in
  match extract_orderId data with
  | Some oid =>
      if negb (JS.truthy oid) then
        (sys, mkEnqueueResult false (Some "missing_order_id") None None None, [])
      else
        let q := set_stats (incr_total (stats q)) q in
        let '(dup, q) := isOrderProcessed now oid q in
        if dup then
          let q := set_stats (incr_duplicates (stats q)) q in
          (mkSystem q (consumer sys),
           mkEnqueueResult false (Some "duplicate") (Some oid)
             (status_name <$> (status <$> processedOrders q !! oid)) None, [])
        else if existsb (λ item, String.eqb (orderId item) oid) (queue q) then
          let q := set_stats (incr_duplicates (stats q)) q in
          (mkSystem q (consumer sys),
           mkEnqueueResult false (Some "already_queued") (Some oid) None None, [])
        else
          let queueItem := mkItem oid data tp sh now 0 in
          let q := set_queue (queue q ++ [queueItem]) q in
          let '(sys', evs) := processQueue now (mkSystem q (consumer sys)) in
          (sys',
           mkEnqueueResult true None (Some oid) None
             (Some (Z.of_nat (length (queue (obj sys'))))), evs)
  | None =>
      (sys, mkEnqueueResult false (Some "missing_order_id") None None None, [])
  end.

(** What can happen to the object between two [await]s. *)
Inductive Input :=
| InEnqueue (data : Payload) (tp sh : string)
| InSettled (r : Settled)        (* the promise of processWebhook settles *)
| InTimer                        (* the pending delay elapses *)
| InForceReprocess (oid : string)
| InCleanup.                     (* the setInterval callback *)

Definition react (now : Z) (i : Input) (sys : System) : System * list Event :=
  match i with
  | InEnqueue data tp sh =>
      let '(sys', r, evs) := enqueue now data tp sh sys in
      (sys', evs ++ [Returned r])
  | InSettled r =>
      match consumer sys with
      | AwaitProcessWebhook => resume_processWebhook now r (obj sys)
      | _ => (sys, [])
      end
  | InTimer =>
      match consumer sys with
      | AwaitRetryDelay => loop_tail now (obj sys)
      | AwaitMinDelay => loop_head now (obj sys)
      | _ => (sys, [])
      end
  | InForceReprocess oid =>
      (mkSystem (forceReprocess oid (obj sys)).2 (consumer sys), [])
  | InCleanup =>
      (mkSystem (cleanupCache now (obj sys)) (consumer sys), [])
  end.

(** A run: the inputs in order, the [k]-th of them at time [clock k]; the
    state and the events after each input. *)
Fixpoint run (clock : nat → Z) (k : nat) (inputs : list Input) (sys : System)
  : list (System * list Event) :=
  match inputs with
  | [] => []
  | i :: rest =>
      let step := react (clock k) i sys in
      step :: run clock (S k) rest step.1
  end.

(** [new WebhookQueue(options)], no consumer running. *)
Definition start (options : Options) : System := mkSystem (new options) Idle.

(** The identity [enqueue] gives an event: the order id it reads from the
    body, when that string is not empty. *)
Definition identity (data : Payload) : option string :=
  match extract_orderId data with
  | Some oid => if JS.truthy oid then Some oid else None
  | None => None
  end.

(** The settled outcomes on which the loop retries while attempts are
    left: a result with [success] false and [retry] true, or a rejection
    that the [catch] takes for a rate limit. *)
Definition retry_signal (s : Settled) : bool :=
  match s with
  | Resolved r => negb (success r) && retry r
  | Rejected e => isRateLimit e
  end.

(** The settled outcomes the loop takes for a success. *)
Definition success_signal (s : Settled) : bool :=
  match s with
  | Resolved r => success r
  | Rejected _ => false
  end.

Definition with_retryCount (k : Z) (item : QueueItem) : QueueItem :=
  mkItem (orderId item) (webhookData item) (topic item) (shop item)
         (enqueuedAt item) k.

(** The states of a run in which [item] is alone in the queue, has been
    retried [k] times, and the consumer stands at [ph]. *)
Definition alone_in_queue (cfg : Config) (item : QueueItem) (k : Z) (ph : Phase)
    (sys : System) : Prop :=
  queue (obj sys) = [with_retryCount k item]
  ∧ isProcessing (obj sys) = true
  ∧ config (obj sys) = cfg
  ∧ retries (stats (obj sys)) = k
  ∧ consumer sys = ph.

(** The inputs of the scenario: one event, four attempts settled by
    [s1] .. [s4], and after each of the first three the two delays. *)
Definition four_attempts (data : Payload) (tp sh : string)
    (s1 s2 s3 s4 : Settled) : list Input :=
  [InEnqueue data tp sh;
   InSettled s1; InTimer; InTimer;
   InSettled s2; InTimer; InTimer;
   InSettled s3; InTimer; InTimer;
   InSettled s4].

(** The steps of a run that end at [await delay(retryDelay)]. *)
Definition retry_sleeps (trace : list (System * list Event))
  : list (System * list Event) :=
  filter (λ st, consumer st.1 = AwaitRetryDelay) trace.

(** What the scenario is to show of a run [trace] about the event [E]:
    how the run ends, which retry sleeps it has, and the state at each. *)
Definition retried_three_times (cfg : Config) (E : string)
    (trace : list (System * list Event)) : Prop :=
  (∃ final evs,
      last trace = Some (final, evs)
      ∧ consumer final = Idle
      ∧ isProcessing (obj final) = false
      ∧ queue (obj final) = []
      ∧ status <$> processedOrders (obj final) !! E = Some completed
      ∧ retries (stats (obj final)) = 3)
  ∧ snd <$> retry_sleeps trace
    = [[Sleep (retryDelay cfg 1)]; [Sleep (retryDelay cfg 2)];
       [Sleep (retryDelay cfg 3)]]
  ∧ Forall (λ st, processedOrders (obj st.1) !! E = None
                  ∧ E ∈ (orderId <$> queue (obj st.1)))
      (retry_sleeps trace).

(** Following the words of the specification, not the code: the delay
    [min(base * 2^(n-1), cap)], replaced by the wait the server suggests
    when that one is greater. *)
Definition spec_retry_delay (cfg : Config) (n : Z) (suggested : option Z) : Z :=
  let computed := Z.min (baseRetryDelay cfg * 2 ^ (n - 1)) (maxRetryDelay cfg) in
  match suggested with
  | Some wait => if computed <? wait then wait else computed
  | None => computed
  end.

(** The states a run goes through: the consumer is idle exactly when
    [isProcessing] is false, and then the queue is empty; while it is at
    work the queue is not empty; no order is twice in the queue. *)
Definition consistent (sys : System) : Prop :=
  match consumer sys with
  | Idle => isProcessing (obj sys) = false ∧ queue (obj sys) = []
  | _ => isProcessing (obj sys) = true ∧ queue (obj sys) ≠ []
  end
  ∧ NoDup (orderId <$> queue (obj sys)).

(** No item of the queue has a negative count of retries. *)
Definition attempts_counted (sys : System) : Prop :=
  Forall (λ item, 0 ≤ retryCount item) (queue (obj sys)).

(** The entry of [oid] says the order is being processed or is done. *)
Definition live_status (e : CacheEntry) : Prop :=
  status e = processing ∨ status e = completed.

End WebhookQueue.

(** ** syncStocks.js *)

Module SyncStocks.

Inductive Action := act_updated | act_would_update | act_no_change | act_skipped | act_error.

#[global] Instance Action_eq_dec : EqDecision Action.
Proof. solve_decision. Defined.

(** The string of the [action] field. *)
Definition action_name (a : Action) : string :=
  match a with
  | act_updated => "updated"
  | act_would_update => "would_update"
  | act_no_change => "no_change"
  | act_skipped => "skipped"
  | act_error => "error"
  end.

(** The object [syncProductStock] returns. *)
Record SyncResult := mkSyncResult {
  sku : string;
  success : bool;
  action : Action;
  error : option string;
  managerStock : option Z;
  shopifyStock : option Z;
  newStock : option Z
}.

(** A product of Manager+ as [syncProductStock] reads it: [stock] is the
    integer [parseInt(managerProduct.stock) || 0]. *)
Record ManagerProduct := mkManagerProduct {
  stock : Z
}.

(** An entry of the Shopify products map. *)
Record ShopifyProduct := mkShopifyProduct {
  inventoryItemId : Z;
  currentStock : Z
}.

(** The options of [syncMultipleProducts] and [syncProductStock].  [force]
    is what the command line sets for [--force]. *)
Record Options := mkOptions {
  dryRun : bool;
  forceUpdate : bool;
  force : bool;
  concurrency : option Z;
  maxRetries : option Z;
  retryDelay : option Z;
  useManagerBulk : bool;          (* options.useManagerBulk !== false *)
  managerPageSize : option Z;
  managerPagePauseMs : option Z
}.

(** How a request or a preloading step ends. *)
Inductive Response (A : Type) :=
| Ok (a : A)
| Fail (e : JS.error).
Arguments Ok {A} a.
Arguments Fail {A} e.

(** The two services and the preloading steps, over a state [W] of the
    outside world that every call may read and change. *)
Record Remote (W : Type) := mkRemote {
  (* GET /products/RUT/sku/?con_stock=S, with the token; no data is [None] *)
  erp_get_product : string → W → Response (option ManagerProduct) * W;
  (* POST /inventory_levels/set.json *)
  shopify_set_inventory : Z → Z → Z → W → Response () * W;
  verifyShopifyAuth : W → Response () * W;
  loadAllShopifyProducts : W → Response (gmap string ShopifyProduct) * W;
  (* pageSize, pauseMs *)
  loadAllManagerProductsWithStock :
    Z → Z → W → Response (gmap string ManagerProduct) * W;
  getShopifyLocationId : W → Response Z * W
}.
Arguments erp_get_product {W} _ _ _.
Arguments shopify_set_inventory {W} _ _ _ _ _.
Arguments verifyShopifyAuth {W} _ _.
Arguments loadAllShopifyProducts {W} _ _.
Arguments loadAllManagerProductsWithStock {W} _ _ _ _.
Arguments getShopifyLocationId {W} _ _.

(** What a run shows besides its result: the waits, the writes sent to
    Shopify, and for every chunk of [processInParallel] the concurrency it
    was cut with, its results, and the concurrency after the adjustment
    that follows it. *)
Inductive Event :=
| Slept (ms : Z)
| Chunk (concurrency : Z) (results : list SyncResult) (next : Z)
| Wrote (inventoryItemId locationId quantity : Z).

(** Asynchronous code over the world: a call may never return ([None]);
    when it returns it gives a value, the new world and its events. *)
Definition M (W A : Type) : Type := W → option (A * W * list Event).

#[global] Instance M_ret W : MRet (M W) := λ A a w, Some (a, w, []).

#[global] Instance M_bind W : MBind (M W) := λ A B k m w,
  match m w with
  | None => None
  | Some (a, w1, l1) =>
      match k a w1 with
      | None => None
      | Some (b, w2, l2) => Some (b, w2, l1 ++ l2)
      end
  end.

Definition emit {W} (ev : Event) : M W () := λ w, Some ((), w, [ev]).

(** [await sleep(ms)] *)
Definition sleep {W} (ms : Z) : M W () := emit (Slept ms).

Definition diverge {W A} : M W A := λ _, None.

Definition call {W A} (f : W → A * W) : M W A := λ w, Some (f w, []).

(** [await Promise.all(chunk.map(processor))]: the results come in the
    order of the chunk.  The calls are taken one after the other, in the
    order of the chunk; in the source the workers of a chunk take turns at
    their [await]s, so that their requests may reach the services in
    another order. *)
Fixpoint promise_all {W A B} (processor : A → M W B) (chunk : list A) : M W (list B) :=
  match chunk with
  | [] => mret []
  | x :: rest =>
      r ← processor x;
      rs ← promise_all processor rest;
      mret (r :: rs)
  end.

(** [getManagerProductBySKU(sku, attempt)].  [left] bounds the recursive
    calls; from [attempt = 1] the test [attempt < 3] allows two of them. *)
Fixpoint getManagerProductBySKU_from {W} (R : Remote W) (left : nat)
    (sku : string) (attempt : Z) : M W (Response (option ManagerProduct)) :=
  resp ← call (erp_get_product R sku);
  match resp with
  | Ok p => mret (Ok p)
  | Fail e =>
      if JS.status_is e 404 then mret (Ok None)
      else if JS.status_is e 429 then
        let retryMs :=
          match JS.retry_after e with
          | Some seconds => seconds * 1000
          | None => Z.min 5000 (1500 * attempt)
          end in
        if attempt <? 3 then
          match left with
          | O => diverge
          | S left' =>
              _ ← sleep retryMs;
              getManagerProductBySKU_from R left' sku (attempt + 1)
          end
        else
          mret (Fail (JS.Error
            "Rate limit alcanzado en Manager+ (429). Reduce la concurrencia."))
      else if JS.status_ge e 500 then
        mret (Fail (JS.Error
          ("Error del servidor Manager+ ("
           +:+ pretty (default 0 (JS.response_status e))
           +:+ "). Puede estar sobrecargado.")))
      else mret (Fail e)
  end.

Definition getManagerProductBySKU {W} (R : Remote W) (sku : string)
  : M W (Response (option ManagerProduct)) :=
  getManagerProductBySKU_from R 2 sku 1.

(** [getShopifyProductStockBySKU(sku, productsMap)] *)
Definition getShopifyProductStockBySKU {W} (R : Remote W) (sku : string)
    (productsMap : option (gmap string ShopifyProduct))
  : M W (Response (option ShopifyProduct)) :=
  match productsMap with
  | Some m => mret (Ok (m !! sku))
  | None =>
      loaded ← call (loadAllShopifyProducts R);
      match loaded with
      | Ok m => mret (Ok (m !! sku))
      | Fail e => mret (Fail e)
      end
  end.

(** [updateShopifyStock(inventoryItemId, locationId, quantity)] *)
Definition updateShopifyStock {W} (R : Remote W) (inv loc quantity : Z)
  : M W (Response ()) :=
  _ ← emit (Wrote inv loc quantity);
  resp ← call (shopify_set_inventory R inv loc quantity);
  match resp with
  | Ok _ => mret (Ok ())
  | Fail e =>
      if JS.status_is e 429 then
        mret (Fail (JS.Error
          match JS.retry_after e with
          | Some retryAfter =>
              "Rate limit de Shopify alcanzado. Espera " +:+ pretty retryAfter
              +:+ " segundos antes de continuar."
          | None =>
              "Rate limit de Shopify alcanzado (429). Reduce la concurrencia o espera un momento."
          end))
      else if JS.status_ge e 500 then
        mret (Fail (JS.Error
          ("Error del servidor Shopify ("
           +:+ pretty (default 0 (JS.response_status e))
           +:+ "). Puede estar sobrecargado.")))
      else mret (Fail e)
  end.

(** [{ sku, success: false, error, action: 'error' }] *)
Definition error_result (sku msg : string) : SyncResult :=
  mkSyncResult sku false act_error (Some msg) None None None.

(** [{ sku, success: false, error, action: 'skipped' }] *)
Definition skipped_result (sku msg : string) : SyncResult :=
  mkSyncResult sku false act_skipped (Some msg) None None None.

(** Step 1 of [syncProductStock]: the preloaded map when it has the SKU,
    the request by SKU otherwise. *)
Definition lookupManagerProduct {W} (R : Remote W) (sku : string)
    (managerProductsMap : option (gmap string ManagerProduct))
  : M W (Response (option ManagerProduct)) :=
  match managerProductsMap with
  | Some m =>
      match m !! sku with
      | Some p => mret (Ok (Some p))
      | None => getManagerProductBySKU R sku
      end
  | None => getManagerProductBySKU R sku
  end.

(** [!locationId] *)
Definition no_location (locationId : option Z) : bool :=
  match locationId with
  | Some l => l =? 0
  | None => true
  end.

(** Step 4 of [syncProductStock], after the dry-run test: the location
    when none was given, the write, the result. *)
Definition writeStock {W} (R : Remote W) (sku : string) (locationId : option Z)
    (shopifyProduct : ShopifyProduct) (mStock sStock : Z) : M W SyncResult :=
  loc ← (if no_location locationId then call (getShopifyLocationId R)
         else mret (Ok (default 0 locationId)));
  match loc with
  | Fail e => mret (error_result sku (JS.message e))
  | Ok l =>
      written ← updateShopifyStock R (inventoryItemId shopifyProduct) l mStock;
      match written with
      | Fail e => mret (error_result sku (JS.message e))
      | Ok _ =>
          mret (mkSyncResult sku true act_updated None
                  (Some mStock) (Some sStock) (Some mStock))
      end
  end.

(** [syncProductStock(sku, options, shopifyProductsMap, locationId,
    managerProductsMap)] *)
Definition syncProductStock {W} (R : Remote W) (sku : string) (options : Options)
    (shopifyProductsMap : option (gmap string ShopifyProduct))
    (locationId : option Z)
    (managerProductsMap : option (gmap string ManagerProduct)) : M W SyncResult :=
  found ← lookupManagerProduct R sku managerProductsMap;
  match found with
  | Fail e => mret (error_result sku (JS.message e))
  | Ok None => mret (skipped_result sku "Producto no encontrado en Manager+")
  | Ok (Some managerProduct) =>
      inShopify ← getShopifyProductStockBySKU R sku shopifyProductsMap;
      match inShopify with
      | Fail e => mret (error_result sku (JS.message e))
      | Ok None => mret (skipped_result sku "Producto no encontrado en Shopify")
      | Ok (Some shopifyProduct) =>
          let mStock := stock managerProduct in
          let sStock := currentStock shopifyProduct in
          if (mStock =? sStock) && negb (forceUpdate options) then
            mret (mkSyncResult sku true act_no_change None
                    (Some mStock) (Some sStock) None)
          else if dryRun options then
            mret (mkSyncResult sku true act_would_update None
                    (Some mStock) (Some sStock) (Some mStock))
          else writeStock R sku locationId shopifyProduct mStock sStock
      end
  end.

(** The processor [syncMultipleProducts] gives to [processInParallel], in
    the first pass and in the retries: [syncProductStock] on the preloaded
    data.  Its [try] and [catch] add nothing, [syncProductStock] does not
    throw. *)
Definition worker {W} (R : Remote W) (options : Options)
    (shopifyProductsMap : gmap string ShopifyProduct) (locationId : option Z)
    (managerProductsMap : option (gmap string ManagerProduct))
  : string → M W SyncResult :=
  λ sku, syncProductStock R sku options (Some shopifyProductsMap) locationId
           managerProductsMap.

(** [r?.error && (r.error.includes('Rate limit') || r.error.includes('429'))] *)
Definition isRateLimitResult (r : SyncResult) : bool :=
  match error r with
  | Some msg =>
      JS.truthy msg && (JS.includes "Rate limit" msg || JS.includes "429" msg)
  | None => false
  end.

(** [chunkResults.filter(r => ...).length] *)
Definition countRateLimit (chunkResults : list SyncResult) : Z :=
  Z.of_nat (length (filter (λ r, isRateLimitResult r = true) chunkResults)).

(** The adjustment after a chunk: [Math.max(1, Math.floor(concurrency / 2))]
    when the chunk has rate-limit errors, taken only when it is smaller. *)
Definition adjustConcurrency (concurrency : Z) (chunkRateLimitErrors : Z) : Z :=
  if 0 <? chunkRateLimitErrors then
    let newConcurrency := Z.max 1 (concurrency / 2) in
    if newConcurrency <? concurrency then newConcurrency else concurrency
  else concurrency.

(** The [for] loop of [processInParallel], from index [i].  The increment
    [i += concurrency] reads the concurrency as the body left it.  [fuel]
    bounds the iterations; the processors given by [syncMultipleProducts]
    never reject, so the [catch] of the loop is not reached. *)
Fixpoint processInParallel_loop {W} (fuel : nat) (array : list string)
    (processor : string → M W SyncResult)
    (i concurrency rateLimitErrors : Z) (results : list SyncResult)
  : M W (list SyncResult) :=
  if i <? Z.of_nat (length array) then
    match fuel with
    | O => diverge
    | S fuel' =>
        let chunk := JS.slice array i (i + concurrency) in
        chunkResults ← promise_all processor chunk;
        let chunkRateLimitErrors := countRateLimit chunkResults in
        let rateLimitErrors := rateLimitErrors + chunkRateLimitErrors in
        let concurrency' := adjustConcurrency concurrency chunkRateLimitErrors in
        _ ← emit (Chunk concurrency chunkResults concurrency');
        _ ← (if 0 <? chunkRateLimitErrors
             then sleep (Z.min 10000 (1500 + rateLimitErrors * 500))
             else mret ());
        processInParallel_loop fuel' array processor (i + concurrency')
          concurrency' rateLimitErrors (results ++ chunkResults)
    end
  else mret results.

(** [processInParallel(array, processor, concurrency)].  Every iteration
    with a concurrency of at least 1 moves [i] forward, so [length array]
    iterations are enough then; with a concurrency below 1 the loop of the
    source does not end on a non-empty array. *)
Definition processInParallel {W} (array : list string)
    (processor : string → M W SyncResult) (concurrency : Z)
  : M W (list SyncResult) :=
  processInParallel_loop (length array) array processor 0 concurrency 0 [].

(** The summary [syncMultipleProducts] returns. *)
Record Summary := mkSummary {
  total : Z;
  updated : Z;
  skipped : Z;
  errors : Z;
  noChange : Z;
  details : list SyncResult
}.

Definition incr_updated (s : Summary) : Summary :=
  mkSummary (total s) (updated s + 1) (skipped s) (errors s) (noChange s) (details s).
Definition incr_skipped (s : Summary) : Summary :=
  mkSummary (total s) (updated s) (skipped s + 1) (errors s) (noChange s) (details s).
Definition incr_errors (s : Summary) : Summary :=
  mkSummary (total s) (updated s) (skipped s) (errors s + 1) (noChange s) (details s).
Definition decr_errors (s : Summary) : Summary :=
  mkSummary (total s) (updated s) (skipped s) (errors s - 1) (noChange s) (details s).
Definition incr_noChange (s : Summary) : Summary :=
  mkSummary (total s) (updated s) (skipped s) (errors s) (noChange s + 1) (details s).
Definition set_details (d : list SyncResult) (s : Summary) : Summary :=
  mkSummary (total s) (updated s) (skipped s) (errors s) (noChange s) d.

Definition is_update (a : Action) : bool :=
  bool_decide (a = act_updated) || bool_decide (a = act_would_update).

(** The body of [results.details.forEach(result => ...)]. *)
Definition tally (s : Summary) (r : SyncResult) : Summary :=
  if success r then
    if is_update (action r) then incr_updated s
    else if bool_decide (action r = act_no_change) then incr_noChange s
    else incr_skipped s
  else incr_errors s.

(** The filter of the failures that are tried again. *)
Definition retryable (r : SyncResult) : bool :=
  negb (success r)
  && bool_decide (action r = act_error)
  && match error r with
     | Some msg =>
         JS.truthy msg
         && negb (JS.includes "no encontrado" msg)
         && negb (JS.includes "skipped" msg)
     | None => false
     end.

(** The body of [retryProcessedResults.forEach(retryResult => ...)]. *)
Definition apply_retry (s : Summary) (retryResult : SyncResult) : Summary :=
  match list_find (λ r, sku r = sku retryResult) (details s) with
  | None => s
  | Some (originalIndex, originalResult) =>
      let wasError :=
        negb (success originalResult)
        && bool_decide (action originalResult = act_error) in
      let s := set_details (<[originalIndex := retryResult]> (details s)) s in
      if success retryResult && wasError then
        let s := decr_errors s in
        if is_update (action retryResult) then incr_updated s
        else if bool_decide (action retryResult = act_no_change) then incr_noChange s
        else if bool_decide (action retryResult = act_skipped) then incr_skipped s
        else s
      else s
  end.

(** The [while] loop of the retries.  [left] bounds the passes: the loop
    starts at [retryAttempt = 1] and runs while [retryAttempt <= maxRetries]. *)
Fixpoint retry_loop {W} (left : nat) (worker : string → M W SyncResult)
    (concurrency maxRetries retryDelay : Z)
    (retryAttempt : Z) (remainingFailures : list SyncResult) (s : Summary)
  : M W Summary :=
  if negb (bool_decide (remainingFailures = [])) && (retryAttempt <=? maxRetries) then
    match left with
    | O => diverge
    | S left' =>
        let retryConcurrency := Z.max 2 (concurrency / 2) in
        let failedSkus := sku <$> remainingFailures in
        retryProcessedResults ← processInParallel failedSkus worker retryConcurrency;
        let s := foldl apply_retry s retryProcessedResults in
        let remainingFailures := filter (λ r, retryable r = true) retryProcessedResults in
        _ ← (if negb (bool_decide (remainingFailures = []))
                && (retryAttempt <? maxRetries)
             then sleep retryDelay else mret ());
        retry_loop left' worker concurrency maxRetries retryDelay
          (retryAttempt + 1) remainingFailures s
    end
  else mret s.

(** The concurrency [syncMultipleProducts] starts with:
    [options.concurrency || 5], limited to [ABSOLUTE_MAX_CONCURRENCY]. *)
Definition ABSOLUTE_MAX_CONCURRENCY : Z := 50.

Definition initialConcurrency (options : Options) : Z :=
  let c := JS.num_or (concurrency options) 5 in
  if ABSOLUTE_MAX_CONCURRENCY <? c then ABSOLUTE_MAX_CONCURRENCY else c.

(** The retries of [syncMultipleProducts], after the first pass. *)
Definition retryFailures {W} (worker : string → M W SyncResult)
    (options : Options) (concurrency : Z) (s : Summary) : M W Summary :=
  let failedProducts := filter (λ r, retryable r = true) (details s) in
  if negb (bool_decide (failedProducts = [])) && negb (dryRun options) then
    let maxRetries := default 3 (maxRetries options) in
    let retryDelay := default 2000 (retryDelay options) in
    _ ← sleep retryDelay;
    retry_loop (Z.to_nat maxRetries) worker concurrency maxRetries retryDelay
      1 failedProducts s
  else mret s.

(** [syncMultipleProducts(skus, options)]; [Fail] is the error it throws. *)
Definition syncMultipleProducts {W} (R : Remote W) (skus : list string)
    (options : Options) : M W (Response Summary) :=
  let results := mkSummary (Z.of_nat (length skus)) 0 0 0 0 [] in
  let concurrency := initialConcurrency options in
  auth ← call (verifyShopifyAuth R);
  match auth with
  | Fail e => mret (Fail e)
  | Ok _ =>
      loaded ← call (loadAllShopifyProducts R);
      match loaded with
      | Fail e => mret (Fail e)
      | Ok shopifyProductsMap =>
          managerProductsMap ←
            (if useManagerBulk options then
               bulk ← call (loadAllManagerProductsWithStock R
                              (JS.num_or (managerPageSize options) 200)
                              (JS.num_or (managerPagePauseMs options) 150));
               mret (match bulk with Ok m => Some m | Fail _ => None end)
             else mret None);
          location ←
            (if negb (dryRun options) then
               l ← call (getShopifyLocationId R);
               mret (match l with Ok l => Ok (Some l) | Fail e => Fail e end)
             else mret (Ok None));
          match location with
          | Fail e => mret (Fail e)
          | Ok locationId =>
              let processor :=
                worker R options shopifyProductsMap locationId managerProductsMap in
              processedResults ← processInParallel skus processor concurrency;
              let results := set_details processedResults results in
              let results := foldl tally results processedResults in
              results ← retryFailures processor options concurrency results;
              mret (Ok results)
          end
      end
  end.

(** *** Reading a run *)

(** The chunks of a run, in order: concurrency, results, next concurrency. *)
Definition chunks_of (log : list Event) : list (Z * list SyncResult * Z) :=
  omap (λ ev, match ev with
              | Chunk c rs c' => Some (c, rs, c')
              | _ => None
              end) log.

(** The SKUs of the chunks of a run, chunk by chunk. *)
Definition chunk_skus (log : list Event) : list (list string) :=
  (λ x : Z * list SyncResult * Z, sku <$> x.1.2) <$> chunks_of log.

(** The events of a run that has returned. *)
Definition events {W A} (run : option (A * W * list Event)) : list Event :=
  match run with
  | Some (_, _, log) => log
  | None => []
  end.

(** The chunk has at least one result that counts as a rate limit. *)
Definition has_rate_limit (rs : list SyncResult) : Prop :=
  Exists (λ r, isRateLimitResult r = true) rs.

(** The chunks of one pass follow each other: the first is cut with [c],
    each next one with the concurrency the adjustment left. *)
Fixpoint chained (c : Z) (chunks : list (Z * list SyncResult * Z)) : Prop :=
  match chunks with
  | [] => True
  | (c0, rs, c1) :: rest =>
      c0 = c ∧ c1 = adjustConcurrency c0 (countRateLimit rs) ∧ chained c1 rest
  end.

(** [quiet m]: [m] cuts no chunks of its own. *)
Definition quiet {W A} (m : M W A) : Prop :=
  ∀ w a w' l, m w = Some (a, w', l) → chunks_of l = [].

(** [gives P m]: when [m] returns, its value satisfies [P]. *)
Definition gives {W A} (P : A → Prop) (m : M W A) : Prop :=
  ∀ w a w' l, m w = Some (a, w', l) → P a.

(** [returns m]: [m] returns, in every world. *)
Definition returns {W A} (m : M W A) : Prop := ∀ w, is_Some (m w).

(** The bounds of the concurrency in [syncStocks.js]: the [1] of
    [Math.max(1, ...)] and [ABSOLUTE_MAX_CONCURRENCY]. *)
Definition within_bounds (c : Z) : Prop := 1 ≤ c ≤ ABSOLUTE_MAX_CONCURRENCY.

(** A result with [success] true has one of the three actions that
    [syncProductStock] gives to a success. *)
Definition success_is_counted (r : SyncResult) : Prop :=
  success r = true →
  action r = act_updated ∨ action r = act_would_update ∨ action r = act_no_change.

(** The results of [rs] for the SKU [x]. *)
Definition results_for (x : string) (rs : list SyncResult) : list SyncResult :=
  filter (λ r, sku r = x) rs.

(** The SKUs given to the worker in the chunks of a run, one after the
    other. *)
Definition submitted (log : list Event) : list string := concat (chunk_skus log).

(** A SKU of which every result is [skipped] is left out of the retries:
    in no run of the retries is it given to the worker again, and its
    results stay in the details as they are. *)
Definition never_resubmitted {W} (processor : string → M W SyncResult)
    (options : Options) (x : string) : Prop :=
  ∀ concurrency s w s' w' log,
    retryFailures processor options concurrency s w = Some (s', w', log) →
    Forall (λ r, action r = act_skipped) (results_for x (details s)) →
    (x ∉ submitted log)
    ∧ results_for x (details s') = results_for x (details s).

(** The same of a run of [syncMultipleProducts] that has returned a
    summary: the run has made a first pass, and when every result of that
    pass for the SKU [x] is [skipped], [x] is in no chunk of what follows
    the pass, and the details of the summary hold for [x] the results of
    the pass. *)
Definition skipped_is_final {W} (R : Remote W) (options : Options) (x : string) : Prop :=
  ∀ skus w summary w' log,
    syncMultipleProducts R skus options w = Some (Ok summary, w', log) →
    ∃ shopMap loc mgrMap w0 res w1 l1 l2,
      processInParallel skus (worker R options shopMap loc mgrMap)
        (initialConcurrency options) w0 = Some (res, w1, l1)
      ∧ log = l1 ++ l2
      ∧ (Forall (λ r, action r = act_skipped) (results_for x res) →
         (x ∉ submitted l2)
         ∧ results_for x (details summary) = results_for x res).

(** What [syncProductStock] makes of a SKU in a pass of
    [syncMultipleProducts], by what step 1 has [found] in Manager+, in
    world [w1] and with events [l1]:
    - no product in Manager+: [skipped];
    - a product in Manager+, no entry in the Shopify map: [skipped];
    - a SKU of which every result is [skipped] is in no chunk of the
      retries, whatever the summary they start from, and in none of a run
      of [syncMultipleProducts] after its first pass;
    - the lookup in Manager+ has failed: [error], whatever Shopify holds;
    - both present, equal stocks, [forceUpdate] not set: [no_change];
    - both present, [forceUpdate] set, no dry run, a location at hand: the
      stock of Manager+ is written to Shopify, equal or not, and the result
      is [updated] when Shopify accepts the write. *)
Definition outcomes_after_lookup {W} (R : Remote W) (sku : string)
    (options : Options) (shopMap : gmap string ShopifyProduct)
    (loc : option Z) (mgrMap : option (gmap string ManagerProduct))
    (w : W) (found : Response (option ManagerProduct)) (w1 : W)
    (l1 : list Event) : Prop :=
  let run := worker R options shopMap loc mgrMap sku w in
  (found = Ok None →
     run = Some (skipped_result sku "Producto no encontrado en Manager+", w1, l1))
  ∧ (∀ mp, found = Ok (Some mp) → shopMap !! sku = None →
       run = Some (skipped_result sku "Producto no encontrado en Shopify", w1, l1))
  ∧ (never_resubmitted (worker R options shopMap loc mgrMap) options sku
     ∧ skipped_is_final R options sku)
  ∧ (∀ e, found = Fail e → run = Some (error_result sku (JS.message e), w1, l1))
  ∧ (∀ mp sp, found = Ok (Some mp) → shopMap !! sku = Some sp →
       stock mp = currentStock sp → forceUpdate options = false →
       run = Some (mkSyncResult sku true act_no_change None
                     (Some (stock mp)) (Some (currentStock sp)) None, w1, l1))
  ∧ (∀ mp sp l, found = Ok (Some mp) → shopMap !! sku = Some sp →
       forceUpdate options = true → dryRun options = false →
       loc = Some l → l ≠ 0 →
       ∃ r w2,
         run = Some (r, w2, l1 ++ [Wrote (inventoryItemId sp) l (stock mp)])
         ∧ ((shopify_set_inventory R (inventoryItemId sp) l (stock mp) w1).1 = Ok () →
            r = mkSyncResult sku true act_updated None
                  (Some (stock mp)) (Some (currentStock sp)) (Some (stock mp)))).

(** The number of the results of [rs] whose [success] is false. *)
Definition failures (rs : list SyncResult) : Z :=
  Z.of_nat (length (filter (λ r, success r = false) rs)).

(** The summary of [syncMultipleProducts] after the tally of the first
    pass over [skus], which has given the results [res]. *)
Definition tallied (skus : list string) (res : list SyncResult) : Summary :=
  foldl tally (set_details res (mkSummary (Z.of_nat (length skus)) 0 0 0 0 [])) res.

(** What the [summary] that a run of [syncMultipleProducts] over [skus]
    has returned, in world [w'] and with the events [log], shows of the
    skipped:
    - its count of skipped is 0;
    - in its details every result with action [skipped] has [success]
      false;
    - the tally and the update after a retry change the count of skipped
      only on a result whose [success] is true;
    - the run has made a first pass, with results [res], whose tally has
      put every result with [success] false, the skipped among them, into
      [errors] and none into [skipped], and then the retries from that
      tally;
    - in a dry run, or when no result of the first pass is kept for a
      retry, the summary is that tally, so that [errors] counts every
      result with action [skipped] of the details. *)
Definition no_skipped_counted {W} (R : Remote W) (skus : list string)
    (options : Options) (summary : Summary) (w' : W) (log : list Event) : Prop :=
  skipped summary = 0
  ∧ Forall (λ r, action r = act_skipped → success r = false) (details summary)
  ∧ (∀ s r, skipped (tally s r) ≠ skipped s → success r = true)
  ∧ (∀ s r, skipped (apply_retry s r) ≠ skipped s → success r = true)
  ∧ ∃ shopMap loc mgrMap w0 res w1 l1 l2,
      processInParallel skus (worker R options shopMap loc mgrMap)
        (initialConcurrency options) w0 = Some (res, w1, l1)
      ∧ retryFailures (worker R options shopMap loc mgrMap) options
          (initialConcurrency options) (tallied skus res) w1
        = Some (summary, w', l2)
      ∧ log = l1 ++ l2
      ∧ details (tallied skus res) = res
      ∧ skipped (tallied skus res) = 0
      ∧ errors (tallied skus res) = failures res
      ∧ (dryRun options = true ∨ filter (λ r, retryable r = true) res = [] →
         summary = tallied skus res ∧ errors summary = failures (details summary)).

(** Following the words of the specification, not the code:
    [Math.round(c / 2)] (a half is rounded up), the halving
    [max(floor, round(prev / 2))], and the growth by one step under a
    ceiling. *)
Definition spec_round_half (c : Z) : Z := (c + 1) / 2.

Definition spec_halved (floor c : Z) : Z := Z.max floor (spec_round_half c).

Definition spec_grown (ceiling c : Z) : Z := Z.min ceiling (c + 1).

End SyncStocks.

(** ** createClientAndOrderShopify.js: the requests to the ERP *)

Module OrderClient.
Import SyncStocks.

(** [RETRY_CONFIG] *)
Definition maxRetries : Z := 5.
Definition baseDelay : Z := 3000.
Definition maxDelay : Z := 60000.
Definition retryableStatuses : list Z := [429; 500; 502; 503; 504].

(** [isRateLimitStatus || hasRetryField || hasLimitMessage] *)
Definition isRetryable (e : JS.error) : bool :=
  let isRateLimitStatus :=
    match JS.response_status e with
    | Some status => bool_decide (status ∈ retryableStatuses)
    | None => false
    end in
  let hasRetryField := bool_decide (is_Some (JS.data_retry e)) in
  let hasLimitMessage :=
    JS.includes_opt "límite" (JS.data_detail e)
    || JS.includes_opt "límite" (JS.data_message e) in
  isRateLimitStatus || hasRetryField || hasLimitMessage.

(** The wait before the next attempt:
    [Math.min(baseDelay * Math.pow(2, attempt - 1), maxDelay)], raised to
    [(responseData.retry + 2) * 1000] when the ERP says how long to wait. *)
Definition delayMs (attempt : Z) (e : JS.error) : Z :=
  let delay := Z.min (baseDelay * 2 ^ (attempt - 1)) maxDelay in
  match JS.data_retry e with
  | Some seconds =>
      if seconds =? 0 then delay else Z.max delay ((seconds + 2) * 1000)
  | None => delay
  end.

(** The [for] loop of [axiosWithRetry(requestFn)], from [attempt].  [left]
    bounds the attempts that follow; from [attempt = 1] there are four. *)
Fixpoint axiosWithRetry_from {W A} (left : nat) (requestFn : W → Response A * W)
    (attempt : Z) : M W (Response A) :=
  resp ← call requestFn;
  match resp with
  | Ok response => mret (Ok response)
  | Fail e =>
      if negb (isRetryable e) || (attempt =? maxRetries) then
        mret (Fail (if isRetryable e then JS.mark_isRateLimit e else e))
      else
        match left with
        | O => diverge
        | S left' =>
            _ ← sleep (delayMs attempt e);
            axiosWithRetry_from left' requestFn (attempt + 1)
        end
  end.

Definition axiosWithRetry {W A} (requestFn : W → Response A * W)
  : M W (Response A) :=
  axiosWithRetry_from 4 requestFn 1.

End OrderClient.

(** ** Concrete inputs used below *)

Module Examples.
Import WebhookQueue.

Definition default_options : Options := mkOptions None None None None None None.

(** The queue after order 7 has come in at time 400 and the consumer has
    started on it. *)
Definition busy_with_7 : System :=
  (enqueue 400 (mkPayload (JS.num 7) JS.undefined) "orders/create" "axam"
     (start default_options)).1.1.

Definition order (n : Z) : Payload := mkPayload (JS.num n) JS.undefined.

(** A 429 of the ERP that asks to wait 600 seconds. *)
Definition http_429 : JS.error :=
  JS.http_error 429 (Some 600) "Request failed with status code 429".

(** A processor that returns [{ success: false, retry: true, error }]. *)
Definition asks_retry : ProcessorOutcome :=
  Returns (mkRaw (Some false) (Some true) (Some "Rate limit del ERP")).

(** A processor that returns [{ success: true }]. *)
Definition done_ok : ProcessorOutcome :=
  Returns (mkRaw (Some true) None None).

Definition every_second (k : nat) : Z := 1000 * Z.of_nat k.

End Examples.

Module StockExamples.
Import SyncStocks.

Definition shop_map : gmap string ShopifyProduct :=
  list_to_map
    [("A", mkShopifyProduct 1 0); ("B", mkShopifyProduct 2 0);
     ("C", mkShopifyProduct 3 0); ("D", mkShopifyProduct 4 0);
     ("E", mkShopifyProduct 5 0); ("F", mkShopifyProduct 6 0);
     ("G", mkShopifyProduct 7 0)].

Definition erp_map : gmap string ManagerProduct :=
  list_to_map
    [("A", mkManagerProduct 1); ("B", mkManagerProduct 2);
     ("C", mkManagerProduct 3); ("D", mkManagerProduct 4);
     ("E", mkManagerProduct 5); ("F", mkManagerProduct 6);
     ("G", mkManagerProduct 0)].

Definition too_many_requests : JS.error :=
  JS.http_error 429 None "Request failed with status code 429".

Definition unavailable : JS.error :=
  JS.http_error 503 None "Request failed with status code 503".

(** Shopify refuses every write to inventory item 3 with a 429; the ERP
    answers every request by SKU with a 503. *)
Definition flaky : Remote () :=
  {| erp_get_product := λ _ w, (Fail unavailable, w);
     shopify_set_inventory := λ inv _ _ w,
       (if inv =? 3 then Fail too_many_requests else Ok (), w);
     verifyShopifyAuth := λ w, (Ok (), w);
     loadAllShopifyProducts := λ w, (Ok shop_map, w);
     loadAllManagerProductsWithStock := λ _ _ w, (Ok erp_map, w);
     getShopifyLocationId := λ w, (Ok 77, w) |}.

Definition plain : Options :=
  mkOptions false false false None None None true None None.

Definition forced_dry_run : Options :=
  mkOptions true true false None None None true None None.

Definition at_5 : Options :=
  mkOptions false false false (Some 5) (Some 1) None true None None.

Definition minus_1 : Options :=
  mkOptions false false false (Some (-1)) None None true None None.

Definition forced : Options :=
  mkOptions false true false None None None true None None.

Definition flaky_worker : string → M () SyncResult :=
  worker flaky plain shop_map (Some 77) (Some erp_map).

(** Seven SKUs at concurrency 5: the write of [C] is refused. *)
Definition seven_at_5 : option (list SyncResult * () * list Event) :=
  processInParallel ["A"; "B"; "C"; "D"; "E"; "F"; "G"] flaky_worker 5 ().

(** Four SKUs at concurrency 2: no rate limit. *)
Definition four_at_2 : option (list SyncResult * () * list Event) :=
  processInParallel ["A"; "B"; "D"; "E"] flaky_worker 2 ().

(** The ERP answers the requests by SKU one after the other, whatever the
    SKU: a product with stock 3, then a 503, then no product from the
    third request on; the world is the number of requests so far. *)
Definition wavering : Remote nat :=
  {| erp_get_product := λ _ n,
       (match n with
        | O => Ok (Some (mkManagerProduct 3))
        | S O => Fail unavailable
        | _ => Ok None
        end, S n);
     shopify_set_inventory := λ _ _ _ n, (Ok (), n);
     verifyShopifyAuth := λ n, (Ok (), n);
     loadAllShopifyProducts := λ n, (Ok shop_map, n);
     loadAllManagerProductsWithStock := λ _ _ n, (Ok erp_map, n);
     getShopifyLocationId := λ n, (Ok 77, n) |}.

(** One SKU at a time, every SKU asked of the ERP by a request of its own. *)
Definition one_by_one : Options :=
  mkOptions false false false (Some 1) None None false None None.

End StockExamples.

(** ** Reading the runs of the webhook queue *)

Module QueueRuns.
Import WebhookQueue.

(** Every call counted in [stats.total] is a duplicate, a processed order,
    a failed order, or an order still in the queue. *)
Definition accounted (sys : System) : Prop :=
  total (stats (obj sys))
  = duplicates (stats (obj sys)) + processed (stats (obj sys))
    + stat_failed (stats (obj sys)) + Z.of_nat (length (queue (obj sys))).

(** No item of the queue has been retried more often than [maxRetries]. *)
Definition retries_bounded (sys : System) : Prop :=
  Forall (λ item, 0 ≤ retryCount item ≤ maxRetries (config (obj sys)))
    (queue (obj sys)).

(** The inputs of [n] attempts that all settle with [s] and are tried
    again: the outcome, the retry delay, the minimum delay. *)
Fixpoint retried (n : nat) (s : Settled) : list Input :=
  match n with
  | O => []
  | S n' => InSettled s :: InTimer :: InTimer :: retried n' s
  end.

(** The events of a run, in order. *)
Definition trace_events (trace : list (System * list Event)) : list Event :=
  concat (snd <$> trace).

(** The items [processWebhook] was called with. *)
Definition calls (trace : list (System * list Event)) : list QueueItem :=
  omap (λ ev, match ev with CallProcessWebhook item => Some item | _ => None end)
    (trace_events trace).

(** The delays the consumer has slept. *)
Definition sleeps (trace : list (System * list Event)) : list Z :=
  omap (λ ev, match ev with Sleep ms => Some ms | _ => None end)
    (trace_events trace).

(** The delays of [n] retries: before the [k]-th one the retry delay of
    [k], then the minimum delay between two requests. *)
Definition retry_delays (cfg : Config) (n : nat) : list Z :=
  concat ((λ k, [retryDelay cfg (Z.of_nat k); minRequestDelay cfg]) <$> seq 1 n).

(** The item as [processWebhook] sees it at each of [n] attempts. *)
Definition attempts_of (item : QueueItem) (n : nat) : list QueueItem :=
  (λ k, with_retryCount (Z.of_nat k) item) <$> seq 0 n.

(** The state a run ends in; [sys] when there was no input. *)
Definition end_state (sys : System) (trace : list (System * list Event)) : System :=
  (default (sys, []) (last trace)).1.

(** The consumer has given up on [E]: it is idle, the queue is empty, the
    entry of [E] is failed, and [n] retries have been counted. *)
Definition gave_up (E : string) (n : Z) (final : System) : Prop :=
  consumer final = Idle
  ∧ isProcessing (obj final) = false
  ∧ queue (obj final) = []
  ∧ status <$> processedOrders (obj final) !! E = Some failed
  ∧ retries (stats (obj final)) = n.

(** The entry of [oid], if there is one, stops a new [enqueue] at time
    [now]: it is processing or completed and has not outlived the TTL. *)
Definition blocks (now : Z) (q : Queue) (oid : string) : Prop :=
  ∃ e, processedOrders q !! oid = Some e
       ∧ live_status e
       ∧ now - timestamp e ≤ cacheTTL (config q).

(** The order ids [enqueue] has accepted in a run, in order. *)
Definition accepted_ids (trace : list (System * list Event)) : list string :=
  omap (λ ev, match ev with
              | Returned r => if queued r then res_orderId r else None
              | _ => None
              end) (trace_events trace).

(** The order ids of the first attempts of a run, in order: the calls of
    [processWebhook] on an item that has not been retried. *)
Definition first_attempts (trace : list (System * list Event)) : list string :=
  omap (λ ev, match ev with
              | CallProcessWebhook item =>
                  if retryCount item =? 0 then Some (orderId item) else None
              | _ => None
              end) (trace_events trace).

(** The head of the queue has been handed to [processWebhook]: the
    consumer waits for its outcome, or it has been retried. *)
Definition head_called (sys : System) : bool :=
  match queue (obj sys) with
  | [] => false
  | item :: _ =>
      bool_decide (consumer sys = AwaitProcessWebhook) || (0 <? retryCount item)
  end.

(** The test of the [catch] that [setProcessor] installs: status 429, or a
    message with ['429'] or ['rate limit']. *)
Definition installed_isRateLimit (e : JS.error) : bool :=
  JS.status_is e 429
  || JS.includes "429" (serializeError e)
  || JS.includes "rate limit" (JS.toLowerCase (serializeError e)).

(** The orders that wait behind the head have not been tried. *)
Definition waiting_untried (sys : System) : Prop :=
  Forall (λ item, retryCount item = 0) (tail (queue (obj sys))).

(** What a run keeps between the accepted ids [A], the first attempts [C]
    and the queue: the orders of [done] have left the queue, the others are
    the queue, and of these only the head may have been tried. *)
Definition fifo_inv (sys : System) (A C : list string) : Prop :=
  consistent sys ∧ attempts_counted sys ∧ waiting_untried sys
  ∧ ∃ done,
      A = done ++ (orderId <$> queue (obj sys))
      ∧ C = done ++ (if head_called sys then take 1 (orderId <$> queue (obj sys))
                     else []).

(** The entry of [G] in the cache, when there is one, is a failed one. *)
Definition not_live (G : string) (sys : System) : Prop :=
  ∀ e, processedOrders (obj sys) !! G = Some e → status e = failed.

(** The consumer is not at work on [G]: the state is one of a run, the
    cache does not hold [G] as processing or completed, and the item whose
    outcome the consumer awaits is not [G]. *)
Definition unstarted (G : string) (sys : System) : Prop :=
  consistent sys
  ∧ not_live G sys
  ∧ (consumer sys = AwaitProcessWebhook →
     ∀ h, head (queue (obj sys)) = Some h → orderId h ≠ G).

(** The queue reached by the inputs [pre] on a new queue. *)
Definition reached (options : Options) (clock : nat → Z) (pre : list Input) : System :=
  end_state (start options) (run clock 0 pre (start options)).

End QueueRuns.

(** ** createClientAndOrderShopify.js: [processOrderNotification] *)

Module OrderNotification.

(** The state of the module: the set [processedOrders] and
    [lastWebhookNotification]. *)
Record State := mkState {
  processedOrders : gset string;
  lastWebhookNotification : option WebhookQueue.Payload
}.

(** What the module reads of the environment: whether the four variables
    of the ERP are all set, and [ENABLE_SHOPIFY_CREATE]. *)
Record Env := mkEnv {
  erp_configured : bool;
  ENABLE_SHOPIFY_CREATE : bool
}.

(** How the [try] block of [processOrderNotification] ends: the client
    and the order have been created; the order data are incomplete; or
    something was thrown, of which [catch] keeps the serialized message. *)
Inductive Fulfilment :=
| Created
| Incomplete
| Threw (errorMsg : string).

(** The object [processOrderNotification] returns (without the data it
    copies into it). *)
Record Notification := mkNotification {
  success : bool;
  error : option string;
  skipped : bool;
  reason : option string;
  res_orderId : option string;
  testing : bool
}.

(** [data.id?.toString() || data.order_id?.toString() || fallback] *)
Definition orderId_or (fallback : string) (data : WebhookQueue.Payload) : string :=
  default fallback
    (JS.or_else (WebhookQueue.extract_orderId data) (Some fallback)).

(** [processOrderNotification(orderData)].  [fulfil] stands for the [try]
    block (the order read from Shopify, [createClient], [createOrder]),
    taken in one step over the world [W]; the last component lists the
    order ids for which the block was entered. *)
Definition processOrderNotification {W} (env : Env)
    (fulfil : WebhookQueue.Payload → W → Fulfilment * W)
    (orderData : WebhookQueue.Payload) (st : State) (w : W)
  : Notification * State * W * list string :=
  let st := mkState (processedOrders st) (Some orderData) in
  let orderId := orderId_or "" orderData in
  if negb (JS.truthy orderId) then
    (mkNotification false (Some "ID de orden no encontrado") false None None false,
     st, w, [])
  else if bool_decide (orderId ∈ processedOrders st) then
    (mkNotification true None true (Some "order_already_processed") (Some orderId) false,
     st, w, [])
  else
    let st := mkState ({[orderId]} ∪ processedOrders st) (lastWebhookNotification st) in
    if negb (erp_configured env) then
      (mkNotification false
         (Some "Configuración incompleta: Variables del ERP no definidas")
         false None None false,
       st, w, [])
    else if negb (ENABLE_SHOPIFY_CREATE env) then
      (mkNotification true None false None (Some orderId) true, st, w, [])
    else
      let '(outcome, w) := fulfil orderData w in
      (match outcome with
       | Created => mkNotification true None false None (Some orderId) false
       | Incomplete =>
           mkNotification false (Some "Datos de orden incompletos desde Shopify")
             false None None false
       | Threw errorMsg =>
           mkNotification false (Some errorMsg) false None (Some orderId) false
       end,
       st, w, [orderId]).

(** [reprocessLastWebhook(force)]; [None] when no webhook is stored. *)
Definition reprocessLastWebhook {W} (env : Env)
    (fulfil : WebhookQueue.Payload → W → Fulfilment * W)
    (force : bool) (st : State) (w : W)
  : option Notification * State * W * list string :=
  match lastWebhookNotification st with
  | None => (None, st, w, [])
  | Some last =>
      let orderId := orderId_or "N/A" last in
      let st :=
        if force
        then mkState (processedOrders st ∖ {[orderId]}) (lastWebhookNotification st)
        else st in
      let '(n, st, w, entered) := processOrderNotification env fulfil last st w in
      (Some n, st, w, entered)
  end.

End OrderNotification.

(** ** server.js: the queue, its processor and the endpoints around them *)

Module Server.
Import WebhookQueue.

(** [new WebhookQueue({ cacheTTL, minRequestDelay, maxRetries,
    baseRetryDelay })] *)
Definition queue_options : Options :=
  mkOptions (Some (24 * 60 * 60 * 1000)) (Some 1500) (Some 5) (Some 5000) None None.

(** The topics the processor hands to [processOrderNotification]. *)
Definition handled (topic : string) : bool :=
  String.eqb topic "orders/create"
  || String.eqb topic "orders/paid"
  || String.eqb topic "orders/fulfilled".

(** The function given to [webhookQueue.setProcessor]. *)
Definition processor {W} (env : OrderNotification.Env)
    (fulfil : Payload → W → OrderNotification.Fulfilment * W)
    (webhookData : Payload) (topic shop : string)
    (st : OrderNotification.State) (w : W)
  : OrderNotification.Notification * OrderNotification.State * W * list string :=
  if handled topic then
    OrderNotification.processOrderNotification env fulfil webhookData st w
  else
    (OrderNotification.mkNotification true None true (Some "event_not_handled")
       None false,
     st, w, []).

(** What [setProcessor] reads of the object the processor returns: its
    [success] and its [error]; it has no [retry]. *)
Definition to_raw (n : OrderNotification.Notification) : RawResult :=
  mkRaw (Some (OrderNotification.success n)) None (OrderNotification.error n).

(** The server: the queue and its consumer, the state of
    [processOrderNotification], the world outside, and what the promise of
    the running [processWebhook] will settle with. *)
Record State (W : Type) := mkState {
  queue_sys : System;
  orders : OrderNotification.State;
  world : W;
  pending : option Settled
}.
Arguments mkState {W} _ _ _ _.
Arguments queue_sys {W} _.
Arguments orders {W} _.
Arguments world {W} _.
Arguments pending {W} _.

Inductive Request :=
| PostWebhook (data : Payload) (topic shop : string) (* POST /api/webhooks/shopify *)
| ProcessorSettles             (* the promise of processWebhook settles *)
| TimerFires                   (* the pending delay of the consumer elapses *)
| PostQueueReprocess (orderId : string)
                               (* POST /api/webhooks/shopify/queue/reprocess/:orderId *)
| CacheCleanup                 (* the setInterval callback of the queue *)
| PostReprocess (force : bool). (* POST /api/webhooks/shopify/reprocess *)

(** What a step of the server shows: the events of the queue, and the
    order ids for which the [try] block of [processOrderNotification] was
    entered. *)
Inductive Shown :=
| FromQueue (ev : Event)
| Attempted (orderId : string).

(** The item [processWebhook] is called with in a step of the queue. *)
Definition called (evs : list Event) : option QueueItem :=
  head (omap (λ ev, match ev with CallProcessWebhook item => Some item | _ => None end)
          evs).

(** After a step of the queue: when the consumer has called
    [processWebhook], the processor runs and the promise is pending. *)
Definition after_queue {W} (env : OrderNotification.Env)
    (fulfil : Payload → W → OrderNotification.Fulfilment * W)
    (s : State W) (step : System * list Event) : State W * list Shown :=
  match called step.2 with
  | Some item =>
      let '(n, st, w, entered) :=
        processor env fulfil (webhookData item) (topic item) (shop item)
          (orders s) (world s) in
      (mkState step.1 st w (Some (setProcessor (Returns (to_raw n)))),
       (FromQueue <$> step.2) ++ (Attempted <$> entered))
  | None => (mkState step.1 (orders s) (world s) (pending s), FromQueue <$> step.2)
  end.

Definition serve {W} (env : OrderNotification.Env)
    (fulfil : Payload → W → OrderNotification.Fulfilment * W)
    (now : Z) (req : Request) (s : State W) : State W * list Shown :=
  match req with
  | PostWebhook data topic shop =>
      after_queue env fulfil s (react now (InEnqueue data topic shop) (queue_sys s))
  | ProcessorSettles =>
      match pending s with
      | Some settled =>
          after_queue env fulfil
            (mkState (queue_sys s) (orders s) (world s) None)
            (react now (InSettled settled) (queue_sys s))
      | None => (s, [])
      end
  | TimerFires => after_queue env fulfil s (react now InTimer (queue_sys s))
  | PostQueueReprocess orderId =>
      if negb (JS.truthy orderId) then (s, [])
      else after_queue env fulfil s (react now (InForceReprocess orderId) (queue_sys s))
  | CacheCleanup => after_queue env fulfil s (react now InCleanup (queue_sys s))
  | PostReprocess force =>
      let '(_, st, w, entered) :=
        OrderNotification.reprocessLastWebhook env fulfil force (orders s) (world s) in
      (mkState (queue_sys s) st w (pending s), Attempted <$> entered)
  end.

(** A run of the server: the requests in order, the [k]-th at time
    [clock k]. *)
Fixpoint serve_run {W} (env : OrderNotification.Env)
    (fulfil : Payload → W → OrderNotification.Fulfilment * W)
    (clock : nat → Z) (k : nat) (reqs : list Request) (s : State W)
  : list (State W * list Shown) :=
  match reqs with
  | [] => []
  | req :: rest =>
      let step := serve env fulfil (clock k) req s in
      step :: serve_run env fulfil clock (S k) rest step.1
  end.

(** The server when it starts. *)
Definition boot {W} (w : W) : State W :=
  mkState (start queue_options) (OrderNotification.mkState ∅ None) w None.

(** The order ids for which the [try] block was entered in a run. *)
Definition attempted {W} (trace : list (State W * list Shown)) : list string :=
  omap (λ sh, match sh with Attempted oid => Some oid | _ => None end)
    (concat (snd <$> trace)).

(** The events of the queue in a run. *)
Definition queue_events {W} (trace : list (State W * list Shown)) : list Event :=
  omap (λ sh, match sh with FromQueue ev => Some ev | _ => None end)
    (concat (snd <$> trace)).

(** No request of the list is a forced reprocess of the last webhook. *)
Definition unforced (reqs : list Request) : Prop :=
  Forall (λ req, req ≠ PostReprocess true) reqs.

(** The state a run of the server ends in. *)
Definition end_state {W} (s : State W) (trace : list (State W * list Shown)) : State W :=
  (default (s, []) (last trace)).1.

(** What every state of the server keeps: no retry has been counted, the
    consumer does not sleep before a retry, no item has been retried, the
    configuration is that of [server.js], and the promise that is pending
    does not settle with a retry signal. *)
Definition retry_free {W} (s : State W) : Prop :=
  retries (stats (obj (queue_sys s))) = 0
  ∧ consumer (queue_sys s) ≠ AwaitRetryDelay
  ∧ Forall (λ item, retryCount item = 0) (queue (obj (queue_sys s)))
  ∧ config (obj (queue_sys s)) = config (new queue_options)
  ∧ ∀ settled, pending s = Some settled → retry_signal settled = false.

(** The webhook that is stored has been seen by
    [processOrderNotification]: its id, when it has one, is in the set. *)
Definition last_is_known (st : OrderNotification.State) : Prop :=
  ∀ d, OrderNotification.lastWebhookNotification st = Some d →
       JS.truthy (OrderNotification.orderId_or "" d) = true →
       OrderNotification.orderId_or "" d ∈ OrderNotification.processedOrders st.

End Server.

(** ** Reading the runs of the stock synchroniser *)

Module StockRuns.
Import SyncStocks.

(** The writes a run has sent to Shopify: inventory item, location,
    quantity. *)
Definition writes (log : list Event) : list (Z * Z * Z) :=
  omap (λ ev, match ev with
              | Wrote inv loc quantity => Some (inv, loc, quantity)
              | _ => None
              end) log.

(** The waits of a run. *)
Definition waits (log : list Event) : list Z :=
  omap (λ ev, match ev with Slept ms => Some ms | _ => None end) log.

(** [silent m]: [m] sends no write to Shopify. *)
Definition silent {W A} (m : M W A) : Prop :=
  ∀ w a w' l, m w = Some (a, w', l) → writes l = [].

(** The results of the chunks of a run, one after the other. *)
Definition chunk_results (log : list Event) : list SyncResult :=
  concat ((λ x : Z * list SyncResult * Z, x.1.2) <$> chunks_of log).

(** The answers of the services to the worker do not depend on the world:
    not on what has been asked before, and so not on the order in which
    the workers of a chunk send their requests. *)
Definition answers_alike {W} (R : Remote W) : Prop :=
  (∀ sku w1 w2, (erp_get_product R sku w1).1 = (erp_get_product R sku w2).1)
  ∧ (∀ inv loc quantity w1 w2,
       (shopify_set_inventory R inv loc quantity w1).1
       = (shopify_set_inventory R inv loc quantity w2).1)
  ∧ (∀ w1 w2, (getShopifyLocationId R w1).1 = (getShopifyLocationId R w2).1).

(** What a run gives and shows, the world left aside. *)
Definition outcome {W A} (run : option (A * W * list Event)) : option (A * list Event) :=
  (λ x : A * W * list Event, (x.1.1, x.2)) <$> run.

(** [alike m]: [m] gives and shows the same in every world. *)
Definition alike {W A} (m : M W A) : Prop := ∀ w1 w2, outcome (m w1) = outcome (m w2).

(** The sum of the four counters of a summary. *)
Definition counted (s : Summary) : Z := updated s + noChange s + skipped s + errors s.

(** What a summary keeps for the list [skus] it was asked for: [total] is
    their number, the four counters add up to the number of details, and
    the SKUs, in their order, are among the SKUs of the details. *)
Definition accounts_for (skus : list string) (s : Summary) : Prop :=
  total s = Z.of_nat (length skus)
  ∧ counted s = Z.of_nat (length (details s))
  ∧ skus `sublist_of` (sku <$> details s).

(** What the tally and the retries keep of a summary: [total], the sum
    of the counters, which is the number of details, and the SKUs of the
    details. *)
Definition kept (T : Z) (L : list string) (s : Summary) : Prop :=
  total s = T
  ∧ counted s = Z.of_nat (length (details s))
  ∧ sku <$> details s = L.

(** The wait of [getManagerProductBySKU] after a 429 at [attempt]. *)
Definition retryMs (e : JS.error) (attempt : Z) : Z :=
  match JS.retry_after e with
  | Some seconds => seconds * 1000
  | None => Z.min 5000 (1500 * attempt)
  end.

(** The ERP answers the request for [sku] with a 429 three times in a
    row, from the world [w]: the errors and the world after them. *)
Definition three_times_429 {W} (R : Remote W) (sku : string) (w : W)
    (e1 e2 e3 : JS.error) (w3 : W) : Prop :=
  ∃ w1 w2,
    erp_get_product R sku w = (Fail e1, w1)
    ∧ erp_get_product R sku w1 = (Fail e2, w2)
    ∧ erp_get_product R sku w2 = (Fail e3, w3)
    ∧ JS.status_is e1 429 = true
    ∧ JS.status_is e2 429 = true
    ∧ JS.status_is e3 429 = true.

End StockRuns.

(** ** More of the JavaScript strings *)

Module JSString.

(** Strings are sequences of bytes, UTF-8 for what is not ASCII. *)
Definition byte (a : Ascii.ascii) : N := Ascii.N_of_ascii a.

(** The white space and line terminators of one byte: TAB, LF, VT, FF,
    CR and the space. *)
Definition ws1 (a : Ascii.ascii) : bool :=
  ((9 <=? byte a) && (byte a <=? 13) || (byte a =? 32))%N.

(** U+00A0, of two bytes. *)
Definition ws2 (a b : Ascii.ascii) : bool :=
  ((byte a =? 194) && (byte b =? 160))%N.

(** Those of three bytes: U+1680, U+2000 to U+200A, U+2028, U+2029,
    U+202F, U+205F, U+3000 and U+FEFF. *)
Definition ws3 (a b c : Ascii.ascii) : bool :=
  ((byte a =? 225) && (byte b =? 154) && (byte c =? 128)
   || (byte a =? 226) && (byte b =? 128)
      && ((128 <=? byte c) && (byte c <=? 138)
          || (byte c =? 168) || (byte c =? 169) || (byte c =? 175))
   || (byte a =? 226) && (byte b =? 129) && (byte c =? 159)
   || (byte a =? 227) && (byte b =? 128) && (byte c =? 128)
   || (byte a =? 239) && (byte b =? 187) && (byte c =? 191))%N.

(** [s.trimStart()] *)
Fixpoint trimStart (s : string) : string :=
  match s with
  | EmptyString => s
  | String a rest =>
      if ws1 a then trimStart rest
      else match rest with
           | EmptyString => s
           | String b rest2 =>
               if ws2 a b then trimStart rest2
               else match rest2 with
                    | EmptyString => s
                    | String c rest3 => if ws3 a b c then trimStart rest3 else s
                    end
           end
  end.

(** The same from the end, on the bytes in reverse. *)
Fixpoint trimStart_rev (l : list Ascii.ascii) : list Ascii.ascii :=
  match l with
  | [] => l
  | a :: rest =>
      if ws1 a then trimStart_rev rest
      else match rest with
           | [] => l
           | b :: rest2 =>
               if ws2 b a then trimStart_rev rest2
               else match rest2 with
                    | [] => l
                    | c :: rest3 => if ws3 c b a then trimStart_rev rest3 else l
                    end
           end
  end.

(** [s.trimEnd()] *)
Definition trimEnd (s : string) : string :=
  String.string_of_list_ascii
    (reverse (trimStart_rev (reverse (String.list_ascii_of_string s)))).

(** [s.trim()] *)
Definition trim (s : string) : string := trimEnd (trimStart s).

(** Truthiness of a value. *)
Definition truthy_value (v : JS.value) : bool :=
  match v with
  | JS.undefined | JS.null => false
  | JS.num z => negb (z =? 0)
  | JS.str s => JS.truthy s
  end.

(** [a || b] on values. *)
Definition or_value (a b : JS.value) : JS.value :=
  if truthy_value a then a else b.

(** [v.toString()] of a number or a string. *)
Definition toString (v : JS.value) : string :=
  match v with
  | JS.num z => pretty z
  | JS.str s => s
  | JS.undefined => "undefined"
  | JS.null => "null"
  end.

End JSString.

(** ** syncStocks.js: the stock of a product of Manager+ *)

Module Warehouse.

(** The numbers [extractStockFromProduct] adds up.  In the source they
    are the doubles of JavaScript; the model leaves them open:
    - [number], the numbers, with [zero] for the literal [0] and [plus]
      for [+];
    - [field], what the [saldo] of a record holds: a number, a text,
      nothing;
    - [parseFloat_or_0], the number [parseFloat(saldo || 0) || 0] that a
      record adds.
    No law of arithmetic is asked of them. *)
Class Numbers := {
  number : Type;
  field : Type;
  zero : number;
  plus : number → number → number;
  parseFloat_or_0 : field → number
}.

(** The numbers that are integers, and a [saldo] that is an integer when
    it is there. *)
Definition integers : Numbers :=
  {| number := Z; field := option Z; zero := 0; plus := Z.add;
     parseFloat_or_0 := default 0 |}.

(** A [saldo] as the ERP may send it: absent ([undefined], [null]), a
    number, or a text. *)
Inductive Saldo :=
| no_saldo
| saldo_number (f : float)
| saldo_text (s : string).

(** [f || 0] on a double: [NaN] and the two zeros give [0]. *)
Definition or_0 (f : float) : float :=
  if (PrimFloat.eqb f f && negb (PrimFloat.eqb f 0))%bool then f else 0%float.

(** The doubles, with the [parseFloat] of a text left open.  A number
    that is truthy goes through [parseFloat] as it is. *)
Definition doubles (parseFloat : string → float) : Numbers :=
  {| number := float; field := Saldo; zero := 0%float;
     plus := PrimFloat.add;
     parseFloat_or_0 := λ saldo,
       match saldo with
       | no_saldo => 0%float
       | saldo_number f => or_0 f
       | saldo_text s => if JS.truthy s then or_0 (parseFloat s) else 0%float
       end |}.

Section Stock.
Context `{Numbers}.

(** A record of the [stock] of a product: the fields in which the name
    of its warehouse may come, and [saldo]. *)
Record StockItem := mkStockItem {
  bodega : JS.value;
  almacen : JS.value;
  descripcion_bodega : JS.value;
  nombre_bodega : JS.value;
  bod : JS.value;
  saldo : field
}.

(** The [name] of [isGeneralWarehouse]: the first of the five fields that
    is truthy, or [''], as a string, in lower case, trimmed. *)
Definition warehouse_name (stockItem : StockItem) : string :=
  JSString.trim
    (JS.toLowerCase
       (JSString.toString
          (JSString.or_value (bodega stockItem)
             (JSString.or_value (almacen stockItem)
                (JSString.or_value (descripcion_bodega stockItem)
                   (JSString.or_value (nombre_bodega stockItem)
                      (JSString.or_value (bod stockItem) (JS.str "")))))))).

(** [isGeneralWarehouse(stockItem)] *)
Definition isGeneralWarehouse (stockItem : StockItem) : bool :=
  let name := warehouse_name stockItem in
  if negb (JS.truthy name) then true
  else if JS.includes "temporal" name then false
  else if JS.includes "general" name then true
  else negb (JS.includes "temporal" name).

(** An element of the [stock] array, or of an array inside it: an object,
    which [processItem] reads as a record (an array at that place is an
    object without any of the six fields), or something [processItem]
    passes over ([null], a number, a string). *)
Inductive Element :=
| Obj (item : StockItem)
| Other.

(** An entry of the [stock] array: an array of elements, or one element. *)
Inductive Entry :=
| Nested (elements : list Element)
| Single (element : Element).

(** [processItem(item)], on the running sum:
    [stock += parseFloat(saldo) || 0] for a record of a warehouse that
    counts. *)
Definition processItem (stock : number) (item : Element) : number :=
  match item with
  | Other => stock
  | Obj it =>
      if negb (isGeneralWarehouse it) then stock
      else plus stock (parseFloat_or_0 (saldo it))
  end.

(** [extractStockFromProduct(product)], of [product.stock]; [None] when
    that is not an array. *)
Definition extractStockFromProduct (stockEntries : option (list Entry)) : number :=
  match stockEntries with
  | None => zero
  | Some entries =>
      foldl (λ stock entry,
               match entry with
               | Nested elements => foldl processItem stock elements
               | Single element => processItem stock element
               end) zero entries
  end.

(** The elements of the entries, one level of arrays taken away. *)
Definition flatten (entries : list Entry) : list Element :=
  entries ≫= λ entry, match entry with
                      | Nested elements => elements
                      | Single element => [element]
                      end.

(** What the records of the elements add, in their order: for every
    record whose warehouse name does not hold ['temporal'], the number of
    its [saldo]. *)
Definition amounts (elements : list Element) : list number :=
  omap (λ element,
          match element with
          | Obj it =>
              if JS.includes "temporal" (warehouse_name it) then None
              else Some (parseFloat_or_0 (saldo it))
          | Other => None
          end) elements.

End Stock.

End Warehouse.

(** ** syncStocks.js: the products of Manager+ loaded page by page *)

Module ManagerBulk.
Import SyncStocks.

(** The stocks of the products loaded are integers, as
    [SyncStocks.ManagerProduct] holds them. *)
#[export] Existing Instance Warehouse.integers.

(** A product as the ERP lists it: the three fields its code may come
    in, strings when they are there, and its [stock]. *)
Record RawProduct := mkRawProduct {
  codigo_prod : option string;
  cod_producto : option string;
  codigo : option string;
  stock : option (list Warehouse.Entry)
}.

(** The ERP: the token, and the page of products for a [limit] and an
    [offset] ([None] when what comes is not an array). *)
Record Erp (W : Type) := mkErp {
  getERPAuthToken : W → Response () * W;
  get_products : Z → Z → W → Response (option (list RawProduct)) * W
}.
Arguments getERPAuthToken {W} _ _.
Arguments get_products {W} _ _ _ _.

(** The options of [loadAllManagerProductsWithStock]. *)
Record Options := mkOptions {
  pageSize : option Z;
  pauseMs : option Z;
  useCache : bool;
  forceReload : bool;
  maxPages : option Z
}.

(** What a load shows: the requests for a page and the pauses. *)
Inductive LoadEvent :=
| Requested (limit offset : Z)
| Paused (ms : Z).

(** [product.codigo_prod || product.cod_producto || product.codigo] *)
Definition sku_of (product : RawProduct) : option string :=
  JS.or_else (JS.or_else (codigo_prod product) (cod_producto product)) (codigo product).

(** The body of [data.forEach(product => ...)]: the product is set under
    its code, when it has one. *)
Definition add_product (productMap : gmap string ManagerProduct) (product : RawProduct)
  : gmap string ManagerProduct :=
  let stock := Warehouse.extractStockFromProduct (stock product) in
  match sku_of product with
  | Some sku => if JS.truthy sku then <[sku := mkManagerProduct stock]> productMap
                else productMap
  | None => productMap
  end.

(** The [while] loop, with [left] pages to go before [maxPages]. *)
Fixpoint load_pages {W} (E : Erp W) (left : nat) (limit pause offset : Z)
    (productMap : gmap string ManagerProduct) (w : W)
  : Response (gmap string ManagerProduct) * W * list LoadEvent :=
  match left with
  | O => (Ok productMap, w, [])
  | S left' =>
      let '(response, w) := get_products E limit offset w in
      match response with
      | Fail e => (Fail e, w, [Requested limit offset])
      | Ok None => (Ok productMap, w, [Requested limit offset])
      | Ok (Some data) =>
          if bool_decide (data = []) then (Ok productMap, w, [Requested limit offset])
          else
            let prevSize := size productMap in
            let productMap := foldl add_product productMap data in
            let offset' := offset + Z.of_nat (length data) in
            if bool_decide (size productMap = prevSize) then
              (Ok productMap, w, [Requested limit offset])
            else if Z.of_nat (length data) <? limit then
              (Ok productMap, w, [Requested limit offset])
            else
              let '(out, w, log) :=
                load_pages E left' limit pause offset' productMap w in
              (out, w,
               Requested limit offset
               :: (if 0 <? pause then [Paused pause] else []) ++ log)
      end
  end.

(** [loadAllManagerProductsWithStock(options)], over the cache of the
    module: the map or the error, the cache after the call, the world and
    what the load has shown. *)
Definition loadAllManagerProductsWithStock {W} (E : Erp W) (options : Options)
    (managerProductsCache : option (gmap string ManagerProduct)) (w : W)
  : Response (gmap string ManagerProduct) * option (gmap string ManagerProduct)
    * W * list LoadEvent :=
  let pageSize := default 200 (pageSize options) in
  let pause := default 150 (pauseMs options) in
  let maxPages := default 200 (maxPages options) in
  match (if useCache options && negb (forceReload options)
         then managerProductsCache else None) with
  | Some cached => (Ok cached, managerProductsCache, w, [])
  | None =>
      let limit := Z.min (Z.max 1 pageSize) 500 in
      let '(token, w) := getERPAuthToken E w in
      match token with
      | Fail e => (Fail e, managerProductsCache, w, [])
      | Ok _ =>
          let '(out, w, log) :=
            load_pages E (Z.to_nat maxPages) limit pause 0 ∅ w in
          (out, match out with Ok m => Some m | Fail _ => managerProductsCache end,
           w, log)
      end
  end.

(** The requests of a load, in order: limit and offset. *)
Definition requests (log : list LoadEvent) : list (Z * Z) :=
  omap (λ ev, match ev with
              | Requested limit offset => Some (limit, offset)
              | Paused _ => None
              end) log.

(** The ERP takes no notice of the offset: it answers every request for a
    page of [limit] products with the same [page]. *)
Definition ignores_offset {W} (E : Erp W) (limit : Z) (page : list RawProduct) : Prop :=
  ∀ offset w, get_products E limit offset w = (Ok (Some page), w).

(** The ERP pages through [catalog]: a request gives the [limit] products
    from [offset] on. *)
Definition paginates {W} (E : Erp W) (catalog : list RawProduct) : Prop :=
  ∀ limit offset w,
    get_products E limit offset w
    = (Ok (Some (take (Z.to_nat limit) (drop (Z.to_nat offset) catalog))), w).

(** The code under which a product is set in the map, if it is set. *)
Definition key_of (product : RawProduct) : option string :=
  match sku_of product with
  | Some sku => if JS.truthy sku then Some sku else None
  | None => None
  end.

(** Every product of the catalogue has a code, and no two have the same. *)
Definition distinct_codes (catalog : list RawProduct) : Prop :=
  Forall (λ product, is_Some (key_of product)) catalog
  ∧ NoDup (omap key_of catalog).

(** The limit a load asks its pages with. *)
Definition limit_of (options : Options) : Z :=
  Z.min (Z.max 1 (default 200 (pageSize options))) 500.

(** The pages a load may ask for: [maxPages], 200 when it is not given. *)
Definition pages_of (options : Options) : nat :=
  Z.to_nat (default 200 (maxPages options)).

(** Of two requests that follow each other, the second starts at least
    [limit] products after the first. *)
Definition advances (limit : Z) (a b : Z * Z) : Prop := a.2 + limit ≤ b.2.

End ManagerBulk.

(** ** createClientAndOrderShopify.js: the check digit of a RUT *)

Module Rut.

(** [\d], on the bytes of the string. *)
Definition is_digit (c : Ascii.ascii) : bool :=
  ((48 <=? Ascii.N_of_ascii c) && (Ascii.N_of_ascii c <=? 57))%N.

(** [rutBase.replace(/\D/g, '')], as the list of its characters. *)
Definition clean_of (rutBase : string) : list Ascii.ascii :=
  filter (λ c, is_digit c = true) (String.list_ascii_of_string rutBase).

(** [parseInt(c, 10)] of a digit. *)
Definition parseInt (c : Ascii.ascii) : Z := Z.of_N (Ascii.N_of_ascii c) - 48.

(** The body of the [for] loop, on [suma] and [multiplicador]. *)
Definition step (state : Z * Z) (c : Ascii.ascii) : Z * Z :=
  let '(suma, multiplicador) := state in
  (suma + parseInt c * multiplicador,
   if multiplicador =? 7 then 2 else multiplicador + 1).

(** [calcularDV(rutBase)]; [None] for a [rutBase] that is [undefined] or
    [null].  The loop goes through [clean] from its last character to its
    first. *)
Definition calcularDV (rutBase : option string) : string :=
  let clean := clean_of (default "" rutBase) in
  if bool_decide (clean = []) then "0"
  else
    let suma := (foldl step (0, 2) (reverse clean)).1 in
    let resto := suma mod 11 in
    let dv := 11 - resto in
    if dv =? 11 then "0"
    else if dv =? 10 then "K"
    else pretty dv.

(** The weight of the digit at place [i], counted from the last one: 2, 3,
    4, 5, 6, 7 and again. *)
Definition weight (i : nat) : Z := 2 + Z.of_nat i mod 6.

(** The sum of the digits, each times the weight of its place. *)
Fixpoint weighted_sum (digits : list Ascii.ascii) : Z :=
  match digits with
  | [] => 0
  | c :: rest => parseInt c * weight (length rest) + weighted_sum rest
  end.

(** What a check digit stands for: ['K'] for 10, a digit for itself. *)
Definition dv_value (dv : string) : option Z :=
  if String.eqb dv "K" then Some 10
  else match dv with
       | String c EmptyString => if is_digit c then Some (parseInt c) else None
       | _ => None
       end.

(** The check digit from the remainder of the sum. *)
Definition dv_of (resto : Z) : string :=
  let dv := 11 - resto in
  if dv =? 11 then "0" else if dv =? 10 then "K" else pretty dv.

End Rut.

(** ** Examples for the runs *)

Module RunExamples.
Import WebhookQueue.

(** A queue that retries twice. *)
Definition two_retries : Options := mkOptions None None (Some 2) None None None.

(** Order 7 comes in, its attempt asks for a retry, and the two delays
    pass. *)
Definition one_retry : list Input :=
  [InEnqueue (Examples.order 7) "orders/create" "axam";
   InSettled (setProcessor Examples.asks_retry); InTimer; InTimer].

(** The item of order 7 as [Examples.busy_with_7] holds it. *)
Definition item_7 : QueueItem :=
  mkItem "7" (Examples.order 7) "orders/create" "axam" 400 0.

(** The ERP is configured and the creation of orders is on. *)
Definition live : OrderNotification.Env := OrderNotification.mkEnv true true.

(** The world counts the orders created; every order can be created. *)
Definition creates (data : Payload) (w : nat) : OrderNotification.Fulfilment * nat :=
  (OrderNotification.Created, S w).

(** Order 7 is created, then asked for again in every way but by force. *)
Definition again_and_again : list Server.Request :=
  [Server.PostWebhook (Examples.order 7) "orders/create" "axam";
   Server.ProcessorSettles;
   Server.PostReprocess false;
   Server.PostQueueReprocess "7";
   Server.PostWebhook (Examples.order 7) "orders/paid" "axam";
   Server.ProcessorSettles].

(** The server after order 7 has been created. *)
Definition after_order_7 : Server.State nat :=
  Server.end_state (Server.boot 0%nat)
    (Server.serve_run live creates Examples.every_second 0
       [Server.PostWebhook (Examples.order 7) "orders/create" "axam";
        Server.ProcessorSettles]
       (Server.boot 0%nat)).

(** Four SKUs synchronised one after the other. *)
Definition four_in_a_row
  : option (list SyncStocks.SyncResult * () * list SyncStocks.Event) :=
  SyncStocks.promise_all StockExamples.flaky_worker ["A"; "B"; "D"; "E"] ().

Definition four_results : list SyncStocks.SyncResult :=
  match four_in_a_row with Some (rs, _, _) => rs | None => [] end.

(** The services of [StockExamples.flaky], in a world that counts the
    requests made of them. *)
Definition counting : SyncStocks.Remote nat :=
  {| SyncStocks.erp_get_product := λ _ n, (SyncStocks.Fail StockExamples.unavailable, S n);
     SyncStocks.shopify_set_inventory := λ inv _ _ n,
       (if inv =? 3 then SyncStocks.Fail StockExamples.too_many_requests
        else SyncStocks.Ok (), S n);
     SyncStocks.verifyShopifyAuth := λ n, (SyncStocks.Ok (), S n);
     SyncStocks.loadAllShopifyProducts := λ n, (SyncStocks.Ok StockExamples.shop_map, S n);
     SyncStocks.loadAllManagerProductsWithStock :=
       λ _ _ n, (SyncStocks.Ok StockExamples.erp_map, S n);
     SyncStocks.getShopifyLocationId := λ n, (SyncStocks.Ok 77, S n) |}.

(** A dry run at concurrency 5. *)
Definition dry_at_5 : SyncStocks.Options :=
  SyncStocks.mkOptions true false false (Some 5) (Some 1) None true None None.

(** The ERP answers every request by SKU with a 429. *)
Definition limited : SyncStocks.Remote () :=
  {| SyncStocks.erp_get_product := λ _ w, (SyncStocks.Fail StockExamples.too_many_requests, w);
     SyncStocks.shopify_set_inventory := λ _ _ _ w, (SyncStocks.Ok (), w);
     SyncStocks.verifyShopifyAuth := λ w, (SyncStocks.Ok (), w);
     SyncStocks.loadAllShopifyProducts := λ w, (SyncStocks.Ok StockExamples.shop_map, w);
     SyncStocks.loadAllManagerProductsWithStock :=
       λ _ _ w, (SyncStocks.Ok StockExamples.erp_map, w);
     SyncStocks.getShopifyLocationId := λ w, (SyncStocks.Ok 77, w) |}.

End RunExamples.

Module BulkExamples.
Import Warehouse ManagerBulk.

Definition in_warehouse (name : string) (saldo : Z) : Element :=
  Obj (mkStockItem (JS.str name) JS.undefined JS.undefined JS.undefined JS.undefined
         (Some saldo)).

(** Three products: the first with stock in two warehouses, one of them
    temporary; the second with its records in an array of arrays. *)
Definition catalog : list RawProduct :=
  [mkRawProduct (Some "A") None None
     (Some [Single (in_warehouse "Bodega General" 5);
            Single (in_warehouse "Bodega Temporal" 3)]);
   mkRawProduct None (Some "B") None
     (Some [Nested [in_warehouse "Bodega General" 2; in_warehouse "Sucursal" 4]]);
   mkRawProduct None None (Some "C") None].

(** An ERP that pages through the catalogue. *)
Definition paging : Erp () :=
  {| getERPAuthToken := λ w, (SyncStocks.Ok (), w);
     get_products := λ limit offset w,
       (SyncStocks.Ok (Some (take (Z.to_nat limit) (drop (Z.to_nat offset) catalog))), w) |}.

(** An ERP that answers every request with the first two products. *)
Definition stuck : Erp () :=
  {| getERPAuthToken := λ w, (SyncStocks.Ok (), w);
     get_products := λ _ _ w, (SyncStocks.Ok (Some (take 2 catalog)), w) |}.

(** Pages of two products. *)
Definition by_two : Options := mkOptions (Some 2) None false false None.

End BulkExamples.

(** * Properties of the webhook queue *)

Module WebhookQueueProofs.
Import WebhookQueue.

Lemma identity_Some data i :
  identity data = Some i → extract_orderId data = Some i ∧ JS.truthy i = true.
Proof.
  unfold identity. destruct (extract_orderId data) as [oid|]; [|done].
  destruct (JS.truthy oid) eqn:Ht; [|done]. intros [= <-]. done.
Qed.

Lemma identity_None data :
  identity data = None →
  extract_orderId data = None
  ∨ ∃ oid, extract_orderId data = Some oid ∧ JS.truthy oid = false.
Proof.
  unfold identity. destruct (extract_orderId data) as [oid|]; [|by left].
  destruct (JS.truthy oid) eqn:Ht; [done|]. right. by exists oid.
Qed.

Lemma expired_false now cfg e :
  now - timestamp e ≤ cacheTTL cfg → expired now cfg e = false.
Proof. unfold expired. intros. apply Z.ltb_ge. lia. Qed.

Lemma live_status_bool e :
  live_status e →
  bool_decide (status e = completed) || bool_decide (status e = processing) = true.
Proof. intros [-> | ->]; reflexivity. Qed.

Lemma not_live_status_bool e :
  status e = failed →
  bool_decide (status e = completed) || bool_decide (status e = processing) = false.
Proof. intros ->. reflexivity. Qed.

(** [isOrderProcessed] answers [true] exactly on an entry that is within
    the TTL and not failed. *)
Lemma isOrderProcessed_live now oid q e :
  JS.truthy oid = true →
  processedOrders q !! oid = Some e →
  live_status e →
  now - timestamp e ≤ cacheTTL (config q) →
  isOrderProcessed now oid q = (true, q).
Proof.
  intros Ht He Hl Hage. unfold isOrderProcessed.
  rewrite Ht, He. simpl. rewrite (expired_false _ _ _ Hage).
  by rewrite live_status_bool.
Qed.

(** After [isOrderProcessed] has answered [false] on an id that is not
    empty, the cache holds no entry for the order, or one that has failed. *)
Lemma isOrderProcessed_false now oid q q' :
  JS.truthy oid = true →
  isOrderProcessed now oid q = (false, q') →
  queue q' = queue q ∧ config q' = config q ∧ stats q' = stats q
  ∧ isProcessing q' = isProcessing q
  ∧ (processedOrders q' !! oid = None
     ∨ ∃ e, processedOrders q' !! oid = Some e ∧ status e = failed).
Proof.
  intros Ht. unfold isOrderProcessed. rewrite Ht. simpl.
  destruct (processedOrders q !! oid) as [e|] eqn:He.
  - destruct (expired now (config q) e).
    + intros [= <-]. simpl. repeat split; try done.
      left. apply lookup_delete_eq.
    + destruct (status e) eqn:Hs; simpl; intros [= <-]; try done.
      repeat split; try done. right. by exists e.
  - intros [= <-]. repeat split; try done. by left.
Qed.

(** An entry that is absent or failed never makes [isOrderProcessed]
    answer [true], at any time. *)
Lemma isOrderProcessed_not_live now oid q :
  (processedOrders q !! oid = None
   ∨ ∃ e, processedOrders q !! oid = Some e ∧ status e = failed) →
  ∃ q', isOrderProcessed now oid q = (false, q') ∧ queue q' = queue q.
Proof.
  intros H. unfold isOrderProcessed.
  destruct (negb (JS.truthy oid)); [by exists q|].
  destruct H as [-> | (e & -> & Hs)]; [by exists q|].
  destruct (expired now (config q) e); [by eexists|].
  rewrite (not_live_status_bool _ Hs). by exists q.
Qed.

Lemma existsb_orderId_elem oid (l : list QueueItem) :
  oid ∈ (orderId <$> l) → existsb (λ item, String.eqb (orderId item) oid) l = true.
Proof.
  induction l as [|x l IH]; simpl.
  - intros H. by apply elem_of_nil in H.
  - intros [-> | H]%elem_of_cons.
    + by rewrite String.eqb_refl.
    + rewrite (IH H). apply orb_true_r.
Qed.

(** What an accepted [enqueue] leaves behind. *)
Lemma enqueue_queued now data tp sh sys sys' r evs :
  enqueue now data tp sh sys = (sys', r, evs) →
  queued r = true →
  ∃ oid, identity data = Some oid
    ∧ oid ∈ (orderId <$> queue (obj sys'))
    ∧ (processedOrders (obj sys') !! oid = None
       ∨ (∃ e, processedOrders (obj sys') !! oid = Some e ∧ status e = failed)
       ∨ (∃ e, processedOrders (obj sys') !! oid = Some e ∧ status e = processing)).
Proof.
  unfold enqueue, identity.
  destruct (extract_orderId data) as [oid|]; [|by intros [= <- <- <-]].
  destruct (JS.truthy oid) eqn:Ht; simpl; [|by intros [= <- <- <-]].
  destruct (isOrderProcessed now oid _) as [dup q1] eqn:Hdup.
  destruct dup; [by intros [= <- <- <-]|].
  destruct (existsb _ (queue q1)); [by intros [= <- <- <-]|].
  apply isOrderProcessed_false in Hdup as (Hq & Hc & Hs & Hp & Hcache); [|done].
  unfold processQueue. simpl.
  destruct (isProcessing q1) eqn:Hbusy.
  - intros [= <- <- <-] _. exists oid. split; [done|]. simpl. split.
    + rewrite fmap_app. apply elem_of_app. right. simpl. apply list_elem_of_here.
    + destruct Hcache as [H|H]; [by left | right; by left].
  - unfold loop_head. simpl.
    destruct (queue q1) as [|h t] eqn:Hqueue; simpl.
    + intros [= <- <- <-] _. exists oid. split; [done|]. simpl. split.
      * apply list_elem_of_here.
      * right. right. eexists. split; [apply lookup_insert_eq | done].
    + intros [= <- <- <-] _. exists oid. split; [done|]. simpl. split.
      * apply elem_of_cons. right. rewrite fmap_app. apply elem_of_app.
        right. apply list_elem_of_here.
      * destruct (decide (orderId h = oid)) as [-> | Hne].
        -- right. right. eexists. split; [apply lookup_insert_eq | done].
        -- rewrite lookup_insert_ne by done.
           destruct Hcache as [H|H]; [by left | right; by left].
Qed.

(** [enqueue] on an identity with a live entry: the whole answer. *)
Lemma enqueue_on_live_entry now data tp sh sys i e :
  identity data = Some i →
  processedOrders (obj sys) !! i = Some e →
  live_status e →
  now - timestamp e ≤ cacheTTL (config (obj sys)) →
  enqueue now data tp sh sys
  = (mkSystem
       (set_stats (incr_duplicates (incr_total (stats (obj sys)))) (obj sys))
       (consumer sys),
     mkEnqueueResult false (Some "duplicate") (Some i)
       (Some (status_name (status e))) None,
     []).
Proof.
  intros [Hid Ht]%identity_Some He Hl Hage.
  unfold enqueue. rewrite Hid, Ht. simpl.
  rewrite (isOrderProcessed_live now i _ e); try done.
  simpl. by rewrite He.
Qed.

(** C1. For every identity [i]: when the cache holds an entry for [i] that
    is processing or completed and whose age is within the TTL,
    [enqueue] answers [queued = false] with reason [duplicate], and the
    queue is as it was (as are the cache and the consumer). *)
Theorem enqueue_duplicate now data tp sh sys i e :
  identity data = Some i →
  processedOrders (obj sys) !! i = Some e →
  live_status e →
  now - timestamp e ≤ cacheTTL (config (obj sys)) →
  ∃ sys' r,
    enqueue now data tp sh sys = (sys', r, [])
    ∧ queued r = false
    ∧ reason r = Some "duplicate"
    ∧ queue (obj sys') = queue (obj sys)
    ∧ processedOrders (obj sys') = processedOrders (obj sys)
    ∧ consumer sys' = consumer sys.
Proof.
  intros Hid He Hl Hage.
  rewrite (enqueue_on_live_entry now data tp sh sys i e Hid He Hl Hage).
  eexists _, _. split; [reflexivity|]. done.
Qed.

Lemma enqueue_duplicate_witness :
  ∃ sys' r,
    enqueue 1000 (Examples.order 7) "orders/create" "axam" Examples.busy_with_7
    = (sys', r, [])
    ∧ queued r = false
    ∧ reason r = Some "duplicate"
    ∧ queue (obj sys') = queue (obj Examples.busy_with_7)
    ∧ processedOrders (obj sys') = processedOrders (obj Examples.busy_with_7)
    ∧ consumer sys' = consumer Examples.busy_with_7.
Proof.
  apply (enqueue_duplicate 1000 (Examples.order 7) "orders/create" "axam"
           Examples.busy_with_7 "7" (mkEntry 400 processing None None)).
  - reflexivity.
  - vm_compute. reflexivity.
  - left. reflexivity.
  - vm_compute. discriminate.
Defined.

(** C9. A body with neither [id] nor [order_id] is refused with
    [{ queued: false, reason: 'missing_order_id' }]; the queue, the cache,
    every counter of [stats] and the consumer are left as they were. *)
Theorem enqueue_missing_order_id now data tp sh sys :
  id data = JS.undefined →
  order_id data = JS.undefined →
  enqueue now data tp sh sys
  = (sys, mkEnqueueResult false (Some "missing_order_id") None None None, []).
Proof.
  intros Hid Hoid. unfold enqueue, extract_orderId. rewrite Hid, Hoid. reflexivity.
Qed.

Lemma enqueue_missing_order_id_witness :
  enqueue 5 (mkPayload JS.undefined JS.undefined) "orders/create" "axam"
    Examples.busy_with_7
  = (Examples.busy_with_7,
     mkEnqueueResult false (Some "missing_order_id") None None None, []).
Proof.
  apply (enqueue_missing_order_id 5 (mkPayload JS.undefined JS.undefined));
    reflexivity.
Defined.

(** The same holds for every body from which no identity can be read
    ([null] fields, an empty string). *)
Lemma enqueue_no_identity now data tp sh sys :
  identity data = None →
  enqueue now data tp sh sys
  = (sys, mkEnqueueResult false (Some "missing_order_id") None None None, []).
Proof.
  intros [H | (oid & H & Ht)]%identity_None; unfold enqueue; rewrite H; [done|].
  by rewrite Ht.
Qed.

(** [enqueue] of an order that sits in the queue and whose cache entry is
    absent or failed: the order is not queued again. *)
Lemma enqueue_already_queued now data tp sh sys G :
  identity data = Some G →
  G ∈ (orderId <$> queue (obj sys)) →
  (processedOrders (obj sys) !! G = None
   ∨ ∃ e, processedOrders (obj sys) !! G = Some e ∧ status e = failed) →
  ∃ sys' r,
    enqueue now data tp sh sys = (sys', r, [])
    ∧ queued r = false
    ∧ reason r = Some "already_queued"
    ∧ queue (obj sys') = queue (obj sys).
Proof.
  intros [Hid Ht]%identity_Some Hin Hdead.
  unfold enqueue. rewrite Hid, Ht. simpl.
  destruct (isOrderProcessed_not_live now G
              (set_stats (incr_total (stats (obj sys))) (obj sys)) Hdead)
    as (q' & -> & Hq').
  simpl in Hq'. rewrite Hq', (existsb_orderId_elem _ _ Hin).
  eexists _, _. split; [reflexivity|]. simpl. done.
Qed.

(** *** The retry branch *)

Lemma loop_tail_phase now q sys evs :
  loop_tail now q = (sys, evs) → consumer sys = Idle ∨ consumer sys = AwaitMinDelay.
Proof.
  unfold loop_tail, loop_head. destruct (queue q); intros [= <- <-]; simpl; auto.
Qed.

(** The loop takes the retry branch exactly on a retry signal with
    attempts left. *)
Lemma resume_retry now s q item rest :
  queue q = item :: rest →
  retry_signal s = true →
  retryCount item < maxRetries (config q) →
  resume_processWebhook now s q = retry_branch item rest q.
Proof.
  intros Hq Hs Hlt. unfold resume_processWebhook. rewrite Hq.
  apply Z.ltb_lt in Hlt. destruct s as [r | e]; simpl in Hs.
  - apply andb_true_iff in Hs as [Hsucc Hr].
    apply negb_true_iff in Hsucc. by rewrite Hsucc, Hr, Hlt.
  - by rewrite Hs, Hlt.
Qed.

Lemma resume_at_retry_delay now s q sys evs :
  resume_processWebhook now s q = (sys, evs) →
  consumer sys = AwaitRetryDelay →
  ∃ item rest, queue q = item :: rest ∧ retry_branch item rest q = (sys, evs).
Proof.
  unfold resume_processWebhook. destruct (queue q) as [|item rest] eqn:Hq.
  { intros [= <- <-]. simpl. discriminate. }
  intros H Hph. exists item, rest. split; [done|].
  destruct s as [r | e].
  - destruct (success r).
    { apply loop_tail_phase in H as [H | H]; congruence. }
    destruct (retry r && _); [done|].
    apply loop_tail_phase in H as [H | H]; congruence.
  - destruct (isRateLimit e && _); [done|].
    apply loop_tail_phase in H as [H | H]; congruence.
Qed.

(** Neither end of the loop body changes the queue. *)
Lemma loop_head_queue now q : queue (obj (loop_head now q).1) = queue q.
Proof. unfold loop_head. destruct (queue q) eqn:Hq; simpl; by rewrite ?Hq. Qed.

Lemma loop_tail_queue now q : queue (obj (loop_tail now q).1) = queue q.
Proof.
  unfold loop_tail. destruct (queue q) eqn:Hq; [|done].
  by rewrite loop_head_queue.
Qed.

(** The count of retries stays at 0 or above through every input. *)
Lemma react_attempts_counted now i sys :
  attempts_counted sys → attempts_counted (react now i sys).1.
Proof.
  unfold attempts_counted. intros Hc.
  destruct i as [data tp sh | r | | oid |]; simpl; try done.
  - unfold enqueue. destruct (extract_orderId data) as [oid|]; [|done].
    destruct (JS.truthy oid) eqn:Ht; simpl; [|done].
    destruct (isOrderProcessed now oid _) as [dup q1] eqn:Hdup.
    assert (queue q1 = queue (obj sys)) as Hq.
    { revert Hdup. unfold isOrderProcessed. rewrite Ht. simpl.
      destruct (processedOrders (obj sys) !! oid) as [e|]; [|by intros [= _ <-]].
      destruct (expired now _ e); by intros [= _ <-]. }
    destruct dup; [simpl; by rewrite Hq|].
    destruct (existsb _ (queue q1)); [simpl; by rewrite Hq|].
    unfold processQueue. simpl.
    assert (Forall (λ item, 0 ≤ retryCount item)
              (queue q1 ++ [mkItem oid data tp sh now 0])) as Hall.
    { rewrite Hq. apply Forall_app. split; [done|]. by repeat constructor. }
    destruct (isProcessing q1); simpl; [done|].
    pose proof (loop_head_queue now
      (set_isProcessing true (set_queue (queue q1 ++ [mkItem oid data tp sh now 0]) q1)))
      as Hh.
    destruct (loop_head now _) as [sys' evs]. simpl in *. by rewrite Hh.
  - destruct (consumer sys); try done. unfold resume_processWebhook.
    destruct (queue (obj sys)) as [|item rest] eqn:Hq; [simpl; by rewrite Hq|].
    apply Forall_cons in Hc as [Hitem Hrest].
    assert (∀ q', queue q' = rest →
              Forall (λ item, 0 ≤ retryCount item) (queue (obj (loop_tail now q').1)))
      as Htail.
    { intros q' Hq'. by rewrite loop_tail_queue, Hq'. }
    assert (Forall (λ item, 0 ≤ retryCount item)
              (queue (obj (retry_branch item rest (obj sys)).1))) as Hretry.
    { simpl. constructor; [simpl; lia | done]. }
    destruct r as [res | e].
    + destruct (success res); [|destruct (retry res && _)]; try done;
        apply Htail; simpl; by rewrite Hq.
    + destruct (isRateLimit e && _); try done. apply Htail; simpl; by rewrite Hq.
  - destruct (consumer sys); try done.
    + by rewrite loop_tail_queue.
    + by rewrite loop_head_queue.
Qed.

Lemma run_attempts_counted clock k inputs sys :
  attempts_counted sys →
  Forall (λ st, attempts_counted st.1) (run clock k inputs sys).
Proof.
  revert k sys. induction inputs as [|i inputs IH]; intros k sys Hc; simpl.
  - constructor.
  - pose proof (react_attempts_counted (clock k) i sys Hc). constructor; [done|].
    by apply IH.
Qed.

Lemma start_attempts_counted options : attempts_counted (start options).
Proof. constructor. Qed.

(** C2, as the code has it. Whenever the consumer, after the outcome [s]
    of an attempt, goes to sleep before a retry, the attempt count [n] of
    the head item has just been raised, [n >= 1], and the delay is
    [min(base * 2^(n-1), cap)].  The outcome [s] is any settled outcome,
    whatever wait the server suggests in it: the delay does not depend on
    it. *)
Theorem consumer_retry_delay now s sys sys' evs :
  attempts_counted sys →
  consumer sys = AwaitProcessWebhook →
  react now (InSettled s) sys = (sys', evs) →
  consumer sys' = AwaitRetryDelay →
  ∃ item rest n,
    1 ≤ n
    ∧ queue (obj sys) = item :: rest
    ∧ n = retryCount item + 1
    ∧ queue (obj sys') = with_retryCount n item :: rest
    ∧ evs = [Sleep (Z.min (baseRetryDelay (config (obj sys)) * 2 ^ (n - 1))
                          (maxRetryDelay (config (obj sys))))].
Proof.
  intros Hc Hph H Hph'. unfold react in H. rewrite Hph in H.
  destruct (resume_at_retry_delay _ _ _ _ _ H Hph') as (item & rest & Hq & Hr).
  exists item, rest, (retryCount item + 1).
  unfold attempts_counted in Hc. rewrite Hq in Hc.
  apply Forall_cons in Hc as [Hitem _].
  split; [lia|]. split; [done|]. split; [done|].
  unfold retry_branch in Hr. injection Hr as <- <-. simpl. done.
Qed.

(** The state at the retry sleep: the cache entry of the item is gone and
    the item is still at the head of the queue. *)
Lemma retry_branch_state item rest q sys evs :
  retry_branch item rest q = (sys, evs) →
  processedOrders (obj sys) !! orderId item = None
  ∧ queue (obj sys) = with_retryCount (retryCount item + 1) item :: rest
  ∧ retries (stats (obj sys)) = retries (stats q) + 1
  ∧ config (obj sys) = config q
  ∧ isProcessing (obj sys) = isProcessing q
  ∧ consumer sys = AwaitRetryDelay
  ∧ evs = [Sleep (retryDelay (config q) (retryCount item + 1))].
Proof.
  unfold retry_branch. intros [= <- <-]. simpl.
  split; [apply lookup_delete_eq | done].
Qed.

(** *** The scenario of one event retried until it succeeds *)

Lemma scenario_start now options data tp sh E :
  identity data = Some E →
  ∃ sys evs,
    react now (InEnqueue data tp sh) (start options) = (sys, evs)
    ∧ alone_in_queue (config (new options)) (mkItem E data tp sh now 0) 0
        AwaitProcessWebhook sys.
Proof.
  intros [Hid Ht]%identity_Some. unfold react, enqueue.
  rewrite Hid, Ht. simpl. unfold isOrderProcessed. rewrite Ht. simpl.
  rewrite lookup_empty. simpl. eexists _, _. split; [reflexivity|].
  repeat split.
Qed.

Lemma scenario_retry now cfg item k s sys :
  alone_in_queue cfg item k AwaitProcessWebhook sys →
  retry_signal s = true →
  k < maxRetries cfg →
  ∃ sys',
    react now (InSettled s) sys = (sys', [Sleep (retryDelay cfg (k + 1))])
    ∧ alone_in_queue cfg item (k + 1) AwaitRetryDelay sys'
    ∧ processedOrders (obj sys') !! orderId item = None.
Proof.
  intros (Hq & Hp & Hc & Hr & Hph) Hs Hlt. unfold react. rewrite Hph.
  rewrite (resume_retry now s (obj sys) _ [] Hq Hs); [|by rewrite Hc].
  destruct (retry_branch (with_retryCount k item) [] (obj sys)) as [sys' evs] eqn:Hb.
  apply retry_branch_state in Hb as (Hcache & Hq' & Hr' & Hc' & Hp' & Hph' & ->).
  simpl in *. exists sys'. rewrite Hc. split; [done|]. split; [|done].
  repeat split; try done; congruence.
Qed.

Lemma scenario_timer_retry now cfg item k sys :
  alone_in_queue cfg item k AwaitRetryDelay sys →
  ∃ sys',
    react now InTimer sys = (sys', [Sleep (minRequestDelay cfg)])
    ∧ alone_in_queue cfg item k AwaitMinDelay sys'.
Proof.
  intros (Hq & Hp & Hc & Hr & Hph). unfold react. rewrite Hph.
  unfold loop_tail. rewrite Hq. eexists. rewrite Hc. split; [reflexivity|].
  repeat split; done.
Qed.

Lemma scenario_timer_min now cfg item k sys :
  alone_in_queue cfg item k AwaitMinDelay sys →
  ∃ sys',
    react now InTimer sys = (sys', [CallProcessWebhook (with_retryCount k item)])
    ∧ alone_in_queue cfg item k AwaitProcessWebhook sys'.
Proof.
  intros (Hq & Hp & Hc & Hr & Hph). unfold react. rewrite Hph.
  unfold loop_head. rewrite Hq. eexists. split; [reflexivity|].
  repeat split; done.
Qed.

Lemma scenario_success now cfg item k s sys :
  alone_in_queue cfg item k AwaitProcessWebhook sys →
  success_signal s = true →
  ∃ sys',
    react now (InSettled s) sys = (sys', [])
    ∧ consumer sys' = Idle
    ∧ isProcessing (obj sys') = false
    ∧ queue (obj sys') = []
    ∧ status <$> processedOrders (obj sys') !! orderId item = Some completed
    ∧ retries (stats (obj sys')) = k.
Proof.
  intros (Hq & Hp & Hc & Hr & Hph) Hs. unfold react. rewrite Hph.
  destruct s as [r | e]; [|done]. simpl in Hs.
  unfold resume_processWebhook. rewrite Hq, Hs.
  unfold loop_tail, shift, markAsCompleted. simpl. rewrite Hq. simpl.
  eexists. split; [reflexivity|]. simpl. rewrite lookup_insert_eq. done.
Qed.

(** C7. One event [E] on a fresh queue with [maxRetries = 5], whose
    processor gives a retry signal on attempts 1, 2 and 3 and succeeds on
    attempt 4.  The consumer ends idle with an empty queue, the cache entry
    of [E] completed and [stats.retries = 3].  It sleeps before a retry
    three times, for [min(base * 2^(n-1), cap)] with [n = 1, 2, 3]; each
    time the cache entry of [E] has been deleted and [E] is still in the
    queue. *)
Theorem retry_then_success clock options data tp sh E s1 s2 s3 s4 :
  maxRetries (config (new options)) = 5 →
  identity data = Some E →
  retry_signal s1 = true →
  retry_signal s2 = true →
  retry_signal s3 = true →
  success_signal s4 = true →
  retried_three_times (config (new options)) E
    (run clock 0 (four_attempts data tp sh s1 s2 s3 s4) (start options)).
Proof.
  intros Hmax Hid Hs1 Hs2 Hs3 Hs4. unfold retried_three_times.
  set (cfg := config (new options)).
  set (trace := run clock 0 _ _).
  set (item := mkItem E data tp sh (clock 0%nat) 0).
  destruct (scenario_start (clock 0%nat) options data tp sh E Hid)
    as (a0 & e0 & R0 & I0). fold cfg item in I0.
  destruct (scenario_retry (clock 1%nat) cfg item 0 s1 a0 I0 Hs1)
    as (a1 & R1 & I1 & C1); [unfold cfg; lia|].
  destruct (scenario_timer_retry (clock 2%nat) cfg item _ a1 I1) as (a2 & R2 & I2).
  destruct (scenario_timer_min (clock 3%nat) cfg item _ a2 I2) as (a3 & R3 & I3).
  destruct (scenario_retry (clock 4%nat) cfg item _ s2 a3 I3 Hs2)
    as (a4 & R4 & I4 & C4); [unfold cfg; lia|].
  destruct (scenario_timer_retry (clock 5%nat) cfg item _ a4 I4) as (a5 & R5 & I5).
  destruct (scenario_timer_min (clock 6%nat) cfg item _ a5 I5) as (a6 & R6 & I6).
  destruct (scenario_retry (clock 7%nat) cfg item _ s3 a6 I6 Hs3)
    as (a7 & R7 & I7 & C7); [unfold cfg; lia|].
  destruct (scenario_timer_retry (clock 8%nat) cfg item _ a7 I7) as (a8 & R8 & I8).
  destruct (scenario_timer_min (clock 9%nat) cfg item _ a8 I8) as (a9 & R9 & I9).
  destruct (scenario_success (clock 10%nat) cfg item _ s4 a9 I9 Hs4)
    as (a10 & R10 & Hidle & Hproc & Hqueue & Hdone & Hretries).
  assert (trace =
    [(a0, e0); (a1, [Sleep (retryDelay cfg (0 + 1))]);
     (a2, [Sleep (minRequestDelay cfg)]);
     (a3, [CallProcessWebhook (with_retryCount (0 + 1) item)]);
     (a4, [Sleep (retryDelay cfg (0 + 1 + 1))]);
     (a5, [Sleep (minRequestDelay cfg)]);
     (a6, [CallProcessWebhook (with_retryCount (0 + 1 + 1) item)]);
     (a7, [Sleep (retryDelay cfg (0 + 1 + 1 + 1))]);
     (a8, [Sleep (minRequestDelay cfg)]);
     (a9, [CallProcessWebhook (with_retryCount (0 + 1 + 1 + 1) item)]);
     (a10, [])]) as ->.
  { unfold trace, four_attempts. cbn [run].
    rewrite R0. cbn [fst]. rewrite R1. cbn [fst]. rewrite R2. cbn [fst].
    rewrite R3. cbn [fst]. rewrite R4. cbn [fst]. rewrite R5. cbn [fst].
    rewrite R6. cbn [fst]. rewrite R7. cbn [fst]. rewrite R8. cbn [fst].
    rewrite R9. cbn [fst]. rewrite R10. reflexivity. }
  pose proof I0 as (_ & _ & _ & _ & P0).
  pose proof I1 as (Q1 & _ & _ & _ & P1). pose proof I2 as (_ & _ & _ & _ & P2).
  pose proof I3 as (_ & _ & _ & _ & P3).
  pose proof I4 as (Q4 & _ & _ & _ & P4). pose proof I5 as (_ & _ & _ & _ & P5).
  pose proof I6 as (_ & _ & _ & _ & P6).
  pose proof I7 as (Q7 & _ & _ & _ & P7). pose proof I8 as (_ & _ & _ & _ & P8).
  pose proof I9 as (_ & _ & _ & _ & P9).
  assert (retry_sleeps
    [(a0, e0); (a1, [Sleep (retryDelay cfg (0 + 1))]);
     (a2, [Sleep (minRequestDelay cfg)]);
     (a3, [CallProcessWebhook (with_retryCount (0 + 1) item)]);
     (a4, [Sleep (retryDelay cfg (0 + 1 + 1))]);
     (a5, [Sleep (minRequestDelay cfg)]);
     (a6, [CallProcessWebhook (with_retryCount (0 + 1 + 1) item)]);
     (a7, [Sleep (retryDelay cfg (0 + 1 + 1 + 1))]);
     (a8, [Sleep (minRequestDelay cfg)]);
     (a9, [CallProcessWebhook (with_retryCount (0 + 1 + 1 + 1) item)]);
     (a10, [])]
    = [(a1, [Sleep (retryDelay cfg 1)]); (a4, [Sleep (retryDelay cfg 2)]);
       (a7, [Sleep (retryDelay cfg 3)])]) as ->.
  { unfold retry_sleeps. cbn [filter list_filter fst].
    rewrite P0, P1, P2, P3, P4, P5, P6, P7, P8, P9, Hidle. reflexivity. }
  split; [|split].
  - exists a10, []. split; [reflexivity|]. simpl in Hdone. done.
  - reflexivity.
  - simpl in C1, C4, C7.
    repeat constructor; simpl; try done.
    + rewrite Q1. simpl. apply list_elem_of_here.
    + rewrite Q4. simpl. apply list_elem_of_here.
    + rewrite Q7. simpl. apply list_elem_of_here.
Qed.

Lemma retry_then_success_witness :
  retried_three_times (config (new Examples.default_options)) "9"
    (run Examples.every_second 0
       (four_attempts (Examples.order 9) "orders/create" "axam"
          (setProcessor (Throws Examples.http_429))
          (setProcessor Examples.asks_retry)
          (Rejected Examples.http_429)
          (setProcessor Examples.done_ok))
       (start Examples.default_options)).
Proof.
  apply (retry_then_success Examples.every_second Examples.default_options
           (Examples.order 9) "orders/create" "axam" "9"); reflexivity.
Defined.

(** C2, the counterexample. The processor throws a 429 whose Retry-After
    asks for 600 seconds; the consumer, at attempt 1 with the default
    configuration, sleeps 5000 ms, not the 600000 ms that the words of the
    specification give. *)
Lemma consumer_ignores_suggested_wait :
  let cfg := config (obj Examples.busy_with_7) in
  let outcome := setProcessor (Throws Examples.http_429) in
  retry_signal outcome = true
  ∧ (react 1000 (InSettled outcome) Examples.busy_with_7).2 = [Sleep 5000]
  ∧ spec_retry_delay cfg 1 (Some (600 * 1000)) = 600000
  ∧ (react 1000 (InSettled outcome) Examples.busy_with_7).2
    ≠ [Sleep (spec_retry_delay cfg 1 (Some (600 * 1000)))].
Proof. vm_compute. repeat split; discriminate. Qed.

Lemma consumer_retry_delay_witness :
  ∃ item rest n,
    1 ≤ n
    ∧ queue (obj Examples.busy_with_7) = item :: rest
    ∧ n = retryCount item + 1
    ∧ queue (obj (react 1000 (InSettled (Rejected Examples.http_429))
                    Examples.busy_with_7).1)
      = with_retryCount n item :: rest
    ∧ (react 1000 (InSettled (Rejected Examples.http_429)) Examples.busy_with_7).2
      = [Sleep (Z.min (baseRetryDelay (config (obj Examples.busy_with_7)) * 2 ^ (n - 1))
                      (maxRetryDelay (config (obj Examples.busy_with_7))))].
Proof.
  apply (consumer_retry_delay 1000 (Rejected Examples.http_429) Examples.busy_with_7
           (react 1000 (InSettled (Rejected Examples.http_429)) Examples.busy_with_7).1).
  - repeat constructor. vm_compute. discriminate.
  - reflexivity.
  - reflexivity.
  - reflexivity.
Defined.

(** *** The states of a run *)

Lemma existsb_orderId_false oid (l : list QueueItem) :
  existsb (λ item, String.eqb (orderId item) oid) l = false →
  oid ∉ (orderId <$> l).
Proof.
  intros H Hin. apply existsb_orderId_elem in Hin. congruence.
Qed.

Lemma loop_tail_consistent now q :
  isProcessing q = true →
  NoDup (orderId <$> queue q) →
  consistent (loop_tail now q).1.
Proof.
  intros Hp Hnd. unfold loop_tail, loop_head.
  destruct (queue q) as [|h t] eqn:Hq; unfold consistent; simpl;
    rewrite ?Hq; simpl; done.
Qed.

Lemma enqueue_consistent now data tp sh sys :
  consistent sys → consistent (enqueue now data tp sh sys).1.1.
Proof.
  intros Hc. unfold enqueue.
  destruct (extract_orderId data) as [oid|]; [|done].
  destruct (JS.truthy oid) eqn:Ht; simpl; [|done].
  destruct (isOrderProcessed now oid _) as [dup q1] eqn:Hdup.
  assert (queue q1 = queue (obj sys) ∧ isProcessing q1 = isProcessing (obj sys))
    as [Hq Hp].
  { revert Hdup. unfold isOrderProcessed. rewrite Ht. simpl.
    destruct (processedOrders (obj sys) !! oid) as [e|]; [|by intros [= _ <-]].
    destruct (expired now _ e); by intros [= _ <-]. }
  destruct Hc as [Hc Hnd].
  destruct dup.
  { split; simpl; rewrite ?Hq, ?Hp; done. }
  destruct (existsb _ (queue q1)) eqn:Hex.
  { split; simpl; rewrite ?Hq, ?Hp; done. }
  apply existsb_orderId_false in Hex. rewrite Hq in Hex.
  assert (NoDup (orderId <$> queue (obj sys) ++ [mkItem oid data tp sh now 0]))
    as Hnd'.
  { rewrite fmap_app. apply NoDup_app. split; [done|]. split.
    - intros x Hx [->|H]%elem_of_cons; [done | by apply elem_of_nil in H].
    - apply NoDup_singleton. }
  unfold processQueue. simpl. rewrite Hp, Hq.
  destruct (consumer sys) eqn:Hph; destruct Hc as [Hproc Hqueue]; rewrite Hproc.
  - unfold loop_head. simpl. rewrite Hqueue. simpl.
    unfold consistent. simpl. split; [done|]. apply NoDup_singleton.
  - unfold consistent. simpl. split; [|done]. split; [congruence|].
    by destruct (queue (obj sys)).
  - unfold consistent. simpl. split; [|done]. split; [congruence|].
    by destruct (queue (obj sys)).
  - unfold consistent. simpl. split; [|done]. split; [congruence|].
    by destruct (queue (obj sys)).
Qed.

Lemma retry_branch_consistent item rest q :
  isProcessing q = true →
  NoDup (orderId <$> item :: rest) →
  consistent (retry_branch item rest q).1.
Proof. intros Hp Hnd. unfold retry_branch. split; simpl; done. Qed.

Lemma resume_consistent now r q :
  isProcessing q = true →
  queue q ≠ [] →
  NoDup (orderId <$> queue q) →
  consistent (resume_processWebhook now r q).1.
Proof.
  intros Hp Hne Hnd. unfold resume_processWebhook.
  destruct (queue q) as [|item rest] eqn:Hq; [done|].
  assert (NoDup (orderId <$> rest)) as Hrest by by apply NoDup_cons in Hnd as [_ ?].
  destruct r as [res | e].
  - destruct (success res); [|destruct (retry res && _)].
    + apply loop_tail_consistent; simpl; by rewrite ?Hq.
    + by apply retry_branch_consistent.
    + apply loop_tail_consistent; simpl; by rewrite ?Hq.
  - destruct (isRateLimit e && _).
    + by apply retry_branch_consistent.
    + apply loop_tail_consistent; simpl; by rewrite ?Hq.
Qed.

(** Every input keeps the state consistent. *)
Lemma react_consistent now i sys :
  consistent sys → consistent (react now i sys).1.
Proof.
  intros Hc. destruct i as [data tp sh | r | | oid |]; simpl.
  - pose proof (enqueue_consistent now data tp sh sys Hc).
    by destruct (enqueue now data tp sh sys) as [[? ?] ?].
  - destruct (consumer sys) eqn:Hph; try done.
    destruct Hc as [Hc Hnd]. rewrite Hph in Hc. destruct Hc.
    by apply resume_consistent.
  - destruct (consumer sys) eqn:Hph; try done;
      destruct Hc as [Hc Hnd]; rewrite Hph in Hc; destruct Hc as [Hp Hq].
    + by apply loop_tail_consistent.
    + unfold loop_head. destruct (queue (obj sys)) as [|h t] eqn:Hqueue; [done|].
      split; simpl; rewrite ?Hqueue; done.
  - done.
  - done.
Qed.

(** Every state of a run that starts consistent is consistent; so is
    every state of a run from a new queue. *)
Lemma run_consistent clock k inputs sys :
  consistent sys → Forall (λ st, consistent st.1) (run clock k inputs sys).
Proof.
  revert k sys. induction inputs as [|i inputs IH]; intros k sys Hc; simpl.
  - constructor.
  - pose proof (react_consistent (clock k) i sys Hc). constructor; [done|].
    by apply IH.
Qed.

Lemma start_consistent options : consistent (start options).
Proof. split; simpl; [done | constructor]. Qed.

(** On an idle queue the call that accepts an event itself starts the
    consumer on it, so a second call within the TTL is a [duplicate]. *)
Lemma enqueue_idle_then_duplicate t1 t2 sys d1 d2 tp1 sh1 tp2 sh2 G :
  consistent sys →
  consumer sys = Idle →
  identity d1 = Some G →
  identity d2 = Some G →
  queued (enqueue t1 d1 tp1 sh1 sys).1.2 = true →
  t2 - t1 ≤ cacheTTL (config (obj sys)) →
  let sys1 := (enqueue t1 d1 tp1 sh1 sys).1.1 in
  consumer sys1 = AwaitProcessWebhook
  ∧ reason (enqueue t2 d2 tp2 sh2 sys1).1.2 = Some "duplicate".
Proof.
  intros [Hc _] Hidle Hid1 Hid2 Hq Hage. rewrite Hidle in Hc.
  destruct Hc as [Hproc Hqueue].
  pose proof Hid1 as [He1 Ht]%identity_Some.
  destruct (enqueue t1 d1 tp1 sh1 sys) as [[sys1 r1] evs1] eqn:Henq. simpl in *.
  assert (consumer sys1 = AwaitProcessWebhook
          ∧ processedOrders (obj sys1) !! G = Some (mkEntry t1 processing None None)
          ∧ config (obj sys1) = config (obj sys)) as (Hph & Hcache & Hcfg).
  { revert Henq. unfold enqueue. rewrite He1, Ht. simpl.
    destruct (isOrderProcessed t1 G _) as [dup q1] eqn:Hdup.
    destruct dup; [intros [= <- <- <-]; done|].
    apply isOrderProcessed_false in Hdup as (Hq1 & Hc1 & _ & Hp1 & _); [|done].
    simpl in Hq1, Hc1, Hp1. rewrite Hq1, Hqueue. simpl.
    unfold processQueue. simpl. rewrite Hp1, Hproc. simpl.
    intros [= <- _ _]. simpl. split; [done|]. split; [apply lookup_insert_eq|done]. }
  split; [done|].
  rewrite (enqueue_on_live_entry t2 d2 tp2 sh2 sys1 G _ Hid2 Hcache);
    [done | by left |].
  simpl. by rewrite Hcfg.
Qed.

End WebhookQueueProofs.

(** * Properties of the stock synchroniser *)

Module SyncStocksProofs.
Import SyncStocks.

(** *** Asynchronous code: sequencing, returning, results, events *)

Section Async.
Context {W : Type}.

Lemma bind_unfold {A B} (m : M W A) (k : A → M W B) w :
  (m ≫= k) w
  = match m w with
    | None => None
    | Some (a, w1, l1) =>
        match k a w1 with
        | None => None
        | Some (b, w2, l2) => Some (b, w2, l1 ++ l2)
        end
    end.
Proof. reflexivity. Qed.

Lemma bind_Some {A B} (m : M W A) (k : A → M W B) w b w2 l :
  (m ≫= k) w = Some (b, w2, l) →
  ∃ a w1 l1 l2,
    m w = Some (a, w1, l1) ∧ k a w1 = Some (b, w2, l2) ∧ l = l1 ++ l2.
Proof.
  rewrite bind_unfold. destruct (m w) as [[[a w1] l1]|]; [|done].
  destruct (k a w1) as [[[b' w2'] l2]|] eqn:Hk; [|done].
  intros [= <- <- <-]. by exists a, w1, l1, l2.
Qed.

Lemma ret_Some {A} (a b : A) (w w' : W) l :
  (mret a : M W A) w = Some (b, w', l) → b = a ∧ w' = w ∧ l = [].
Proof. by intros [= <- <- <-]. Qed.

Lemma returns_ret {A} (a : A) : returns (mret a : M W A).
Proof. intros w. by eexists. Qed.

Lemma returns_call {A} (f : W → A * W) : returns (call f).
Proof. intros w. by eexists. Qed.

Lemma returns_emit ev : returns (emit ev : M W ()).
Proof. intros w. by eexists. Qed.

Lemma returns_bind {A B} (m : M W A) (k : A → M W B) :
  returns m → (∀ a, returns (k a)) → returns (m ≫= k).
Proof.
  intros Hm Hk w. rewrite bind_unfold.
  destruct (Hm w) as [[[a w1] l1] ->].
  destruct (Hk a w1) as [[[b w2] l2] ->]. by eexists.
Qed.

Lemma chunks_of_app l1 l2 : chunks_of (l1 ++ l2) = chunks_of l1 ++ chunks_of l2.
Proof. apply omap_app. Qed.

Lemma quiet_ret {A} (a : A) : quiet (mret a : M W A).
Proof. by intros w b w' l [= _ _ <-]. Qed.

Lemma quiet_call {A} (f : W → A * W) : quiet (call f).
Proof. by intros w b w' l [= _ <-]. Qed.

Lemma quiet_sleep ms : quiet (sleep ms : M W ()).
Proof. by intros w b w' l [= _ _ <-]. Qed.

Lemma quiet_wrote inv loc quantity : quiet (emit (Wrote inv loc quantity) : M W ()).
Proof. by intros w b w' l [= _ _ <-]. Qed.

Lemma quiet_diverge {A} : quiet (diverge : M W A).
Proof. by intros w b w' l. Qed.

Lemma quiet_bind {A B} (m : M W A) (k : A → M W B) :
  quiet m → (∀ a, quiet (k a)) → quiet (m ≫= k).
Proof.
  intros Hm Hk w b w2 l (a & w1 & l1 & l2 & H1 & H2 & ->)%bind_Some.
  rewrite chunks_of_app, (Hm _ _ _ _ H1), (Hk _ _ _ _ _ H2). done.
Qed.

Lemma gives_ret {A} (P : A → Prop) (a : A) : P a → gives P (mret a : M W A).
Proof. by intros Ha w b w' l [= <- _ _]. Qed.

Lemma gives_diverge {A} (P : A → Prop) : gives P (diverge : M W A).
Proof. by intros w b w' l. Qed.

Lemma gives_bind {A B} (P : B → Prop) (m : M W A) (k : A → M W B) :
  (∀ a, gives P (k a)) → gives P (m ≫= k).
Proof.
  intros Hk w b w2 l (a & w1 & l1 & l2 & H1 & H2 & ->)%bind_Some.
  by apply (Hk _ _ _ _ _ H2).
Qed.

End Async.

Create HintDb async.

#[local] Hint Resolve returns_ret returns_call returns_emit
  quiet_ret quiet_call quiet_sleep quiet_wrote quiet_diverge
  gives_diverge : async.

(** Takes a goal about a sequence of steps apart, step by step. *)
Ltac async_step :=
  first
    [ solve [eauto with async]
    | apply returns_bind; [|intros ?]
    | apply quiet_bind; [|intros ?]
    | apply gives_bind; intros ?
    | apply gives_ret
    | case_match ].

Ltac async := repeat async_step.

(** *** The worker: it returns, cuts no chunks, and counts its successes *)

Section Worker.
Context {W : Type} (R : Remote W).

Lemma getManagerProductBySKU_from_returns left sku attempt :
  3 - attempt ≤ Z.of_nat left →
  returns (getManagerProductBySKU_from R left sku attempt).
Proof.
  revert attempt. induction left as [|left IH]; intros attempt Hle; simpl.
  - async. match goal with H : (_ <? 3) = true |- _ => apply Z.ltb_lt in H end. lia.
  - async. apply IH. lia.
Qed.

Lemma getManagerProductBySKU_returns sku : returns (getManagerProductBySKU R sku).
Proof. apply getManagerProductBySKU_from_returns. simpl. lia. Qed.

Lemma getManagerProductBySKU_from_quiet left sku attempt :
  quiet (getManagerProductBySKU_from R left sku attempt).
Proof.
  revert attempt. induction left as [|left IH]; intros attempt; simpl; async.
Qed.

Lemma getManagerProductBySKU_quiet sku : quiet (getManagerProductBySKU R sku).
Proof. apply getManagerProductBySKU_from_quiet. Qed.

#[local] Hint Resolve getManagerProductBySKU_returns getManagerProductBySKU_quiet
  : async.

Lemma lookupManagerProduct_returns sku m : returns (lookupManagerProduct R sku m).
Proof. unfold lookupManagerProduct. async. Qed.

Lemma lookupManagerProduct_quiet sku m : quiet (lookupManagerProduct R sku m).
Proof. unfold lookupManagerProduct. async. Qed.

Lemma writeStock_returns sku loc sp mStock sStock :
  returns (writeStock R sku loc sp mStock sStock).
Proof. unfold writeStock, updateShopifyStock. async. Qed.

Lemma writeStock_quiet sku loc sp mStock sStock :
  quiet (writeStock R sku loc sp mStock sStock).
Proof. unfold writeStock, updateShopifyStock. async. Qed.

#[local] Hint Resolve lookupManagerProduct_returns lookupManagerProduct_quiet
  writeStock_returns writeStock_quiet : async.

Lemma syncProductStock_returns sku options shopMap loc mgrMap :
  returns (syncProductStock R sku options shopMap loc mgrMap).
Proof. unfold syncProductStock, getShopifyProductStockBySKU. async. Qed.

Lemma syncProductStock_quiet sku options shopMap loc mgrMap :
  quiet (syncProductStock R sku options shopMap loc mgrMap).
Proof. unfold syncProductStock, getShopifyProductStockBySKU. async. Qed.

Lemma success_is_counted_failure sku a e m s n :
  success_is_counted (mkSyncResult sku false a e m s n).
Proof. intros H. discriminate. Qed.

Lemma syncProductStock_counted sku options shopMap loc mgrMap :
  gives success_is_counted (syncProductStock R sku options shopMap loc mgrMap).
Proof.
  unfold syncProductStock, writeStock, error_result, skipped_result. async;
    try apply success_is_counted_failure; intros _; simpl; auto.
Qed.

Lemma syncProductStock_sku sku options shopMap loc mgrMap :
  gives (λ r, SyncStocks.sku r = sku)
    (syncProductStock R sku options shopMap loc mgrMap).
Proof.
  unfold syncProductStock, writeStock, error_result, skipped_result. async; done.
Qed.

End Worker.

(** *** The adjustment of the concurrency *)

Lemma countRateLimit_nonneg rs : 0 ≤ countRateLimit rs.
Proof. unfold countRateLimit. lia. Qed.

Lemma has_rate_limit_count rs : has_rate_limit rs ↔ 0 < countRateLimit rs.
Proof.
  unfold has_rate_limit, countRateLimit. induction rs as [|r rs IH].
  - split; [by intros H%Exists_nil | simpl; lia].
  - rewrite Exists_cons, filter_cons. destruct (decide (isRateLimitResult r = true)).
    + simpl. split; [lia | by left].
    + split; [intros [?|?]; [done | by apply IH] | intros ?; right; by apply IH].
Qed.

Lemma adjustConcurrency_le c n : adjustConcurrency c n ≤ c.
Proof.
  unfold adjustConcurrency. destruct (0 <? n); [|lia].
  destruct (Z.max 1 (c / 2) <? c) eqn:H; [apply Z.ltb_lt in H|]; lia.
Qed.

Lemma adjustConcurrency_ge_1 c n : 1 ≤ c → 1 ≤ adjustConcurrency c n.
Proof.
  intros Hc. unfold adjustConcurrency. destruct (0 <? n); [|lia].
  destruct (Z.max 1 (c / 2) <? c); lia.
Qed.

(** On a rate limit the concurrency becomes [max(1, floor(c / 2))]. *)
Lemma adjustConcurrency_rate_limited c n :
  1 ≤ c → 0 < n → adjustConcurrency c n = Z.max 1 (c / 2).
Proof.
  intros Hc Hn. unfold adjustConcurrency.
  apply Z.ltb_lt in Hn as ->.
  destruct (Z.max 1 (c / 2) <? c) eqn:H; [done|].
  apply Z.ltb_ge in H.
  assert (c / 2 < c) by (apply Z.div_lt; lia). lia.
Qed.

(** Without a rate limit the concurrency stays as it is. *)
Lemma adjustConcurrency_clean c n : n ≤ 0 → adjustConcurrency c n = c.
Proof.
  intros Hn. unfold adjustConcurrency.
  destruct (0 <? n) eqn:H; [apply Z.ltb_lt in H; lia | done].
Qed.

(** *** One pass of [processInParallel] *)

Section Pass.
Context {W : Type} (processor : string → M W SyncResult).

Lemma promise_all_returns chunk :
  (∀ x, returns (processor x)) → returns (promise_all processor chunk).
Proof. intros Hp. induction chunk; simpl; async. Qed.

Lemma promise_all_quiet chunk :
  (∀ x, quiet (processor x)) → quiet (promise_all processor chunk).
Proof. intros Hp. induction chunk; simpl; async. Qed.

Lemma promise_all_gives (P : SyncResult → Prop) chunk :
  (∀ x, gives P (processor x)) → gives (Forall P) (promise_all processor chunk).
Proof.
  intros Hp. induction chunk as [|x chunk IH]; simpl.
  - by apply gives_ret.
  - intros w rs w' l (r & w1 & l1 & l2 & H1 & H2 & ->)%bind_Some.
    apply bind_Some in H2 as (rs' & w2 & l3 & l4 & H3 & [= <- <- <-] & ->).
    constructor; [by eapply Hp | by eapply IH].
Qed.

Lemma loop_returns fuel array i c rl results :
  (∀ x, returns (processor x)) →
  1 ≤ c →
  Z.of_nat (length array) - i ≤ Z.of_nat fuel →
  returns (processInParallel_loop fuel array processor i c rl results).
Proof.
  intros Hp. revert i c rl results.
  induction fuel as [|fuel IH]; intros i c rl results Hc Hfuel; simpl.
  - destruct (i <? Z.of_nat (length array)) eqn:Hi; [|async].
    apply Z.ltb_lt in Hi. lia.
  - destruct (i <? Z.of_nat (length array)) eqn:Hi; [|async].
    apply returns_bind; [by apply promise_all_returns|]. intros rs.
    apply returns_bind; [async|]. intros _.
    apply returns_bind; [async|]. intros _.
    pose proof (adjustConcurrency_ge_1 c (countRateLimit rs) Hc).
    apply IH; lia.
Qed.

Lemma loop_gives (P : SyncResult → Prop) fuel array i c rl results :
  (∀ x, gives P (processor x)) →
  Forall P results →
  gives (Forall P) (processInParallel_loop fuel array processor i c rl results).
Proof.
  intros Hp. revert i c rl results.
  induction fuel as [|fuel IH]; intros i c rl results Hres; simpl.
  - destruct (i <? Z.of_nat (length array)); [async | by apply gives_ret].
  - destruct (i <? Z.of_nat (length array)); [|by apply gives_ret].
    intros w res w' l (rs & w1 & l1 & l2 & H1 & H2 & ->)%bind_Some.
    apply bind_Some in H2 as (? & w2 & l3 & l4 & _ & H2 & ->).
    apply bind_Some in H2 as (? & w3 & l5 & l6 & _ & H2 & ->).
    eapply IH; [|exact H2]. apply Forall_app. split; [done|].
    by eapply promise_all_gives.
Qed.

(** The chunks of a pass follow each other from the concurrency the pass
    is called with. *)
Lemma loop_chained fuel array i c rl results w res w' log :
  (∀ x, quiet (processor x)) →
  processInParallel_loop fuel array processor i c rl results w = Some (res, w', log) →
  chained c (chunks_of log).
Proof.
  intros Hp. revert i c rl results w log.
  induction fuel as [|fuel IH]; intros i c rl results w log; simpl.
  - destruct (i <? Z.of_nat (length array)); [done|]. by intros [= _ _ <-].
  - destruct (i <? Z.of_nat (length array)); [|by intros [= _ _ <-]].
    intros (rs & w1 & l1 & l2 & H1 & H2 & ->)%bind_Some.
    apply bind_Some in H2 as (? & w2 & l3 & l4 & H3 & H2 & ->).
    apply bind_Some in H2 as (? & w3 & l5 & l6 & H4 & H2 & ->).
    injection H3 as _ _ <-.
    assert (chunks_of l5 = []) as Hl5.
    { destruct (0 <? countRateLimit rs); by injection H4 as _ _ <-. }
    rewrite !chunks_of_app, (promise_all_quiet _ Hp _ _ _ _ H1), Hl5. simpl.
    split; [done|]. split; [done|]. by eapply IH.
Qed.

Lemma adjustConcurrency_below_1 c n : c ≤ 0 → adjustConcurrency c n = c.
Proof.
  intros Hc. unfold adjustConcurrency. destruct (0 <? n); [|done].
  destruct (Z.max 1 (c / 2) <? c) eqn:H; [|done]. apply Z.ltb_lt in H. lia.
Qed.

(** With a concurrency below 1 the index never moves forward: the loop
    does not return, whatever the fuel. *)
Lemma loop_never_returns fuel array i c rl results w :
  c ≤ 0 →
  i < Z.of_nat (length array) →
  processInParallel_loop fuel array processor i c rl results w = None.
Proof.
  intros Hc. revert i rl results w.
  induction fuel as [|fuel IH]; intros i rl results w Hi; simpl;
    pose proof Hi as ->%Z.ltb_lt; [done|].
  rewrite bind_unfold.
  destruct (promise_all processor _ w) as [[[rs w1] l1]|]; [|done].
  rewrite bind_unfold. cbn. rewrite bind_unfold.
  rewrite (adjustConcurrency_below_1 c _ Hc).
  destruct (0 <? countRateLimit rs); cbn; rewrite IH by lia; done.
Qed.

(** A loop that returns with some fuel returns the same with more. *)
Lemma loop_more_fuel fuel fuel' array i c rl results w out :
  (fuel ≤ fuel')%nat →
  processInParallel_loop fuel array processor i c rl results w = Some out →
  processInParallel_loop fuel' array processor i c rl results w = Some out.
Proof.
  revert fuel' i c rl results w out.
  induction fuel as [|fuel IH]; intros fuel' i c rl results w out Hle; simpl.
  - destruct (i <? Z.of_nat (length array)) eqn:Hi; [done|].
    intros <-. destruct fuel'; simpl; by rewrite Hi.
  - destruct (i <? Z.of_nat (length array)) eqn:Hi;
      [|intros <-; destruct fuel'; simpl; by rewrite Hi].
    destruct fuel' as [|fuel']; [lia|]. simpl. rewrite Hi.
    rewrite !bind_unfold.
    destruct (promise_all processor _ w) as [[[rs w1] l1]|]; [|done].
    rewrite !bind_unfold. cbn. rewrite !bind_unfold.
    destruct (0 <? countRateLimit rs); cbn;
      (destruct (processInParallel_loop fuel _ _ _ _ _ _ w1) as [out'|] eqn:Hrec;
       [|done]);
      rewrite (IH fuel' _ _ _ _ _ _ ltac:(lia) Hrec); done.
Qed.

End Pass.

Lemma chained_bounds c chunks :
  chained c chunks →
  1 ≤ c →
  Forall (λ x, 1 ≤ x.1.1 ≤ c ∧ 1 ≤ x.2 ≤ c) chunks.
Proof.
  revert c. induction chunks as [|[[c0 rs] c1] chunks IH]; intros c; simpl.
  - constructor.
  - intros (-> & -> & Hrest) Hc.
    pose proof (adjustConcurrency_le c (countRateLimit rs)).
    pose proof (adjustConcurrency_ge_1 c (countRateLimit rs) Hc).
    constructor; simpl; [lia|].
    eapply Forall_impl; [by apply IH|]. simpl. intros [[? ?] ?]. simpl. lia.
Qed.

Lemma chained_lookup c chunks k c1 rs c2 :
  chained c chunks →
  chunks !! k = Some (c1, rs, c2) →
  c2 = adjustConcurrency c1 (countRateLimit rs)
  ∧ (1 ≤ c → 1 ≤ c1)
  ∧ ∀ c3 rs3 c4, chunks !! S k = Some (c3, rs3, c4) → c3 = c2.
Proof.
  revert c k. induction chunks as [|[[c0 rs0] c0'] chunks IH]; intros c k; simpl.
  - done.
  - intros (-> & -> & Hrest). destruct k as [|k]; simpl.
    + intros [= <- <- <-]. split; [done|]. split; [done|].
      intros c3 rs3 c4 Hnext. destruct chunks as [|[[c5 rs5] c6] chunks]; [done|].
      simpl in Hnext, Hrest. destruct Hrest as (-> & _). by injection Hnext as ->.
    + intros Hk. destruct (IH _ _ Hrest Hk) as (H1 & H2 & H3).
      split; [done|]. split; [|done].
      intros Hc. apply H2. by apply adjustConcurrency_ge_1.
Qed.

(** *** The summary and the retries *)

Lemma counted_not_skipped r :
  success_is_counted r → action r = act_skipped → success r = false.
Proof.
  intros Hc Ha. destruct (success r) eqn:Hs; [|done].
  destruct (Hc Hs) as [H | [H | H]]; congruence.
Qed.

Lemma tally_failure s r : success r = false → tally s r = incr_errors s.
Proof. unfold tally. by intros ->. Qed.

Lemma tally_skipped s r :
  success_is_counted r → skipped (tally s r) = skipped s.
Proof.
  unfold tally, success_is_counted, is_update. destruct (success r); [|done].
  intros [-> | [-> | ->]]; done.
Qed.

Lemma tally_details s r : details (tally s r) = details s.
Proof. unfold tally. repeat case_match; done. Qed.

Lemma foldl_tally s rs :
  Forall success_is_counted rs →
  skipped (foldl tally s rs) = skipped s
  ∧ details (foldl tally s rs) = details s.
Proof.
  revert s. induction rs as [|r rs IH]; intros s Hrs; simpl; [done|].
  apply Forall_cons in Hrs as [Hr Hrs].
  destruct (IH (tally s r) Hrs) as [-> ->].
  by rewrite tally_skipped, tally_details.
Qed.

Lemma apply_retry_skipped s r :
  success_is_counted r → skipped (apply_retry s r) = skipped s.
Proof.
  unfold apply_retry, success_is_counted, is_update.
  destruct (list_find _ _) as [[idx orig]|]; [|done].
  destruct (success r); simpl; [|done].
  destruct (negb (success orig) && _); [|done].
  intros [-> | [-> | ->]]; done.
Qed.

Lemma apply_retry_details (P : SyncResult → Prop) s r :
  P r → Forall P (details s) → Forall P (details (apply_retry s r)).
Proof.
  intros Hr Hs. unfold apply_retry.
  destruct (list_find _ _) as [[idx orig]|]; [|done].
  assert (Forall P (<[idx:=r]> (details s))) by by apply Forall_insert.
  repeat case_match; done.
Qed.

Lemma foldl_apply_retry (P : SyncResult → Prop) s rs :
  Forall success_is_counted rs →
  Forall P rs →
  Forall P (details s) →
  skipped (foldl apply_retry s rs) = skipped s
  ∧ Forall P (details (foldl apply_retry s rs)).
Proof.
  revert s. induction rs as [|r rs IH]; intros s Hc Hrs Hs; simpl; [done|].
  apply Forall_cons in Hc as [Hc1 Hc]. apply Forall_cons in Hrs as [Hr Hrs].
  destruct (IH (apply_retry s r) Hc Hrs) as [-> H].
  - by apply apply_retry_details.
  - by rewrite apply_retry_skipped.
Qed.

Lemma within_bounds_retry c : c ≤ ABSOLUTE_MAX_CONCURRENCY → within_bounds (Z.max 2 (c / 2)).
Proof.
  unfold within_bounds, ABSOLUTE_MAX_CONCURRENCY. intros Hc.
  assert (c / 2 ≤ 25) by (apply Z.div_le_upper_bound; lia). lia.
Qed.

Lemma initialConcurrency_bounds options :
  (∀ c, concurrency options = Some c → 0 ≤ c) →
  within_bounds (initialConcurrency options).
Proof.
  unfold initialConcurrency, within_bounds, ABSOLUTE_MAX_CONCURRENCY, JS.num_or.
  intros H. destruct (concurrency options) as [c|]; [|simpl; lia].
  specialize (H c eq_refl).
  destruct (c =? 0) eqn:H0; [simpl; lia|]. apply Z.eqb_neq in H0.
  destruct (50 <? c) eqn:H50; [lia|]. apply Z.ltb_ge in H50. lia.
Qed.

Section Passes.
Context {W : Type} (processor : string → M W SyncResult).
Hypothesis processor_returns : ∀ x, returns (processor x).
Hypothesis processor_quiet : ∀ x, quiet (processor x).
Hypothesis processor_counted : ∀ x, gives success_is_counted (processor x).

Lemma processInParallel_returns array c :
  1 ≤ c → returns (processInParallel array processor c).
Proof. intros Hc. apply loop_returns; [done | done | lia]. Qed.

Lemma processInParallel_counted array c :
  gives (Forall success_is_counted) (processInParallel array processor c).
Proof. apply loop_gives; [done | constructor]. Qed.

Lemma processInParallel_bounds array c w res w' log :
  within_bounds c →
  processInParallel array processor c w = Some (res, w', log) →
  Forall (λ x, within_bounds x.1.1 ∧ within_bounds x.2) (chunks_of log).
Proof.
  intros [Hc1 Hc2] Hrun. apply loop_chained in Hrun; [|done].
  eapply Forall_impl; [by apply chained_bounds|].
  unfold within_bounds. simpl. intros [[? ?] ?]. simpl. lia.
Qed.

Lemma retry_loop_returns left c maxR delay attempt remaining s :
  maxR - attempt + 1 ≤ Z.of_nat left →
  returns (retry_loop left processor c maxR delay attempt remaining s).
Proof.
  revert attempt remaining s.
  induction left as [|left IH]; intros attempt remaining s Hleft; simpl.
  - destruct (negb _ && (attempt <=? maxR)) eqn:H; [|async].
    apply andb_true_iff in H as [_ H%Z.leb_le]. lia.
  - destruct (negb _ && (attempt <=? maxR)) eqn:H; [|async].
    apply returns_bind; [apply processInParallel_returns; lia|]. intros rs.
    apply returns_bind; [async|]. intros _. apply IH. lia.
Qed.

(** What the retries keep: the count of skipped, the property of the
    details, the bounds of the concurrency. *)
Lemma retry_loop_keeps left c maxR delay attempt remaining s w s' w' log :
  c ≤ ABSOLUTE_MAX_CONCURRENCY →
  Forall success_is_counted (details s) →
  retry_loop left processor c maxR delay attempt remaining s w = Some (s', w', log) →
  skipped s' = skipped s
  ∧ Forall success_is_counted (details s')
  ∧ Forall (λ x, within_bounds x.1.1 ∧ within_bounds x.2) (chunks_of log).
Proof.
  intros Hc. revert attempt remaining s w log.
  induction left as [|left IH]; intros attempt remaining s w log Hs; simpl.
  - destruct (negb _ && _); [done|]. intros [= <- _ <-].
    repeat split; first [done | constructor].
  - destruct (negb _ && _);
      [|intros [= <- _ <-]; repeat split; first [done | constructor]].
    intros (rs & w1 & l1 & l2 & H1 & H2 & ->)%bind_Some.
    apply bind_Some in H2 as (? & w2 & l3 & l4 & H3 & H2 & ->).
    pose proof (processInParallel_counted _ _ _ _ _ _ H1) as Hrs.
    destruct (foldl_apply_retry success_is_counted s rs Hrs Hrs Hs) as [Hsk Hdet].
    destruct (IH _ _ _ _ _ Hdet H2) as (Hsk' & Hdet' & Hb).
    split; [congruence|]. split; [done|].
    rewrite !chunks_of_app. apply Forall_app. split.
    + eapply processInParallel_bounds; [|exact H1]. by apply within_bounds_retry.
    + apply Forall_app. split; [|done].
      destruct (negb _ && _) in H3; injection H3 as _ _ <-; constructor.
Qed.

Lemma retryFailures_returns options c s :
  returns (retryFailures processor options c s).
Proof.
  unfold retryFailures. destruct (negb _ && _); [|async].
  apply returns_bind; [async|]. intros _. apply retry_loop_returns. lia.
Qed.

Lemma retryFailures_keeps options c s w s' w' log :
  c ≤ ABSOLUTE_MAX_CONCURRENCY →
  Forall success_is_counted (details s) →
  retryFailures processor options c s w = Some (s', w', log) →
  skipped s' = skipped s
  ∧ Forall success_is_counted (details s')
  ∧ Forall (λ x, within_bounds x.1.1 ∧ within_bounds x.2) (chunks_of log).
Proof.
  intros Hc Hs. unfold retryFailures. destruct (negb _ && _).
  - intros (? & w1 & l1 & l2 & H1 & H2 & ->)%bind_Some.
    injection H1 as _ _ <-. simpl. by eapply retry_loop_keeps.
  - intros [= <- _ <-]. repeat split; first [done | constructor].
Qed.

End Passes.

(** *** The worker of [syncMultipleProducts] in a pass *)

Section WorkerPass.
Context {W : Type} (R : Remote W) (options : Options).
Context (shopMap : gmap string ShopifyProduct) (loc : option Z).
Context (mgrMap : option (gmap string ManagerProduct)).

Lemma worker_returns x : returns (worker R options shopMap loc mgrMap x).
Proof. apply syncProductStock_returns. Qed.

Lemma worker_quiet x : quiet (worker R options shopMap loc mgrMap x).
Proof. apply syncProductStock_quiet. Qed.

Lemma worker_counted x :
  gives success_is_counted (worker R options shopMap loc mgrMap x).
Proof. apply syncProductStock_counted. Qed.

Lemma pass_chained array c w res w' log :
  processInParallel array (worker R options shopMap loc mgrMap) c w
  = Some (res, w', log) →
  chained c (chunks_of log).
Proof. apply loop_chained, worker_quiet. Qed.

(** What a chunk cut with [c1] and followed by concurrency [c2] has to
    do with the chunk after it, when [c2] is to be [target]. *)
Lemma pass_next array c w res w' log k c1 rs c2 :
  processInParallel array (worker R options shopMap loc mgrMap) c w
  = Some (res, w', log) →
  chunks_of log !! k = Some (c1, rs, c2) →
  c2 = adjustConcurrency c1 (countRateLimit rs)
  ∧ (1 ≤ c → 1 ≤ c1)
  ∧ ∀ c3 rs3 c4, chunks_of log !! S k = Some (c3, rs3, c4) → c3 = c2.
Proof.
  intros Hrun Hk. apply pass_chained in Hrun.
  by apply (chained_lookup _ _ _ _ _ _ Hrun Hk).
Qed.

(** C3, as the code has it. A pass with a concurrency of at least 1
    returns; when the results of one of its chunks, cut with concurrency
    [c1], hold a rate-limit error, the concurrency after the chunk is
    [max(1, floor(c1 / 2))], and the next chunk of the pass is cut with
    it. *)
Theorem halving_on_rate_limit array c w :
  1 ≤ c →
  ∃ res w' log,
    processInParallel array (worker R options shopMap loc mgrMap) c w
    = Some (res, w', log)
    ∧ ∀ k c1 rs c2,
        chunks_of log !! k = Some (c1, rs, c2) →
        has_rate_limit rs →
        c2 = Z.max 1 (c1 / 2)
        ∧ ∀ c3 rs3 c4,
            chunks_of log !! S k = Some (c3, rs3, c4) → c3 = Z.max 1 (c1 / 2).
Proof.
  intros Hc.
  destruct (processInParallel_returns _ worker_returns array c Hc w)
    as [[[res w'] log] Hrun].
  exists res, w', log. split; [done|]. intros k c1 rs c2 Hk Hrl.
  destruct (pass_next _ _ _ _ _ _ _ _ _ _ Hrun Hk) as (H2 & H1 & Hnext).
  apply has_rate_limit_count in Hrl.
  rewrite adjustConcurrency_rate_limited in H2 by auto.
  split; [done|]. intros c3 rs3 c4 H3. rewrite (Hnext _ _ _ H3). done.
Qed.

(** C4, as the code has it. A pass with a concurrency of at least 1
    returns; when the results of one of its chunks hold no rate-limit
    error, the concurrency is left as it is: the next chunk of the pass is
    cut with the same concurrency. *)
Theorem steady_without_rate_limit array c w :
  1 ≤ c →
  ∃ res w' log,
    processInParallel array (worker R options shopMap loc mgrMap) c w
    = Some (res, w', log)
    ∧ ∀ k c1 rs c2,
        chunks_of log !! k = Some (c1, rs, c2) →
        ¬ has_rate_limit rs →
        c2 = c1
        ∧ ∀ c3 rs3 c4, chunks_of log !! S k = Some (c3, rs3, c4) → c3 = c1.
Proof.
  intros Hc.
  destruct (processInParallel_returns _ worker_returns array c Hc w)
    as [[[res w'] log] Hrun].
  exists res, w', log. split; [done|]. intros k c1 rs c2 Hk Hrl.
  destruct (pass_next _ _ _ _ _ _ _ _ _ _ Hrun Hk) as (H2 & _ & Hnext).
  rewrite adjustConcurrency_clean in H2.
  - split; [done|]. intros c3 rs3 c4 H3. rewrite (Hnext _ _ _ H3). done.
  - rewrite has_rate_limit_count in Hrl. lia.
Qed.

End WorkerPass.

Lemma halving_on_rate_limit_witness :
  2 = Z.max 1 (5 / 2)
  ∧ ∀ c3 rs3 c4,
      chunks_of (events StockExamples.seven_at_5) !! 1%nat = Some (c3, rs3, c4) →
      c3 = Z.max 1 (5 / 2).
Proof.
  destruct (halving_on_rate_limit StockExamples.flaky StockExamples.plain
              StockExamples.shop_map (Some 77) (Some StockExamples.erp_map)
              ["A"; "B"; "C"; "D"; "E"; "F"; "G"] 5 ())
    as (res & w' & log & Hrun & Hchunks); [lia|].
  change (StockExamples.seven_at_5 = Some (res, w', log)) in Hrun.
  rewrite Hrun. simpl.
  assert (log = events StockExamples.seven_at_5) as Hlog by by rewrite Hrun.
  eapply (Hchunks 0%nat 5 _ 2).
  - rewrite Hlog. vm_compute. reflexivity.
  - apply Exists_cons_tl, Exists_cons_tl, Exists_cons_hd. reflexivity.
Defined.

Lemma steady_without_rate_limit_witness :
  2 = 2
  ∧ ∀ c3 rs3 c4,
      chunks_of (events StockExamples.four_at_2) !! 1%nat = Some (c3, rs3, c4) →
      c3 = 2.
Proof.
  destruct (steady_without_rate_limit StockExamples.flaky StockExamples.plain
              StockExamples.shop_map (Some 77) (Some StockExamples.erp_map)
              ["A"; "B"; "D"; "E"] 2 ())
    as (res & w' & log & Hrun & Hchunks); [lia|].
  change (StockExamples.four_at_2 = Some (res, w', log)) in Hrun.
  rewrite Hrun. simpl.
  assert (log = events StockExamples.four_at_2) as Hlog by by rewrite Hrun.
  eapply (Hchunks 0%nat 2 _ 2).
  - rewrite Hlog. vm_compute. reflexivity.
  - rewrite has_rate_limit_count. vm_compute. discriminate.
Defined.

(** C3, the counterexample. Seven SKUs at concurrency 5; the write of [C]
    in the first chunk is refused with a 429.  The next chunk is cut with
    2, where [max(1, round(5 / 2))] is 3. *)
Lemma halving_rounds_down :
  ∃ res log rs1 rs2 c3,
    processInParallel ["A"; "B"; "C"; "D"; "E"; "F"; "G"]
      StockExamples.flaky_worker 5 () = Some (res, (), log)
    ∧ chunks_of log !! 0%nat = Some (5, rs1, 2)
    ∧ has_rate_limit rs1
    ∧ chunks_of log !! 1%nat = Some (2, rs2, c3)
    ∧ spec_halved 1 5 = 3.
Proof.
  eexists _, _, _, _, _. split; [vm_compute; reflexivity|].
  split; [reflexivity|]. split; [|split; reflexivity].
  apply Exists_cons_tl, Exists_cons_tl, Exists_cons_hd. reflexivity.
Qed.

(** C4, the counterexample. Four SKUs at concurrency 2 and no rate limit:
    the second chunk is cut with 2 again, where a growth by one step under
    the ceiling of 50 gives 3. *)
Lemma no_growth_after_clean_chunk :
  ∃ res log rs1 rs2 c3,
    processInParallel ["A"; "B"; "D"; "E"] StockExamples.flaky_worker 2 ()
    = Some (res, (), log)
    ∧ chunks_of log !! 0%nat = Some (2, rs1, 2)
    ∧ ¬ has_rate_limit rs1
    ∧ chunks_of log !! 1%nat = Some (2, rs2, c3)
    ∧ spec_grown ABSOLUTE_MAX_CONCURRENCY 2 = 3.
Proof.
  eexists _, _, _, _, _. split; [vm_compute; reflexivity|].
  split; [reflexivity|]. split; [|split; reflexivity].
  rewrite has_rate_limit_count. vm_compute. discriminate.
Qed.

(** *** [syncMultipleProducts] *)

Lemma tally_errors s r :
  errors (tally s r) = errors s + (if success r then 0 else 1).
Proof. unfold tally. repeat case_match; simpl; lia. Qed.

Lemma foldl_tally_errors rs : ∀ s,
  errors (foldl tally s rs) = errors s + failures rs.
Proof.
  unfold failures. induction rs as [|r rs IH]; intros s; simpl; [lia|].
  rewrite IH, tally_errors, filter_cons.
  destruct (decide (success r = false)) as [-> | Hs]; simpl; [lia|].
  destruct (success r); [lia | done].
Qed.

Lemma tally_raises_skipped s r : skipped (tally s r) ≠ skipped s → success r = true.
Proof. unfold tally. destruct (success r); [done|]. simpl. done. Qed.

Lemma apply_retry_raises_skipped s r :
  skipped (apply_retry s r) ≠ skipped s → success r = true.
Proof.
  unfold apply_retry. destruct (list_find _ _) as [[idx orig]|]; [|done].
  destruct (success r); [done|]. simpl. done.
Qed.

Lemma retryFailures_none {W} (processor : string → M W SyncResult) options c s w s' w' log :
  retryFailures processor options c s w = Some (s', w', log) →
  dryRun options = true ∨ filter (λ r, retryable r = true) (details s) = [] →
  s' = s ∧ log = [].
Proof.
  unfold retryFailures. intros Hrun Hno.
  assert (negb (bool_decide (filter (λ r, retryable r = true) (details s) = []))
          && negb (dryRun options) = false) as Hcond.
  { destruct Hno as [-> | ->]; [by rewrite andb_false_r | done]. }
  rewrite Hcond in Hrun. by injection Hrun as <- _ <-.
Qed.

Section Sync.
Context {W : Type} (R : Remote W).

Lemma syncMultipleProducts_returns skus options :
  (∀ c, concurrency options = Some c → 0 ≤ c) →
  returns (syncMultipleProducts R skus options).
Proof.
  intros [Hc _]%initialConcurrency_bounds. unfold syncMultipleProducts.
  apply returns_bind; [async|]. intros [[]|e]; [|async].
  apply returns_bind; [async|]. intros [shopMap|e]; [|async].
  apply returns_bind; [async|]. intros mgrMap.
  apply returns_bind; [async|]. intros [loc|e]; [|async].
  apply returns_bind.
  { apply processInParallel_returns; [apply worker_returns | done]. }
  intros res. apply returns_bind; [|async].
  apply retryFailures_returns, worker_returns.
Qed.

(** When [syncMultipleProducts] returns a summary, it has made a first
    pass and the retries with one worker; when it throws, no chunk has been
    cut. *)
Lemma syncMultipleProducts_inv skus options w out w' log :
  syncMultipleProducts R skus options w = Some (out, w', log) →
  (∃ e, out = Fail e ∧ log = [])
  ∨ ∃ shopMap loc mgrMap w0 res w1 l1 summary l2,
      out = Ok summary
      ∧ processInParallel skus (worker R options shopMap loc mgrMap)
          (initialConcurrency options) w0 = Some (res, w1, l1)
      ∧ retryFailures (worker R options shopMap loc mgrMap) options
          (initialConcurrency options)
          (foldl tally
             (set_details res (mkSummary (Z.of_nat (length skus)) 0 0 0 0 [])) res)
          w1 = Some (summary, w', l2)
      ∧ log = l1 ++ l2.
Proof.
  unfold syncMultipleProducts.
  intros (auth & wa & la & l & Ha & H & ->)%bind_Some. injection Ha as _ <-.
  destruct auth as [[]|e]; [|injection H as <- _ <-; left; by exists e].
  apply bind_Some in H as (loaded & wb & lb & m1 & Hb & H & ->).
  injection Hb as _ <-.
  destruct loaded as [shopMap|e]; [|injection H as <- _ <-; left; by exists e].
  apply bind_Some in H as (mgrMap & wc & lc & m2 & Hc & H & ->).
  assert (lc = []) as ->.
  { destruct (useManagerBulk options).
    - apply bind_Some in Hc as (? & ? & ? & ? & Hc1 & Hc2 & ->).
      injection Hc1 as _ <-. by injection Hc2 as _ _ <-.
    - by injection Hc as _ _ <-. }
  apply bind_Some in H as (location & wd & ld & m3 & Hd & H & ->).
  assert (ld = []) as ->.
  { destruct (negb (dryRun options)).
    - apply bind_Some in Hd as (? & ? & ? & ? & Hd1 & Hd2 & ->).
      injection Hd1 as _ <-. by injection Hd2 as _ _ <-.
    - by injection Hd as _ _ <-. }
  destruct location as [loc|e]; [|injection H as <- _ <-; left; by exists e].
  apply bind_Some in H as (res & w1 & l1 & m4 & H1 & H & ->).
  apply bind_Some in H as (summary & w2 & l2 & l3 & H2 & H3 & ->).
  injection H3 as <- <- <-.
  right. exists shopMap, loc, mgrMap, wd, res, w1, l1, summary, l2.
  split; [done|]. split; [done|]. split; [done|].
  simpl. by rewrite app_nil_r.
Qed.

(** [syncMultipleProducts] with a concurrency option that is absent
    or not negative returns; the concurrency it starts with is between 1
    and 50, every chunk of the run, of the first pass and of the retries,
    is cut with a concurrency between 1 and 50, and so is the concurrency
    after the adjustment that follows the chunk. *)
Theorem concurrency_bounds skus options w :
  (∀ c, concurrency options = Some c → 0 ≤ c) →
  ∃ out w' log,
    syncMultipleProducts R skus options w = Some (out, w', log)
    ∧ within_bounds (initialConcurrency options)
    ∧ Forall (λ x, within_bounds x.1.1 ∧ within_bounds x.2) (chunks_of log).
Proof.
  intros Hc.
  destruct (syncMultipleProducts_returns skus options Hc w) as [[[out w'] log] Hrun].
  exists out, w', log. split; [done|].
  apply initialConcurrency_bounds in Hc. split; [done|].
  destruct (syncMultipleProducts_inv _ _ _ _ _ _ Hrun)
    as [(e & _ & ->) | (shopMap & loc & mgrMap & w0 & res & w1 & l1 & summary & l2
                         & _ & H1 & H2 & ->)]; [constructor|].
  rewrite chunks_of_app. apply Forall_app. split.
  - eapply processInParallel_bounds; [apply worker_quiet | done | exact H1].
  - eapply (retryFailures_keeps _ (worker_quiet _ _ _ _ _) (worker_counted _ _ _ _ _));
      [apply Hc | | exact H2].
    destruct (foldl_tally (set_details res (mkSummary (Z.of_nat (length skus)) 0 0 0 0 []))
                res) as [_ ->].
    + eapply processInParallel_counted; [apply worker_counted | exact H1].
    + simpl. eapply processInParallel_counted; [apply worker_counted | exact H1].
Qed.

Lemma summary_skipped skus options w summary w' log :
  syncMultipleProducts R skus options w = Some (Ok summary, w', log) →
  skipped summary = 0
  ∧ Forall (λ r, action r = act_skipped →
                 success r = false ∧ ∀ s, tally s r = incr_errors s)
      (details summary).
Proof.
  intros Hrun.
  destruct (syncMultipleProducts_inv _ _ _ _ _ _ Hrun)
    as [(e & ? & _) | (shopMap & loc & mgrMap & w0 & res & w1 & l1 & summary' & l2
                        & [= <-] & H1 & H2 & _)]; [done|].
  pose proof (processInParallel_counted _ (worker_counted _ _ _ _ _) _ _ _ _ _ _ H1)
    as Hres.
  destruct (foldl_tally (set_details res (mkSummary (Z.of_nat (length skus)) 0 0 0 0 []))
              res Hres) as [Hsk Hdet].
  assert (initialConcurrency options ≤ ABSOLUTE_MAX_CONCURRENCY) as Hmax.
  { unfold initialConcurrency. case_match; [done|].
    match goal with H : (_ <? _) = false |- _ => by apply Z.ltb_ge in H end. }
  assert (Forall success_is_counted
            (details (foldl tally
               (set_details res (mkSummary (Z.of_nat (length skus)) 0 0 0 0 [])) res)))
    as Hd by by rewrite Hdet.
  destruct (retryFailures_keeps _ (worker_quiet R options shopMap loc mgrMap)
              (worker_counted R options shopMap loc mgrMap)
              _ _ _ _ _ _ _ Hmax Hd H2) as (Hsk' & Hdet' & _).
  split; [by rewrite Hsk', Hsk|].
  eapply Forall_impl; [exact Hdet'|]. intros r Hr Ha.
  pose proof (counted_not_skipped r Hr Ha) as Hf.
  split; [done|]. intros s. by apply tally_failure.
Qed.


End Sync.

Lemma concurrency_bounds_witness :
  ∃ out w' log,
    syncMultipleProducts StockExamples.flaky
      ["A"; "B"; "C"; "D"; "E"; "F"; "G"; "Z"] StockExamples.at_5 ()
    = Some (out, w', log)
    ∧ within_bounds (initialConcurrency StockExamples.at_5)
    ∧ Forall (λ x, within_bounds x.1.1 ∧ within_bounds x.2) (chunks_of log).
Proof.
  apply (concurrency_bounds StockExamples.flaky
           ["A"; "B"; "C"; "D"; "E"; "F"; "G"; "Z"] StockExamples.at_5 ()).
  intros c Hc. vm_compute in Hc. injection Hc as <-. lia.
Defined.




(** C5, the failing input. The concurrency [-1], as [syncScheduler.js]
    passes it on for [SYNC_CONCURRENCY=-1], is taken as it is:
    [syncMultipleProducts] starts below the floor of 1, the adjustment
    after a chunk leaves it there, and on a list with a SKU the loop of the
    first pass has not ended after any number of iterations; the run does
    not return. *)
Theorem negative_concurrency_breaks_the_floor :
  initialConcurrency StockExamples.minus_1 = -1
  ∧ ¬ within_bounds (initialConcurrency StockExamples.minus_1)
  ∧ (∀ n, adjustConcurrency (-1) n = -1)
  ∧ (∀ fuel,
       processInParallel_loop fuel ["A"] StockExamples.flaky_worker 0
         (initialConcurrency StockExamples.minus_1) 0 [] () = None)
  ∧ syncMultipleProducts StockExamples.flaky ["A"] StockExamples.minus_1 () = None.
Proof.
  split; [reflexivity|]. split; [intros [Hlo _]; vm_compute in Hlo; by apply Hlo|].
  split; [intros n; by apply adjustConcurrency_below_1|].
  split; [|vm_compute; reflexivity].
  intros fuel.
  apply loop_never_returns; [vm_compute; discriminate | vm_compute; reflexivity].
Qed.

(** With [forceUpdate] and [dryRun] both set, equal stocks give
    [would_update] and nothing is written. *)
Lemma forced_dry_run_writes_nothing :
  worker StockExamples.flaky StockExamples.forced_dry_run StockExamples.shop_map
    None (Some StockExamples.erp_map) "G" ()
  = Some (mkSyncResult "G" true act_would_update None (Some 0) (Some 0) (Some 0),
          (), []).
Proof. vm_compute. reflexivity. Qed.

(** [syncProductStock] reads [forceUpdate]; the [force] that the command
    line sets for [--force] changes nothing. *)
Lemma force_is_not_read {W} (R : Remote W) sku d fu f1 f2 c mr rd b ps pp shopMap loc mgrMap :
  syncProductStock R sku (mkOptions d fu f1 c mr rd b ps pp) shopMap loc mgrMap
  = syncProductStock R sku (mkOptions d fu f2 c mr rd b ps pp) shopMap loc mgrMap.
Proof. reflexivity. Qed.

(** The wait of [getManagerProductBySKU] before it tries again after a
    429: the Retry-After of the answer, in milliseconds, whenever there is
    one, and [min(5000, 1500 * attempt)] otherwise. *)
Lemma getManagerProductBySKU_wait {W} (R : Remote W) left sku attempt w e w1 :
  erp_get_product R sku w = (Fail e, w1) →
  JS.status_is e 404 = false →
  JS.status_is e 429 = true →
  attempt < 3 →
  getManagerProductBySKU_from R (S left) sku attempt w
  = (_ ← sleep (match JS.retry_after e with
                | Some seconds => seconds * 1000
                | None => Z.min 5000 (1500 * attempt)
                end);
     getManagerProductBySKU_from R left sku (attempt + 1)) w1.
Proof.
  intros Hget H404 H429 Hlt. simpl. rewrite bind_unfold. unfold call at 1.
  rewrite Hget, H404, H429. apply Z.ltb_lt in Hlt as ->. simpl.
  by destruct ((_ ← sleep _; getManagerProductBySKU_from R left sku (attempt + 1)) w1)
    as [[[? ?] ?]|].
Qed.

End SyncStocksProofs.

(** * Properties of the requests to the ERP *)

Module OrderClientProofs.
Import SyncStocks OrderClient.

(** In [axiosWithRetry] the wait after a failed attempt that is tried
    again is never below [min(baseDelay * 2^(attempt-1), maxDelay)], and is
    [(retry + 2) * 1000] when the ERP has given a [retry] for which that is
    more. *)
Lemma axiosWithRetry_wait {W A} left (requestFn : W → Response A * W) attempt w e w1 :
  requestFn w = (Fail e, w1) →
  isRetryable e = true →
  attempt ≠ maxRetries →
  axiosWithRetry_from (S left) requestFn attempt w
  = (_ ← sleep (delayMs attempt e);
     axiosWithRetry_from left requestFn (attempt + 1)) w1.
Proof.
  intros Hreq Hretry Hattempt. simpl.
  rewrite SyncStocksProofs.bind_unfold. unfold call at 1.
  rewrite Hreq, Hretry. apply Z.eqb_neq in Hattempt as ->. simpl.
  by destruct ((_ ← sleep _; axiosWithRetry_from left requestFn (attempt + 1)) w1)
    as [[[? ?] ?]|].
Qed.

Lemma delayMs_suggested attempt e seconds :
  JS.data_retry e = Some seconds →
  seconds ≠ 0 →
  delayMs attempt e
  = Z.max (Z.min (baseDelay * 2 ^ (attempt - 1)) maxDelay) ((seconds + 2) * 1000).
Proof.
  intros Hr Hs. unfold delayMs. rewrite Hr. by apply Z.eqb_neq in Hs as ->.
Qed.

Lemma delayMs_computed attempt e :
  JS.data_retry e = None →
  delayMs attempt e = Z.min (baseDelay * 2 ^ (attempt - 1)) maxDelay.
Proof. intros Hr. unfold delayMs. by rewrite Hr. Qed.

(** The queue reads neither the mark [isRateLimit] that [axiosWithRetry]
    leaves on the error, nor the [retry] of the ERP. *)
Lemma queue_reads_no_mark e :
  WebhookQueue.setProcessor (WebhookQueue.Throws (JS.mark_isRateLimit e))
  = WebhookQueue.setProcessor (WebhookQueue.Throws e)
  ∧ WebhookQueue.isRateLimit (JS.mark_isRateLimit e) = WebhookQueue.isRateLimit e.
Proof. split; reflexivity. Qed.

End OrderClientProofs.

(** * Properties of the runs of the webhook queue *)

Module QueueRunsProofs.
Import WebhookQueue QueueRuns WebhookQueueProofs.

(** *** What the two ends of the loop body and the cache test leave alone *)

Lemma loop_head_stats now q : stats (obj (loop_head now q).1) = stats q.
Proof. unfold loop_head. by destruct (queue q). Qed.

Lemma loop_tail_stats now q : stats (obj (loop_tail now q).1) = stats q.
Proof.
  unfold loop_tail. destruct (queue q); [|done]. apply loop_head_stats.
Qed.

Lemma loop_head_config now q : config (obj (loop_head now q).1) = config q.
Proof. unfold loop_head. by destruct (queue q). Qed.

Lemma loop_tail_config now q : config (obj (loop_tail now q).1) = config q.
Proof.
  unfold loop_tail. destruct (queue q); [|done]. apply loop_head_config.
Qed.

Lemma isOrderProcessed_frame now oid q :
  queue (isOrderProcessed now oid q).2 = queue q
  ∧ stats (isOrderProcessed now oid q).2 = stats q
  ∧ config (isOrderProcessed now oid q).2 = config q
  ∧ isProcessing (isOrderProcessed now oid q).2 = isProcessing q.
Proof.
  unfold isOrderProcessed. destruct (negb (JS.truthy oid)); [done|].
  destruct (processedOrders q !! oid) as [e|]; [|done].
  by destruct (expired now (config q) e).
Qed.

Lemma react_config now i sys : config (obj (react now i sys).1) = config (obj sys).
Proof.
  destruct i as [data tp sh | r | | oid |]; simpl; try done.
  - unfold enqueue. destruct (extract_orderId data) as [oid|]; [|done].
    destruct (negb (JS.truthy oid)); [done|].
    destruct (isOrderProcessed_frame now oid
                (set_stats (incr_total (stats (obj sys))) (obj sys)))
      as (_ & _ & Hc & _).
    destruct (isOrderProcessed now oid _) as [dup q1]. simpl in Hc.
    destruct dup; [done|]. destruct (existsb _ (queue q1)); [done|].
    unfold processQueue. simpl. destruct (isProcessing q1); [done|].
    pose proof (loop_head_config now
      (set_isProcessing true (set_queue (queue q1 ++ [mkItem oid data tp sh now 0]) q1)))
      as Hh.
    destruct (loop_head now _) as [sys' evs]. simpl in *. congruence.
  - destruct (consumer sys); try done. unfold resume_processWebhook.
    destruct (queue (obj sys)) as [|item rest]; [done|].
    destruct r as [res | e].
    + destruct (success res); [|destruct (retry res && _)]; try done;
        by rewrite loop_tail_config.
    + destruct (isRateLimit e && _); [done|]. by rewrite loop_tail_config.
  - destruct (consumer sys); try done.
    + apply loop_tail_config.
    + apply loop_head_config.
Qed.

(** *** The counters account for every order *)

Lemma react_accounted now i sys : accounted sys → accounted (react now i sys).1.
Proof.
  unfold accounted. intros Ha.
  destruct i as [data tp sh | r | | oid |]; simpl; try done.
  - unfold enqueue. destruct (extract_orderId data) as [oid|]; [|done].
    destruct (negb (JS.truthy oid)); [done|].
    destruct (isOrderProcessed_frame now oid
                (set_stats (incr_total (stats (obj sys))) (obj sys)))
      as (Hq & Hs & _ & _).
    destruct (isOrderProcessed now oid _) as [dup q1]. simpl in Hq, Hs.
    destruct dup; [simpl; rewrite Hq, Hs; simpl; lia|].
    destruct (existsb _ (queue q1)); [simpl; rewrite Hq, Hs; simpl; lia|].
    unfold processQueue. simpl. destruct (isProcessing q1).
    + simpl. rewrite Hq, Hs, length_app. simpl. lia.
    + pose proof (loop_head_stats now
        (set_isProcessing true (set_queue (queue q1 ++ [mkItem oid data tp sh now 0]) q1)))
        as Hst.
      pose proof (loop_head_queue now
        (set_isProcessing true (set_queue (queue q1 ++ [mkItem oid data tp sh now 0]) q1)))
        as Hqu.
      destruct (loop_head now _) as [sys' evs]. simpl in *.
      rewrite Hst, Hqu, Hq, Hs, length_app. simpl. lia.
  - destruct (consumer sys); try done. unfold resume_processWebhook.
    destruct (queue (obj sys)) as [|item rest] eqn:Hq; [simpl; rewrite Hq; done|].
    simpl in Ha.
    destruct r as [res | e].
    + destruct (success res); [|destruct (retry res && _)].
      * rewrite loop_tail_stats, loop_tail_queue. simpl. rewrite Hq. simpl. lia.
      * simpl. lia.
      * rewrite loop_tail_stats, loop_tail_queue. simpl. rewrite Hq. simpl. lia.
    + destruct (isRateLimit e && _).
      * simpl. lia.
      * rewrite loop_tail_stats, loop_tail_queue. simpl. rewrite Hq. simpl. lia.
  - destruct (consumer sys); try done.
    + by rewrite loop_tail_stats, loop_tail_queue.
    + by rewrite loop_head_stats, loop_head_queue.
Qed.

Lemma run_invariant (P : System → Prop) clock k inputs sys :
  (∀ now i s, P s → P (react now i s).1) →
  P sys →
  Forall (λ st, P st.1) (run clock k inputs sys).
Proof.
  intros Hstep. revert k sys.
  induction inputs as [|i inputs IH]; intros k sys HP; simpl.
  - constructor.
  - constructor; [by apply Hstep | apply IH; by apply Hstep].
Qed.

(** X1. In every state of every run of a new queue,
    [stats.total = duplicates + processed + failed + queue.length]: a
    webhook with an order id is counted once and is a duplicate, done,
    failed or still waiting; the retries do not change the account. *)
Theorem stats_account_for_every_order clock inputs options :
  Forall (λ st, accounted st.1) (run clock 0 inputs (start options)).
Proof.
  apply run_invariant; [apply react_accounted|]. reflexivity.
Qed.

(** X2. In every state of every run of a new queue the consumer is idle
    exactly when [isProcessing] is false, and then no order is waiting;
    while the consumer is at work the queue is not empty; and no order id is
    in the queue twice. *)
Theorem no_order_stranded clock inputs options :
  Forall (λ st, consistent st.1) (run clock 0 inputs (start options)).
Proof.
  apply run_invariant; [apply react_consistent | apply start_consistent].
Qed.

(** *** The count of retries of an item *)

Lemma react_retries_bounded now i sys :
  0 ≤ maxRetries (config (obj sys)) →
  retries_bounded sys → retries_bounded (react now i sys).1.
Proof.
  intros Hmax Hb. unfold retries_bounded. rewrite react_config.
  unfold retries_bounded in Hb.
  destruct i as [data tp sh | r | | oid |]; simpl; try done.
  - unfold enqueue. destruct (extract_orderId data) as [oid|]; [|done].
    destruct (negb (JS.truthy oid)); [done|].
    destruct (isOrderProcessed_frame now oid
                (set_stats (incr_total (stats (obj sys))) (obj sys)))
      as (Hq & _ & _ & _).
    destruct (isOrderProcessed now oid _) as [dup q1]. simpl in Hq.
    destruct dup; [simpl; by rewrite Hq|].
    destruct (existsb _ (queue q1)); [simpl; by rewrite Hq|].
    assert (Forall (λ item, 0 ≤ retryCount item ≤ maxRetries (config (obj sys)))
              (queue q1 ++ [mkItem oid data tp sh now 0])) as Hall.
    { rewrite Hq. apply Forall_app. split; [done|]. repeat constructor; simpl; lia. }
    unfold processQueue. simpl. destruct (isProcessing q1); [done|].
    pose proof (loop_head_queue now
      (set_isProcessing true (set_queue (queue q1 ++ [mkItem oid data tp sh now 0]) q1)))
      as Hh.
    destruct (loop_head now _) as [sys' evs]. simpl in *. by rewrite Hh.
  - destruct (consumer sys); try done. unfold resume_processWebhook.
    destruct (queue (obj sys)) as [|item rest] eqn:Hq; [simpl; by rewrite Hq|].
    apply Forall_cons in Hb as [Hitem Hrest].
    assert (∀ q', queue q' = rest →
              Forall (λ item, 0 ≤ retryCount item ≤ maxRetries (config (obj sys)))
                (queue (obj (loop_tail now q').1))) as Htail.
    { intros q' Hq'. by rewrite loop_tail_queue, Hq'. }
    destruct r as [res | e].
    + destruct (success res); [apply Htail; simpl; by rewrite Hq|].
      destruct (retry res) eqn:Hr; simpl; [|apply Htail; simpl; by rewrite Hq].
      destruct (retryCount item <? maxRetries (config (obj sys))) eqn:Hlt;
        [|apply Htail; simpl; by rewrite Hq].
      apply Z.ltb_lt in Hlt. simpl. constructor; [simpl; lia | done].
    + destruct (isRateLimit e); simpl; [|apply Htail; simpl; by rewrite Hq].
      destruct (retryCount item <? maxRetries (config (obj sys))) eqn:Hlt;
        [|apply Htail; simpl; by rewrite Hq].
      apply Z.ltb_lt in Hlt. simpl. constructor; [simpl; lia | done].
  - destruct (consumer sys); try done.
    + by rewrite loop_tail_queue.
    + by rewrite loop_head_queue.
Qed.

Lemma new_maxRetries options :
  (∀ m, opt_maxRetries options = Some m → 0 ≤ m) →
  0 ≤ maxRetries (config (new options)).
Proof.
  intros H. simpl. unfold JS.num_or.
  destruct (opt_maxRetries options) as [m|] eqn:Hm; [|lia].
  destruct (m =? 0); [lia|]. by apply H.
Qed.

(** X3. With a [maxRetries] option that is absent or not negative, no item is
    ever retried more than [maxRetries] times: in every state of every run
    of a new queue every item of the queue has
    [0 <= retryCount <= maxRetries]. *)
Theorem retry_count_bounded clock inputs options :
  (∀ m, opt_maxRetries options = Some m → 0 ≤ m) →
  Forall (λ st, retries_bounded st.1) (run clock 0 inputs (start options)).
Proof.
  intros Hm%new_maxRetries.
  eapply Forall_impl.
  - apply (run_invariant
             (λ s, config (obj s) = config (new options) ∧ retries_bounded s)).
    + intros now i s [Hc Hb]. split; [by rewrite react_config|].
      apply react_retries_bounded; [by rewrite Hc | done].
    + split; [done | constructor].
  - by intros st [_ Hb].
Qed.

Lemma retry_count_bounded_witness :
  Forall (λ st, retries_bounded st.1)
    (run Examples.every_second 0 RunExamples.one_retry
       (start RunExamples.two_retries)).
Proof.
  apply (retry_count_bounded Examples.every_second RunExamples.one_retry
           RunExamples.two_retries).
  intros m Hm. vm_compute in Hm. injection Hm as <-. lia.
Defined.

(** *** An order that is given up *)

Lemma run_app clock k l1 l2 sys :
  run clock k (l1 ++ l2) sys
  = run clock k l1 sys
    ++ run clock (k + length l1) l2 (end_state sys (run clock k l1 sys)).
Proof.
  revert k sys. induction l1 as [|i l1 IH]; intros k sys; simpl.
  - by rewrite Nat.add_0_r.
  - rewrite IH. f_equal.
    replace (k + S (length l1))%nat with (S k + length l1)%nat by lia.
    f_equal. f_equal. unfold end_state. rewrite last_cons.
    by destruct (last (run clock (S k) l1 (react (clock k) i sys).1)).
Qed.

Lemma trace_events_app t1 t2 : trace_events (t1 ++ t2) = trace_events t1 ++ trace_events t2.
Proof. unfold trace_events. by rewrite fmap_app, concat_app. Qed.

Lemma calls_app t1 t2 : calls (t1 ++ t2) = calls t1 ++ calls t2.
Proof. unfold calls. by rewrite trace_events_app, omap_app. Qed.

Lemma sleeps_app t1 t2 : sleeps (t1 ++ t2) = sleeps t1 ++ sleeps t2.
Proof. unfold sleeps. by rewrite trace_events_app, omap_app. Qed.

Lemma end_state_app sys t1 t2 :
  end_state sys (t1 ++ t2) = end_state (end_state sys t1) t2.
Proof.
  unfold end_state. destruct t2 as [|st t2 _] using rev_ind.
  - by rewrite app_nil_r.
  - by rewrite app_assoc, !last_snoc.
Qed.

(** [m] more retries of an item that has been retried [k] times. *)
Lemma retried_rounds cfg item s m : ∀ clock j k sys,
  alone_in_queue cfg item k AwaitProcessWebhook sys →
  retry_signal s = true →
  k + Z.of_nat m ≤ maxRetries cfg →
  let trace := run clock j (retried m s) sys in
  alone_in_queue cfg item (k + Z.of_nat m) AwaitProcessWebhook (end_state sys trace)
  ∧ calls trace = (λ i, with_retryCount (k + Z.of_nat i) item) <$> seq 1 m
  ∧ sleeps trace
    = concat ((λ i, [retryDelay cfg (k + Z.of_nat i); minRequestDelay cfg])
                <$> seq 1 m).
Proof.
  induction m as [|m IH]; intros clock j k sys Hin Hs Hle trace.
  - unfold trace. simpl. unfold end_state. simpl. rewrite Z.add_0_r. done.
  - destruct (scenario_retry (clock j) cfg item k s sys Hin Hs) as (a1 & R1 & I1 & _);
      [lia|].
    destruct (scenario_timer_retry (clock (S j)) cfg item _ a1 I1) as (a2 & R2 & I2).
    destruct (scenario_timer_min (clock (S (S j))) cfg item _ a2 I2) as (a3 & R3 & I3).
    destruct (IH clock (S (S (S j))) (k + 1) a3 I3 Hs ltac:(lia)) as (IHa & IHc & IHs).
    assert (trace
            = [(a1, [Sleep (retryDelay cfg (k + 1))]);
               (a2, [Sleep (minRequestDelay cfg)]);
               (a3, [CallProcessWebhook (with_retryCount (k + 1) item)])]
              ++ run clock (S (S (S j))) (retried m s) a3) as ->.
    { unfold trace. cbn [run retried]. rewrite R1. cbn [fst]. rewrite R2. cbn [fst].
      rewrite R3. reflexivity. }
    rewrite end_state_app, calls_app, sleeps_app.
    replace (end_state sys _) with a3 by done.
    split; [|split].
    + replace (k + Z.of_nat (S m)) with (k + 1 + Z.of_nat m) by lia. done.
    + rewrite IHc. cbn [seq]. rewrite <- (fmap_S_seq 1 m), fmap_cons.
      rewrite <- list_fmap_compose.
      change (calls _) with [with_retryCount (k + 1) item]. simpl. f_equal.
      apply list_fmap_ext. intros _ i _. simpl. f_equal. lia.
    + rewrite IHs. cbn [seq]. rewrite <- (fmap_S_seq 1 m), fmap_cons.
      rewrite <- list_fmap_compose.
      change (sleeps _) with [retryDelay cfg (k + 1); minRequestDelay cfg].
      simpl. do 3 f_equal.
      apply list_fmap_ext. intros _ i _. simpl. do 2 f_equal. lia.
Qed.

(** The attempt after the last retry that is allowed. *)
Lemma scenario_give_up now cfg item k s sys :
  alone_in_queue cfg item k AwaitProcessWebhook sys →
  retry_signal s = true →
  maxRetries cfg ≤ k →
  ∃ sys',
    react now (InSettled s) sys = (sys', [])
    ∧ gave_up (orderId item) k sys'.
Proof.
  intros (Hq & Hp & Hc & Hr & Hph) Hs Hle. unfold react. rewrite Hph.
  unfold resume_processWebhook. rewrite Hq, Hc.
  assert ((retryCount (with_retryCount k item) <? maxRetries cfg) = false) as Hlt.
  { apply Z.ltb_ge. simpl. lia. }
  destruct s as [res | e]; simpl in Hs; rewrite Hlt, andb_false_r.
  - apply andb_true_iff in Hs as [Hsucc _]. apply negb_true_iff in Hsucc.
    rewrite Hsucc. unfold loop_tail, shift, markAsFailed. simpl. rewrite Hq. simpl.
    eexists. split; [reflexivity|]. unfold gave_up. simpl.
    rewrite lookup_insert_eq. done.
  - unfold loop_tail, shift, markAsFailed. simpl. rewrite Hq. simpl.
    eexists. split; [reflexivity|]. unfold gave_up. simpl.
    rewrite lookup_insert_eq. done.
Qed.

Lemma start_enqueue now options data tp sh E :
  identity data = Some E →
  ∃ sys,
    react now (InEnqueue data tp sh) (start options)
    = (sys, [CallProcessWebhook (mkItem E data tp sh now 0);
             Returned (mkEnqueueResult true None (Some E) None (Some 1))])
    ∧ alone_in_queue (config (new options)) (mkItem E data tp sh now 0) 0
        AwaitProcessWebhook sys.
Proof.
  intros [Hid Ht]%identity_Some. unfold react, enqueue.
  rewrite Hid, Ht. simpl. unfold isOrderProcessed. rewrite Ht. simpl.
  rewrite lookup_empty. simpl. eexists. split; [reflexivity|].
  repeat split.
Qed.

(** X4. An order whose every attempt ends in a retry signal, on a new queue
    with a [maxRetries] of [n] (absent or not negative): [processWebhook]
    is called [n + 1] times on it, with [retryCount] 0 to [n]; between the
    calls the consumer sleeps the retry delay of 1 to [n], each followed by
    the minimum delay; after the last attempt the order is marked failed
    and removed, the consumer is idle, and [stats.retries] is [n]. *)
Theorem gives_up_after_maxRetries clock options data tp sh E s :
  identity data = Some E →
  retry_signal s = true →
  (∀ m, opt_maxRetries options = Some m → 0 ≤ m) →
  let cfg := config (new options) in
  let n := Z.to_nat (maxRetries cfg) in
  let trace :=
    run clock 0 (InEnqueue data tp sh :: retried n s ++ [InSettled s]) (start options) in
  gave_up E (maxRetries cfg) (end_state (start options) trace)
  ∧ calls trace = attempts_of (mkItem E data tp sh (clock 0%nat) 0) (S n)
  ∧ sleeps trace = retry_delays cfg n.
Proof.
  intros Hid Hs Hmax%new_maxRetries cfg n trace.
  set (item := mkItem E data tp sh (clock 0%nat) 0).
  destruct (start_enqueue (clock 0%nat) options data tp sh E Hid) as (a0 & R0 & I0).
  fold cfg item in I0, R0.
  destruct (retried_rounds cfg item s n clock 1%nat 0 a0 I0 Hs) as (I1 & C1 & S1).
  { unfold n. fold cfg in Hmax. lia. }
  set (rounds := run clock 1 (retried n s) a0) in *.
  set (a1 := end_state a0 rounds) in *.
  destruct (scenario_give_up (clock (1 + length (retried n s))%nat) cfg item
              (0 + Z.of_nat n) s a1 I1 Hs) as (a2 & R2 & G2).
  { unfold n. fold cfg in Hmax. lia. }
  assert (trace
          = (a0, [CallProcessWebhook item;
                  Returned (mkEnqueueResult true None (Some E) None (Some 1))])
            :: rounds ++ [(a2, [])]) as ->.
  { unfold trace. cbn [run]. rewrite R0. cbn [fst]. f_equal.
    rewrite run_app. fold rounds a1. f_equal. cbn [run]. by rewrite R2. }
  replace (0 + Z.of_nat n) with (maxRetries cfg) in G2
    by (unfold n; fold cfg in Hmax; lia).
  split; [|split].
  - unfold end_state. rewrite last_cons, last_snoc. done.
  - change (?x :: ?l ++ ?y) with ([x] ++ l ++ y). rewrite !calls_app, C1.
    unfold attempts_of. cbn [seq]. rewrite fmap_cons. simpl.
    by rewrite app_nil_r.
  - change (?x :: ?l ++ ?y) with ([x] ++ l ++ y). rewrite !sleeps_app, S1.
    simpl. rewrite app_nil_r. reflexivity.
Qed.

Lemma gives_up_after_maxRetries_witness :
  let cfg := config (new RunExamples.two_retries) in
  let n := Z.to_nat (maxRetries cfg) in
  let trace :=
    run Examples.every_second 0
      (InEnqueue (Examples.order 7) "orders/create" "axam"
       :: retried n (setProcessor Examples.asks_retry)
       ++ [InSettled (setProcessor Examples.asks_retry)])
      (start RunExamples.two_retries) in
  gave_up "7" (maxRetries cfg) (end_state (start RunExamples.two_retries) trace)
  ∧ calls trace
    = attempts_of (mkItem "7" (Examples.order 7) "orders/create" "axam"
                     (Examples.every_second 0%nat) 0) (S n)
  ∧ sleeps trace = retry_delays cfg n.
Proof.
  apply (gives_up_after_maxRetries Examples.every_second RunExamples.two_retries
           (Examples.order 7) "orders/create" "axam" "7"
           (setProcessor Examples.asks_retry)).
  - vm_compute. reflexivity.
  - reflexivity.
  - intros m Hm. vm_compute in Hm. injection Hm as <-. lia.
Defined.

(** *** First in, first out *)

(** The three ways [enqueue] ends on a consistent state. *)
Lemma enqueue_cases now data tp sh sys :
  consistent sys →
  ∃ sys' r evs,
    enqueue now data tp sh sys = (sys', r, evs)
    ∧ ((queued r = false ∧ queue (obj sys') = queue (obj sys)
        ∧ consumer sys' = consumer sys ∧ evs = [])
       ∨ (∃ oid, queued r = true ∧ res_orderId r = Some oid
            ∧ consumer sys ≠ Idle
            ∧ queue (obj sys') = queue (obj sys) ++ [mkItem oid data tp sh now 0]
            ∧ consumer sys' = consumer sys ∧ evs = [])
       ∨ (∃ oid, queued r = true ∧ res_orderId r = Some oid
            ∧ consumer sys = Idle ∧ queue (obj sys) = []
            ∧ queue (obj sys') = [mkItem oid data tp sh now 0]
            ∧ consumer sys' = AwaitProcessWebhook
            ∧ evs = [CallProcessWebhook (mkItem oid data tp sh now 0)])).
Proof.
  intros [Hc _]. unfold enqueue.
  destruct (extract_orderId data) as [oid|]; [|eexists _, _, _; split; [done|]; by left].
  destruct (negb (JS.truthy oid)); [eexists _, _, _; split; [done|]; by left|].
  destruct (isOrderProcessed_frame now oid
              (set_stats (incr_total (stats (obj sys))) (obj sys)))
    as (Hq & _ & _ & Hp).
  destruct (isOrderProcessed now oid _) as [dup q1]. simpl in Hq, Hp.
  destruct dup; [eexists _, _, _; split; [done|]; left; by rewrite <- Hq|].
  destruct (existsb _ (queue q1));
    [eexists _, _, _; split; [done|]; left; by rewrite <- Hq|].
  unfold processQueue. simpl. rewrite Hp, Hq.
  destruct (consumer sys) eqn:Hph; destruct Hc as [Hproc Hqueue]; rewrite Hproc.
  - unfold loop_head. simpl. rewrite Hqueue. simpl.
    eexists _, _, _. split; [done|]. right. right. exists oid. done.
  - eexists _, _, _. split; [done|]. right. left. exists oid. done.
  - eexists _, _, _. split; [done|]. right. left. exists oid. done.
  - eexists _, _, _. split; [done|]. right. left. exists oid. done.
Qed.

Lemma loop_tail_cases now q :
  loop_tail now q
  = match queue q with
    | [] => (mkSystem (set_isProcessing false q) Idle, [])
    | _ :: _ => (mkSystem q AwaitMinDelay, [Sleep (minRequestDelay (config q))])
    end.
Proof. unfold loop_tail, loop_head. by destruct (queue q). Qed.

Lemma fifo_after_removal now q item rest done' :
  queue q = rest →
  isProcessing q = true →
  NoDup (orderId <$> item :: rest) →
  Forall (λ it, 0 ≤ retryCount it) (item :: rest) →
  Forall (λ it, retryCount it = 0) rest →
  fifo_inv (loop_tail now q).1
    ((done' ++ [orderId item]) ++ (orderId <$> rest))
    (done' ++ [orderId item]).
Proof.
  intros Hq Hp Hnd Hge Hz. rewrite loop_tail_cases, Hq.
  apply NoDup_cons in Hnd as [_ Hnd]. apply Forall_cons in Hge as [_ Hge].
  unfold fifo_inv, consistent, attempts_counted, waiting_untried, head_called.
  destruct rest as [|next rest]; simpl; rewrite Hq.
  - split; [split; [done | constructor]|]. split; [constructor|].
    split; [constructor|].
    exists (done' ++ [orderId item]). by rewrite !app_nil_r.
  - split; [done|]. split; [done|].
    apply Forall_cons in Hz as [Hnext Hz]. split; [done|].
    exists (done' ++ [orderId item]). rewrite Hnext. simpl. by rewrite app_nil_r.
Qed.

Lemma react_fifo now i sys A C :
  fifo_inv sys A C →
  fifo_inv (react now i sys).1
    (A ++ accepted_ids [react now i sys])
    (C ++ first_attempts [react now i sys]).
Proof.
  intros (Hcons & Hcount & Hwait & done' & -> & ->).
  pose proof (react_consistent now i sys Hcons) as Hcons'.
  pose proof (react_attempts_counted now i sys Hcount) as Hcount'.
  split; [done|]. split; [done|]. clear Hcons' Hcount'.
  unfold accepted_ids, first_attempts, trace_events. simpl. rewrite !app_nil_r.
  unfold waiting_untried, head_called in *.
  destruct i as [data tp sh | r | | oid |].
  - (* enqueue *)
    simpl.
    destruct (enqueue_cases now data tp sh sys Hcons)
      as (sys' & r & evs & -> &
          [(Hr & Hq & Hph & ->) |
           [(oid & Hr & Hid & Hbusy & Hq & Hph & ->) |
            (oid & Hr & Hid & Hidle & Hempty & Hq & Hph & ->)]]); simpl;
      rewrite Hr, ?Hid; simpl; rewrite ?app_nil_r.
    + rewrite Hq, Hph. split; [done|]. by exists done'.
    + rewrite Hq, Hph. destruct Hcons as [Hc _].
      assert (queue (obj sys) ≠ []) as Hne by (by destruct (consumer sys), Hc).
      destruct (queue (obj sys)) as [|item rest]; [done|]. simpl in *.
      split. { apply Forall_app. split; [done|]. by repeat constructor. }
      exists done'. rewrite fmap_app, <- !app_assoc. simpl. done.
    + rewrite Hq, Hph, Hempty. simpl. split; [constructor|].
      exists done'. by rewrite !app_nil_r.
  - (* the outcome of an attempt *)
    simpl. destruct (consumer sys) eqn:Hph; simpl; rewrite ?app_nil_r, ?Hph;
      try (split; [done|]; by exists done').
    destruct Hcons as [Hc Hnd]. rewrite Hph in Hc. destruct Hc as [Hp Hne]. 
    unfold resume_processWebhook.
    destruct (queue (obj sys)) as [|item rest] eqn:Hq; [done|].
    simpl in Hwait.
    assert (Forall (λ it, 0 ≤ retryCount it) (item :: rest)) as Hall.
    { unfold attempts_counted in Hcount. by rewrite Hq in Hcount. }
    assert (∀ q, queue q = rest → isProcessing q = true →
              Forall (λ it, retryCount it = 0) (tail (queue (obj (loop_tail now q).1)))
              ∧ ∃ done0,
                  (done' ++ (orderId <$> item :: rest))
                  ++ omap (λ ev, match ev with
                                 | Returned r => if queued r then res_orderId r else None
                                 | _ => None
                                 end) (loop_tail now q).2
                  = done0 ++ (orderId <$> queue (obj (loop_tail now q).1))
                  ∧ (done' ++ take 1 (orderId <$> item :: rest))
                    ++ omap (λ ev, match ev with
                                   | CallProcessWebhook it =>
                                       if retryCount it =? 0 then Some (orderId it)
                                       else None
                                   | _ => None
                                   end) (loop_tail now q).2
                    = done0 ++ (if match queue (obj (loop_tail now q).1) with
                                   | [] => false
                                   | it :: _ =>
                                       bool_decide (consumer (loop_tail now q).1
                                                    = AwaitProcessWebhook)
                                       || (0 <? retryCount it)
                                   end
                                then take 1 (orderId <$> queue (obj (loop_tail now q).1))
                                else [])) as Hremoved.
    { intros q Hq' Hp'.
      destruct (fifo_after_removal now q item rest done' Hq' Hp')
        as (_ & _ & Hw & done0 & HA & HC); [done | done | done |].
      split; [done|]. exists done0.
      rewrite loop_tail_cases, Hq' in *. 
      destruct rest; simpl in *; rewrite ?app_nil_r; split; try done;
        rewrite <- HA; by rewrite <- ?app_assoc. }
    assert (0 ≤ retryCount item) as Hrc by by apply Forall_cons in Hall as [? _].
    assert (Forall (λ it, retryCount it = 0)
              (tail (queue (obj (retry_branch item rest (obj sys)).1)))
            ∧ ∃ done0,
                (done' ++ (orderId <$> item :: rest)) ++ []
                = done0 ++ (orderId <$> queue (obj (retry_branch item rest (obj sys)).1))
                ∧ (done' ++ take 1 (orderId <$> item :: rest)) ++ []
                  = done0 ++ take 1 (orderId <$> queue (obj (retry_branch item rest (obj sys)).1)))
      as Hretried.
    { simpl. split; [done|]. exists done'. by rewrite !app_nil_r. }
    destruct r as [res | e].
    + destruct (success res); [|destruct (retry res && _)].
      * apply Hremoved; simpl; by rewrite ?Hq.
      * destruct Hretried as [Hw (done0 & HA & HC)]. split; [done|]. exists done0.
        simpl in *. replace (0 <? retryCount item + 1) with true
          by (symmetry; apply Z.ltb_lt; lia). done.
      * apply Hremoved; simpl; by rewrite ?Hq.
    + destruct (isRateLimit e && _).
      * destruct Hretried as [Hw (done0 & HA & HC)]. split; [done|]. exists done0.
        simpl in *. replace (0 <? retryCount item + 1) with true
          by (symmetry; apply Z.ltb_lt; lia). done.
      * apply Hremoved; simpl; by rewrite ?Hq.
  - (* a delay has elapsed *)
    simpl. destruct (consumer sys) eqn:Hph; simpl; rewrite ?app_nil_r, ?Hph;
      try (split; [done|]; by exists done').
    + destruct Hcons as [Hc Hnd]. rewrite Hph in Hc. destruct Hc as [Hp Hne].
      rewrite loop_tail_cases.
      destruct (queue (obj sys)) as [|item rest] eqn:Hq; [done|]. simpl.
      rewrite Hq, !app_nil_r. split; [done|]. by exists done'.
    + destruct Hcons as [Hc Hnd]. rewrite Hph in Hc. destruct Hc as [Hp Hne].
      unfold loop_head.
      destruct (queue (obj sys)) as [|item rest] eqn:Hq; [done|]. simpl.
      rewrite Hq. split; [done|]. simpl.
      assert (0 ≤ retryCount item) as Hrc.
      { unfold attempts_counted in Hcount. rewrite Hq in Hcount.
        by apply Forall_cons in Hcount as [? _]. }
      destruct (retryCount item =? 0) eqn:Hz.
      * apply Z.eqb_eq in Hz. rewrite Hz. simpl. exists done'.
        by rewrite !app_nil_r.
      * apply Z.eqb_neq in Hz.
        replace (0 <? retryCount item) with true by (symmetry; apply Z.ltb_lt; lia).
        simpl. exists done'. by rewrite !app_nil_r.
  - simpl. rewrite !app_nil_r. split; [done|]. by exists done'.
  - simpl. rewrite !app_nil_r. split; [done|]. by exists done'.
Qed.

Lemma accepted_ids_cons st trace :
  accepted_ids (st :: trace) = accepted_ids [st] ++ accepted_ids trace.
Proof.
  unfold accepted_ids, trace_events. simpl. by rewrite app_nil_r, omap_app.
Qed.

Lemma first_attempts_cons st trace :
  first_attempts (st :: trace) = first_attempts [st] ++ first_attempts trace.
Proof.
  unfold first_attempts, trace_events. simpl. by rewrite app_nil_r, omap_app.
Qed.

Lemma run_fifo clock inputs : ∀ k sys A C,
  fifo_inv sys A C →
  fifo_inv (end_state sys (run clock k inputs sys))
    (A ++ accepted_ids (run clock k inputs sys))
    (C ++ first_attempts (run clock k inputs sys)).
Proof.
  induction inputs as [|i inputs IH]; intros k sys A C Hinv.
  - unfold end_state, accepted_ids, first_attempts. simpl. by rewrite !app_nil_r.
  - cbn [run]. rewrite accepted_ids_cons, first_attempts_cons, !app_assoc.
    change (react (clock k) i sys :: ?t) with ([react (clock k) i sys] ++ t).
    rewrite end_state_app. apply IH. by apply react_fifo.
Qed.

(** X5. First in, first out.  In every run of a new queue the orders are
    handed to [processWebhook] for their first attempt in the order in which
    [enqueue] has accepted them: the ids of the first attempts are a prefix
    of the accepted ids. *)
Theorem first_in_first_out clock inputs options :
  first_attempts (run clock 0 inputs (start options))
  `prefix_of` accepted_ids (run clock 0 inputs (start options)).
Proof.
  destruct (run_fifo clock inputs 0 (start options) [] [])
    as (_ & _ & _ & done' & HA & HC).
  { split; [apply start_consistent|]. split; [apply start_attempts_counted|].
    split; [constructor|]. by exists []. }
  simpl in HA, HC. rewrite HA, HC.
  destruct (head_called _).
  - apply prefix_app, prefix_take.
  - rewrite app_nil_r. by apply prefix_app_r.
Qed.

(** *** When [enqueue] accepts *)

Lemma isOrderProcessed_blocks now oid q :
  JS.truthy oid = true →
  (isOrderProcessed now oid q).1 = true ↔ blocks now q oid.
Proof.
  intros Ht. unfold isOrderProcessed, blocks. rewrite Ht. simpl.
  destruct (processedOrders q !! oid) as [e|] eqn:He.
  - destruct (expired now (config q) e) eqn:Hexp; simpl.
    + split; [done|]. intros (e' & [= <-] & _ & Hage).
      rewrite expired_false in Hexp; done.
    + apply Z.ltb_ge in Hexp. split.
      * intros Hlive. exists e. split; [done|]. split; [|lia].
        revert Hlive. unfold live_status.
        destruct (status e); [by left | by right | done].
      * intros (e' & [= <-] & Hlive & _). by apply live_status_bool.
  - split; [done|]. by intros (e & ? & _).
Qed.

Lemma existsb_orderId_iff oid (l : list QueueItem) :
  existsb (λ item, String.eqb (orderId item) oid) l = true ↔ oid ∈ (orderId <$> l).
Proof.
  split; [|apply existsb_orderId_elem].
  induction l as [|x l IH]; simpl; [done|].
  intros [Hx | Hl]%orb_true_iff.
  - apply String.eqb_eq in Hx as ->. apply list_elem_of_here.
  - apply elem_of_cons. right. by apply IH.
Qed.

(** X6. [enqueue] accepts a webhook exactly when it carries an order id, the
    cache holds no entry for that id that is processing or completed and
    within the TTL, and the id is not waiting in the queue.  So an order
    that has failed, or whose entry has outlived the TTL, is taken again. *)
Theorem enqueue_accepts_iff now data tp sh sys :
  queued (enqueue now data tp sh sys).1.2 = true
  ↔ ∃ oid, identity data = Some oid
           ∧ ¬ blocks now (obj sys) oid
           ∧ oid ∉ (orderId <$> queue (obj sys)).
Proof.
  unfold enqueue, identity.
  destruct (extract_orderId data) as [oid|]; [|split; [done | by intros (? & ? & _)]].
  destruct (JS.truthy oid) eqn:Ht; simpl; [|split; [done | by intros (? & ? & _)]].
  pose proof (isOrderProcessed_blocks now oid
                (set_stats (incr_total (stats (obj sys))) (obj sys)) Ht) as Hb.
  destruct (isOrderProcessed_frame now oid
              (set_stats (incr_total (stats (obj sys))) (obj sys)))
    as (Hq & _ & _ & _).
  destruct (isOrderProcessed now oid _) as [dup q1]. simpl in Hb, Hq.
  destruct dup.
  { simpl. split; [done|]. intros (? & [= <-] & Hnb & _). destruct Hnb.
    by apply Hb. }
  pose proof (existsb_orderId_iff oid (queue q1)) as Hex.
  destruct (existsb _ (queue q1)); rewrite Hq in Hex.
  { simpl. split; [done|]. intros (? & [= <-] & _ & Hnq). destruct Hnq.
    by apply Hex. }
  destruct (processQueue now _) as [sys' evs]. simpl. split; [|done].
  intros _. exists oid. split; [done|]. split.
  - intros Hbl. assert (false = true) by by apply Hb. done.
  - intros Hin. assert (false = true) by by apply Hex. done.
Qed.

(** *** The periodic cleaning of the cache *)

Lemma cleanupCache_lookup t q oid :
  processedOrders (cleanupCache t q) !! oid
  = match processedOrders q !! oid with
    | Some e => if expired t (config q) e then None else Some e
    | None => None
    end.
Proof.
  unfold cleanupCache. simpl.
  destruct (processedOrders q !! oid) as [e|] eqn:He.
  - destruct (expired t (config q) e) eqn:Hexp.
    + apply map_lookup_filter_None. right. intros e' He'. simpl. congruence.
    + apply map_lookup_filter_Some. done.
  - apply map_lookup_filter_None. by left.
Qed.

Lemma expired_later t1 t2 cfg e :
  t1 ≤ t2 → expired t1 cfg e = true → expired t2 cfg e = true.
Proof. unfold expired. intros Hle H%Z.ltb_lt. apply Z.ltb_lt. lia. Qed.

Lemma isOrderProcessed_cleaned t1 t2 oid st q :
  t1 ≤ t2 →
  (isOrderProcessed t2 oid (set_stats st (cleanupCache t1 q))).1
  = (isOrderProcessed t2 oid (set_stats st q)).1
  ∧ ((isOrderProcessed t2 oid (set_stats st q)).1 = true →
     processedOrders (isOrderProcessed t2 oid (set_stats st (cleanupCache t1 q))).2 !! oid
     = processedOrders (isOrderProcessed t2 oid (set_stats st q)).2 !! oid).
Proof.
  intros Hle. unfold isOrderProcessed. destruct (negb (JS.truthy oid)); [done|].
  change (processedOrders (set_stats st (cleanupCache t1 q)))
    with (processedOrders (cleanupCache t1 q)).
  change (processedOrders (set_stats st q)) with (processedOrders q).
  change (config (set_stats st (cleanupCache t1 q))) with (config q).
  change (config (set_stats st q)) with (config q).
  rewrite cleanupCache_lookup.
  destruct (processedOrders q !! oid) as [e|] eqn:He; [|done].
  destruct (expired t1 (config q) e) eqn:Hexp1.
  - by rewrite (expired_later t1 t2 _ _ Hle Hexp1).
  - destruct (expired t2 (config q) e); [done|]. split; [done|]. intros _.
    cbn [snd].
    change (processedOrders (set_stats st (cleanupCache t1 q)))
      with (processedOrders (cleanupCache t1 q)).
    change (processedOrders (set_stats st q)) with (processedOrders q).
    by rewrite cleanupCache_lookup, He, Hexp1.
Qed.

(** X7. The cleaning of the cache does not show in what [enqueue] answers.
    The cleaning at [t1] removes the entries that have outlived the TTL at
    [t1] and no other; an [enqueue] at [t2 >= t1] gives the same answer and
    the same events whether or not the cache has been cleaned at [t1]. *)
Theorem cleanupCache_is_invisible t1 t2 data tp sh sys :
  t1 ≤ t2 →
  let cleaned := (react t1 InCleanup sys).1 in
  (∀ oid e, processedOrders (obj cleaned) !! oid = Some e
            ↔ processedOrders (obj sys) !! oid = Some e
              ∧ t1 - timestamp e ≤ cacheTTL (config (obj sys)))
  ∧ (enqueue t2 data tp sh cleaned).1.2 = (enqueue t2 data tp sh sys).1.2
  ∧ (enqueue t2 data tp sh cleaned).2 = (enqueue t2 data tp sh sys).2.
Proof.
  intros Hle cleaned.
  change cleaned with (mkSystem (cleanupCache t1 (obj sys)) (consumer sys)).
  clear cleaned. split.
  { intros oid e. cbn [obj]. rewrite cleanupCache_lookup.
    destruct (processedOrders (obj sys) !! oid) as [e'|];
      [|split; [done | by intros [? _]]].
    unfold expired. destruct (_ <? _) eqn:Hexp.
    - apply Z.ltb_lt in Hexp. split; [done|]. intros [[= ->] ?]. lia.
    - apply Z.ltb_ge in Hexp. split; [by intros [= ->] | by intros [? _]]. }
  unfold enqueue.
  destruct (extract_orderId data) as [oid|]; [|done].
  destruct (negb (JS.truthy oid)) eqn:Ht; [done|].
  cbn [obj consumer].
  change (stats (cleanupCache t1 (obj sys))) with (stats (obj sys)).
  set (st := incr_total (stats (obj sys))).
  destruct (isOrderProcessed_cleaned t1 t2 oid st (obj sys) Hle) as [Hdup Hcache].
  destruct (isOrderProcessed_frame t2 oid (set_stats st (cleanupCache t1 (obj sys))))
    as (Hq1 & Hs1 & _ & Hp1).
  destruct (isOrderProcessed_frame t2 oid (set_stats st (obj sys)))
    as (Hq2 & Hs2 & _ & Hp2).
  destruct (isOrderProcessed t2 oid (set_stats st (cleanupCache t1 (obj sys))))
    as [dup1 q1].
  destruct (isOrderProcessed t2 oid (set_stats st (obj sys))) as [dup2 q2].
  simpl in Hdup, Hcache, Hq1, Hs1, Hp1, Hq2, Hs2, Hp2. subst dup2.
  change (queue (set_stats st (cleanupCache t1 (obj sys)))) with (queue (obj sys)) in Hq1.
  change (isProcessing (set_stats st (cleanupCache t1 (obj sys))))
    with (isProcessing (obj sys)) in Hp1.
  destruct dup1.
  { cbn [fst snd processedOrders set_stats]. by rewrite Hcache. }
  rewrite Hq1, Hq2. destruct (existsb _ (queue (obj sys))); [done|].
  unfold processQueue. cbn [obj isProcessing set_queue]. rewrite Hp1, Hp2.
  destruct (isProcessing (obj sys)); cbn [fst snd obj queue]; [done|].
  unfold loop_head. cbn [queue set_isProcessing].
  by destruct (queue (obj sys)).
Qed.

Lemma cleanupCache_is_invisible_witness :
  let cleaned := (react 500 InCleanup Examples.busy_with_7).1 in
  (∀ oid e, processedOrders (obj cleaned) !! oid = Some e
            ↔ processedOrders (obj Examples.busy_with_7) !! oid = Some e
              ∧ 500 - timestamp e ≤ cacheTTL (config (obj Examples.busy_with_7)))
  ∧ (enqueue 1000 (Examples.order 7) "orders/create" "axam" cleaned).1.2
    = (enqueue 1000 (Examples.order 7) "orders/create" "axam" Examples.busy_with_7).1.2
  ∧ (enqueue 1000 (Examples.order 7) "orders/create" "axam" cleaned).2
    = (enqueue 1000 (Examples.order 7) "orders/create" "axam" Examples.busy_with_7).2.
Proof.
  apply (cleanupCache_is_invisible 500 1000 (Examples.order 7) "orders/create" "axam"
           Examples.busy_with_7).
  lia.
Defined.

(** *** The processor installed by [setProcessor] when it throws *)

(** X8. With a processor installed by [setProcessor], an attempt that throws
    [e] is tried again exactly when [e] has status 429 or its message holds
    ['429'] or ['rate limit'], and the item has retries left.  Otherwise the
    order is marked failed with the message of [e] and leaves the queue:
    a 5xx, or a message that only says ['too many requests'] (which the
    [catch] of the loop itself would take for a rate limit), is not
    retried. *)
Theorem installed_processor_throws now e sys item rest :
  consumer sys = AwaitProcessWebhook →
  queue (obj sys) = item :: rest →
  let after := react now (InSettled (setProcessor (Throws e))) sys in
  (consumer after.1 = AwaitRetryDelay
   ↔ installed_isRateLimit e = true
     ∧ retryCount item < maxRetries (config (obj sys)))
  ∧ (consumer after.1 ≠ AwaitRetryDelay →
     after = loop_tail now
               (shift (markAsFailed now (orderId item) (Some (JS.message e)) (obj sys)))
     ∧ queue (obj after.1) = rest
     ∧ stat_failed (stats (obj after.1)) = stat_failed (stats (obj sys)) + 1
     ∧ retries (stats (obj after.1)) = retries (stats (obj sys))).
Proof.
  intros Hph Hq after. unfold after, react. rewrite Hph.
  unfold resume_processWebhook, setProcessor. rewrite Hq.
  cbn [success retry error]. fold (installed_isRateLimit e).
  destruct (installed_isRateLimit e); simpl.
  - destruct (retryCount item <? maxRetries (config (obj sys))) eqn:Hlt; simpl.
    + apply Z.ltb_lt in Hlt. split; [done|]. done.
    + apply Z.ltb_ge in Hlt.
      pose proof (loop_tail_phase now
        (shift (markAsFailed now (orderId item) (Some (serializeError e)) (obj sys)))) as Hphase.
      destruct (loop_tail now _) as [s1 e1] eqn:Htail.
      specialize (Hphase s1 e1 eq_refl). simpl. split.
      * split; [intros; destruct Hphase; congruence | intros [_ ?]; lia].
      * intros _. split; [done|].
        pose proof (loop_tail_queue now
          (shift (markAsFailed now (orderId item) (Some (serializeError e)) (obj sys)))) as Hqu.
        pose proof (loop_tail_stats now
          (shift (markAsFailed now (orderId item) (Some (serializeError e)) (obj sys)))) as Hst.
        rewrite Htail in Hqu, Hst. simpl in Hqu, Hst. rewrite Hqu, Hst, Hq. done.
  - pose proof (loop_tail_phase now
      (shift (markAsFailed now (orderId item) (Some (serializeError e)) (obj sys)))) as Hphase.
    destruct (loop_tail now _) as [s1 e1] eqn:Htail.
    specialize (Hphase s1 e1 eq_refl). simpl. split.
    + split; [intros; destruct Hphase; congruence | by intros [? _]].
    + intros _. split; [done|].
      pose proof (loop_tail_queue now
        (shift (markAsFailed now (orderId item) (Some (serializeError e)) (obj sys)))) as Hqu.
      pose proof (loop_tail_stats now
        (shift (markAsFailed now (orderId item) (Some (serializeError e)) (obj sys)))) as Hst.
      rewrite Htail in Hqu, Hst. simpl in Hqu, Hst. rewrite Hqu, Hst, Hq. done.
Qed.

Lemma installed_processor_throws_witness :
  let after :=
    react 1000 (InSettled (setProcessor (Throws Examples.http_429)))
      Examples.busy_with_7 in
  (consumer after.1 = AwaitRetryDelay
   ↔ installed_isRateLimit Examples.http_429 = true
     ∧ retryCount RunExamples.item_7 < maxRetries (config (obj Examples.busy_with_7)))
  ∧ (consumer after.1 ≠ AwaitRetryDelay →
     after = loop_tail 1000
               (shift (markAsFailed 1000 (orderId RunExamples.item_7)
                         (Some (JS.message Examples.http_429))
                         (obj Examples.busy_with_7)))
     ∧ queue (obj after.1) = []
     ∧ stat_failed (stats (obj after.1))
       = stat_failed (stats (obj Examples.busy_with_7)) + 1
     ∧ retries (stats (obj after.1)) = retries (stats (obj Examples.busy_with_7))).
Proof.
  apply (installed_processor_throws 1000 Examples.http_429 Examples.busy_with_7
           RunExamples.item_7 []).
  - reflexivity.
  - reflexivity.
Defined.

(** *** Twice the same order before the consumer starts on it *)

Lemma calls_one step :
  calls [step]
  = omap (λ ev, match ev with CallProcessWebhook item => Some item | _ => None end)
      step.2.
Proof. unfold calls, trace_events. simpl. by rewrite app_nil_r. Qed.

Lemma calls_cons step trace : calls (step :: trace) = calls [step] ++ calls trace.
Proof. by rewrite <- calls_app. Qed.

Lemma isOrderProcessed_cache now oid q G e :
  processedOrders (isOrderProcessed now oid q).2 !! G = Some e →
  processedOrders q !! G = Some e.
Proof.
  unfold isOrderProcessed. destruct (negb (JS.truthy oid)); [done|].
  destruct (processedOrders q !! oid) as [c|]; [|done].
  destruct (expired now (config q) c); [|done].
  simpl. by intros [_ ?]%lookup_delete_Some.
Qed.

(** A step in which the consumer does not start on [G] leaves it not at
    work on [G], and leaves [G] in the queue when it is there. *)
Lemma react_unstarted G now i sys :
  unstarted G sys →
  G ∉ (orderId <$> calls [react now i sys]) →
  unstarted G (react now i sys).1
  ∧ (G ∈ (orderId <$> queue (obj sys)) →
     G ∈ (orderId <$> queue (obj (react now i sys).1))).
Proof.
  intros (Hc & Hnl & Hhead) Hcalls.
  rewrite calls_one in Hcalls.
  assert (unstarted G sys
          ∧ (G ∈ (orderId <$> queue (obj sys)) → G ∈ (orderId <$> queue (obj sys))))
    as Hsame by done.
  cut (not_live G (react now i sys).1
       ∧ (consumer (react now i sys).1 = AwaitProcessWebhook →
          ∀ h, head (queue (obj (react now i sys).1)) = Some h → orderId h ≠ G)
       ∧ (G ∈ (orderId <$> queue (obj sys)) →
          G ∈ (orderId <$> queue (obj (react now i sys).1)))).
  { intros (H1 & H2 & H3). split; [|done]. split; [by apply react_consistent|]. done. }
  clear Hsame. destruct Hc as [Hphase Hnd].
  destruct i as [data tp sh | r | | oid |]; simpl in *.
  - (* enqueue *)
    destruct (enqueue_cases now data tp sh sys (conj Hphase Hnd))
      as (sys' & r & evs & Henq & Hcases).
    assert (processedOrders (obj sys') !! G = None
            ∨ ∃ e, processedOrders (obj sys') !! G = Some e
                   ∧ (processedOrders (obj sys) !! G = Some e
                      ∨ ∃ item, CallProcessWebhook item ∈ evs ∧ orderId item = G))
      as Hcache.
    { revert Henq. unfold enqueue.
      assert (∀ q, (∀ e, processedOrders q !! G = Some e →
                         processedOrders (obj sys) !! G = Some e) →
                   processedOrders q !! G = None
                   ∨ ∃ e, processedOrders q !! G = Some e
                          ∧ (processedOrders (obj sys) !! G = Some e
                             ∨ ∃ item, CallProcessWebhook item ∈ evs
                                       ∧ orderId item = G)) as Hsub.
      { intros q Hq. destruct (processedOrders q !! G) as [e|] eqn:He; [|by left].
        right. exists e. split; [done|]. left. by apply Hq. }
      destruct (extract_orderId data) as [oid|]; [|intros [= <- _ _]; by apply Hsub].
      destruct (negb (JS.truthy oid)); [intros [= <- _ _]; by apply Hsub|].
      pose proof (isOrderProcessed_cache now oid
                    (set_stats (incr_total (stats (obj sys))) (obj sys)) G) as Hc1.
      destruct (isOrderProcessed_frame now oid
                  (set_stats (incr_total (stats (obj sys))) (obj sys)))
        as (Hq & _ & _ & Hp).
      destruct (isOrderProcessed now oid _) as [dup q1]. simpl in Hc1, Hq, Hp.
      destruct dup; [intros [= <- _ _]; by apply Hsub|].
      destruct (existsb _ (queue q1)); [intros [= <- _ _]; by apply Hsub|].
      unfold processQueue. simpl. rewrite Hp.
      destruct (isProcessing (obj sys)) eqn:Hproc;
        [intros [= <- _ _]; by apply Hsub|].
      unfold loop_head. simpl. rewrite Hq.
      destruct (queue (obj sys) ++ [_]) as [|h rest] eqn:Happ;
        [intros [= <- _ _]; by apply Hsub|].
      intros [= <- _ <-]. simpl.
      destruct (decide (orderId h = G)) as [Heq | Hne].
      - subst G. right. rewrite lookup_insert_eq. eexists. split; [done|].
        right. exists h. split; [apply list_elem_of_here | done].
      - rewrite lookup_insert_ne by done. apply Hsub. intros e. apply Hc1. }
    rewrite Henq. simpl.
    assert (∀ item, CallProcessWebhook item ∈ evs → orderId item ≠ G) as Hev.
    { intros item Hin Heq. apply Hcalls. rewrite Henq. simpl.
      apply list_elem_of_fmap. exists item. split; [done|].
      apply list_elem_of_omap. exists (CallProcessWebhook item). split; [|done].
      apply elem_of_app. by left. }
    split.
    { intros e He. destruct Hcache as [Hn | (e' & He' & [Hold | (item & Hin & Heq)])].
      - congruence.
      - apply Hnl. congruence.
      - by destruct (Hev item Hin). }
    destruct Hcases as [(_ & Hq & Hph & _) | [(oid & _ & _ & Hbusy & Hq & Hph & _)
                                             | (oid & _ & _ & _ & Hq0 & Hq & _ & Hevs)]].
    + rewrite Hq, Hph. done.
    + rewrite Hq, Hph. split.
      * intros Ha h. specialize (Hhead Ha).
        destruct (queue (obj sys)) as [|h0 rest] eqn:Hq0.
        { rewrite Ha in Hphase. by destruct Hphase. }
        simpl. intros [= <-]. by apply Hhead.
      * intros Hin. rewrite fmap_app. apply elem_of_app. by left.
    + rewrite Hq. split.
      * intros _ h [= <-]. apply Hev. rewrite Hevs. apply list_elem_of_here.
      * intros Hin. rewrite Hq0 in Hin. by apply elem_of_nil in Hin.
  - (* the outcome of the attempt *)
    destruct (consumer sys) eqn:Hph; try (simpl; rewrite ?Hph; done).
    destruct Hphase as [Hproc Hne]. specialize (Hhead eq_refl).
    unfold resume_processWebhook in *.
    destruct (queue (obj sys)) as [|h rest] eqn:Hq; [done|].
    pose proof (Hhead h eq_refl) as Hh.
    assert (∀ e q', queue q' = rest →
              processedOrders q' = <[orderId h := e]> (processedOrders (obj sys)) →
              not_live G (loop_tail now q').1
              ∧ (consumer (loop_tail now q').1 = AwaitProcessWebhook →
                 ∀ h', head (queue (obj (loop_tail now q').1)) = Some h' →
                       orderId h' ≠ G)
              ∧ (G ∈ (orderId <$> h :: rest) →
                 G ∈ (orderId <$> queue (obj (loop_tail now q').1))))
      as Hdone.
    { intros e q' Hq' Hcache. rewrite loop_tail_cases, Hq'.
      assert (G ∈ (orderId <$> h :: rest) → G ∈ (orderId <$> rest)) as Hrest.
      { rewrite fmap_cons. intros [Heq | Hin]%elem_of_cons; [by destruct Hh | done]. }
      destruct rest as [|g rest']; simpl.
      - split; [|split; [done|]].
        + intros e'. simpl. rewrite Hcache, lookup_insert_ne by done. apply Hnl.
        + intros Hin. apply Hrest in Hin. by apply elem_of_nil in Hin.
      - split; [|split; [done|]].
        + intros e'. simpl. rewrite Hcache, lookup_insert_ne by done. apply Hnl.
        + rewrite Hq'. apply Hrest. }
    assert (not_live G (retry_branch h rest (obj sys)).1
            ∧ (consumer (retry_branch h rest (obj sys)).1 = AwaitProcessWebhook →
               ∀ h', head (queue (obj (retry_branch h rest (obj sys)).1)) = Some h' →
                     orderId h' ≠ G)
            ∧ (G ∈ (orderId <$> h :: rest) →
               G ∈ (orderId <$> queue (obj (retry_branch h rest (obj sys)).1))))
      as Hretry.
    { simpl. split; [|split; [done|]].
      - intros e'. simpl. intros [_ He]%lookup_delete_Some. by apply Hnl.
      - done. }
    destruct r as [res | e].
    + destruct (success res).
      { apply (Hdone (mkEntry now completed (Some res) None)); simpl; by rewrite ?Hq. }
      destruct (retry res && _); [done|].
      apply (Hdone (mkEntry now failed None (error res))); simpl; by rewrite ?Hq.
    + destruct (isRateLimit e && _); [done|].
      apply (Hdone (mkEntry now failed None (Some (serializeError e))));
        simpl; by rewrite ?Hq.
  - (* a delay elapses *)
    destruct (consumer sys) eqn:Hph; try (simpl; rewrite ?Hph; done).
    + rewrite loop_tail_cases.
      destruct (queue (obj sys)) as [|h rest] eqn:Hq; simpl; [|by rewrite Hq].
      split; [done|]. split; [done|]. by rewrite Hq.
    + unfold loop_head in *.
      destruct (queue (obj sys)) as [|h rest] eqn:Hq; simpl in *.
      { split; [done|]. split; [done|]. by rewrite Hq. }
      rewrite Hq.
      assert (orderId h ≠ G) as Hh.
      { intros Heq. apply Hcalls. rewrite Heq. apply list_elem_of_here. }
      split; [|split; [|done]].
      * intros e'. simpl. rewrite lookup_insert_ne by done. apply Hnl.
      * by intros _ h' [= <-].
  - (* forceReprocess *)
    split; [|done]. intros e'. simpl. intros [_ He]%lookup_delete_Some. by apply Hnl.
  - (* cleanupCache *)
    split; [|done]. intros e'. simpl. intros [He _]%map_lookup_filter_Some.
    by apply Hnl.
Qed.

Lemma end_state_cons sys step trace :
  end_state sys (step :: trace) = end_state step.1 trace.
Proof.
  change (step :: trace) with ([step] ++ trace). by rewrite end_state_app.
Qed.

(** The same along a run. *)
Lemma run_unstarted G clock inputs : ∀ k sys,
  unstarted G sys →
  G ∉ (orderId <$> calls (run clock k inputs sys)) →
  unstarted G (end_state sys (run clock k inputs sys))
  ∧ (G ∈ (orderId <$> queue (obj sys)) →
     G ∈ (orderId <$> queue (obj (end_state sys (run clock k inputs sys))))).
Proof.
  induction inputs as [|i inputs IH]; intros k sys Hu Hcalls; [done|].
  cbn [run] in *. rewrite calls_cons, fmap_app in Hcalls.
  apply not_elem_of_app in Hcalls as [Hstep Hrest].
  destruct (react_unstarted G (clock k) i sys Hu Hstep) as [Hu1 Hin1].
  rewrite end_state_cons.
  destruct (IH (S k) _ Hu1 Hrest) as [Hu2 Hin2].
  split; [done|]. intros Hin. by apply Hin2, Hin1.
Qed.

Lemma start_unstarted G options : unstarted G (start options).
Proof.
  split; [apply start_consistent|]. split; [|done].
  intros e. simpl. by rewrite lookup_empty.
Qed.

Lemma accepted_orderId now data tp sh sys :
  queued (enqueue now data tp sh sys).1.2 = true →
  res_orderId (enqueue now data tp sh sys).1.2 = identity data.
Proof.
  unfold enqueue, identity.
  destruct (extract_orderId data) as [oid|]; [|done].
  destruct (JS.truthy oid); [|done]. simpl.
  destruct (isOrderProcessed now oid _) as [dup q1].
  destruct dup; [done|]. destruct (existsb _ (queue q1)); [done|].
  by destruct (processQueue now _).
Qed.

(** A first call that is accepted without the consumer starting on [G]
    leaves [G] waiting. *)
Lemma accepted_unstarted G now data tp sh sys :
  consistent sys →
  identity data = Some G →
  queued (enqueue now data tp sh sys).1.2 = true →
  G ∉ (orderId <$> calls [react now (InEnqueue data tp sh) sys]) →
  unstarted G (react now (InEnqueue data tp sh) sys).1
  ∧ G ∈ (orderId <$> queue (obj (react now (InEnqueue data tp sh) sys).1)).
Proof.
  intros Hc Hid Hacc Hcalls.
  pose proof (react_consistent now (InEnqueue data tp sh) sys Hc) as Hc'.
  pose proof (accepted_orderId now data tp sh sys Hacc) as Hoid. rewrite Hid in Hoid.
  rewrite calls_one in Hcalls. simpl in *.
  destruct (enqueue now data tp sh sys) as [[sys' r] evs] eqn:Henq. simpl in *.
  destruct (enqueue_queued _ _ _ _ _ _ _ _ Henq Hacc) as (oid & Hid' & Hin & Hcache).
  assert (oid = G) as -> by congruence.
  destruct (enqueue_cases now data tp sh sys Hc) as (? & ? & ? & Henq' & Hcases).
  rewrite Henq in Henq'. injection Henq' as <- <- <-.
  destruct Hcases as [(Hno & _) | [(oid & _ & Hres & Hbusy & Hq & Hph & ->)
                                  | (oid & _ & Hres & _ & _ & Hq & _ & ->)]].
  { congruence. }
  - assert (oid = G) as -> by congruence.
    assert (G ∉ (orderId <$> queue (obj sys))) as Hnew.
    { intros Hold. destruct Hc' as [_ Hnd]. rewrite Hq, fmap_app in Hnd.
      apply NoDup_app in Hnd as (_ & Hdis & _). apply (Hdis G Hold).
      apply list_elem_of_here. }
    split; [|done]. split; [done|]. split.
    + intros e He. destruct Hcache as [Hn | [(e' & He' & Hs) | (e' & He' & Hs)]].
      * congruence.
      * congruence.
      * exfalso. revert Henq He'. unfold enqueue.
        apply identity_Some in Hid as [-> Ht]. rewrite Ht. simpl.
        destruct (isOrderProcessed now G _) as [dup q1] eqn:Hdup.
        destruct dup; [intros [= _ <-]; by simpl in Hacc|].
        destruct (isOrderProcessed_false now G _ q1 Ht Hdup)
          as (Hq1 & _ & _ & Hp1 & Hdead).
        destruct (existsb _ (queue q1)); [intros [= _ <-]; by simpl in Hacc|].
        unfold processQueue. simpl. rewrite Hp1. simpl.
        destruct Hc as [Hc _].
        destruct (consumer sys); destruct Hc as [Hproc _]; [done|..];
          rewrite Hproc; intros [= <- _]; simpl; intros He';
          destruct Hdead as [Hd | (e0 & Hd & Hs0)]; congruence.
    + rewrite Hph, Hq. intros Ha h.
      destruct (queue (obj sys)) as [|h0 rest] eqn:Hq0.
      { destruct Hc as [Hc _]. rewrite Ha in Hc. by destruct Hc. }
      simpl. intros [= <-] Heq. apply Hnew. rewrite <- Heq, fmap_cons.
      apply list_elem_of_here.
  - exfalso. apply Hcalls. simpl.
    assert (oid = G) as -> by congruence.
    apply list_elem_of_here.
Qed.

(** When the cache does not hold [G] as processing or completed, [G] is
    in the queue after [enqueue], put there by this call or by one before. *)
Lemma enqueue_in_queue G now data tp sh sys :
  identity data = Some G →
  not_live G sys →
  G ∈ (orderId <$> queue (obj (enqueue now data tp sh sys).1.1)).
Proof.
  intros [Hid Ht]%identity_Some Hnl. unfold enqueue. rewrite Hid, Ht. simpl.
  destruct (isOrderProcessed_not_live now G
              (set_stats (incr_total (stats (obj sys))) (obj sys))) as (q1 & Hdup & Hq1).
  { simpl. destruct (processedOrders (obj sys) !! G) as [e|] eqn:He; [|by left].
    right. exists e. split; [done|]. by apply Hnl. }
  rewrite Hdup.
  destruct (existsb (λ item, String.eqb (orderId item) G) (queue q1)) eqn:Hex.
  - simpl. by apply existsb_orderId_iff.
  - unfold processQueue. simpl. destruct (isProcessing q1); simpl.
    + rewrite fmap_app. apply elem_of_app. right. apply list_elem_of_here.
    + unfold loop_head. simpl.
      destruct (queue q1 ++ [_]) as [|h rest] eqn:Happ; simpl;
        rewrite <- ?Happ, ?fmap_app; rewrite ?Happ;
        try (by destruct (queue q1)).
      change (G ∈ orderId <$> h :: rest). rewrite <- Happ, fmap_app.
      apply elem_of_app. right. apply list_elem_of_here.
Qed.

(** C6. In a run of a new queue, [enqueue] is called with identity [G] and
    later, after any inputs, called with [G] again, and from the first of
    the two calls on the consumer has not started on [G]: [processWebhook]
    has not been called with it.  When the first call was accepted, or
    when the consumer has never started on [G] before it either, the second
    call answers [queued = false] with reason [already_queued] and leaves
    the queue as it is. *)
Theorem enqueue_twice_already_queued options clock pre d1 tp1 sh1 mid
    d2 tp2 sh2 now2 G :
  identity d1 = Some G →
  identity d2 = Some G →
  let sys := reached options clock pre in
  let since := run clock (length pre) (InEnqueue d1 tp1 sh1 :: mid) sys in
  queued (enqueue (clock (length pre)) d1 tp1 sh1 sys).1.2 = true
  ∨ G ∉ (orderId <$> calls (run clock 0 pre (start options))) →
  G ∉ (orderId <$> calls since) →
  ∃ sys2 r2,
    enqueue now2 d2 tp2 sh2 (end_state sys since) = (sys2, r2, [])
    ∧ queued r2 = false
    ∧ reason r2 = Some "already_queued"
    ∧ queue (obj sys2) = queue (obj (end_state sys since)).
Proof.
  intros Hid1 Hid2 sys since Hfirst Hsince. subst since.
  assert (consistent sys) as Hc.
  { unfold sys, reached, end_state.
    pose proof (run_consistent clock 0 pre (start options) (start_consistent options))
      as Hall.
    destruct (last (run clock 0 pre (start options))) as [st|] eqn:Hlast;
      [|apply start_consistent].
    simpl. by apply (proj1 (Forall_forall _ _) Hall), last_Some_elem_of. }
  cbn [run] in *. rewrite calls_cons, fmap_app in Hsince.
  apply not_elem_of_app in Hsince as [Hstep Hmid]. rewrite end_state_cons.
  assert (unstarted G (react (clock (length pre)) (InEnqueue d1 tp1 sh1) sys).1
          ∧ G ∈ (orderId <$> queue (obj (react (clock (length pre))
                                            (InEnqueue d1 tp1 sh1) sys).1)))
    as [Hu Hin].
  { destruct Hfirst as [Hacc | Hnever]; [by apply accepted_unstarted|].
    destruct (run_unstarted G clock pre 0 (start options) (start_unstarted G options)
                Hnever) as [Hu0 _].
    fold (reached options clock pre) in Hu0. fold sys in Hu0.
    destruct (react_unstarted G (clock (length pre)) (InEnqueue d1 tp1 sh1) sys Hu0 Hstep)
      as [Hu1 _].
    split; [done|].
    destruct Hu0 as (_ & Hnl & _).
    pose proof (enqueue_in_queue G (clock (length pre)) d1 tp1 sh1 sys Hid1 Hnl) as Hin.
    simpl. by destruct (enqueue (clock (length pre)) d1 tp1 sh1 sys) as [[? ?] ?]. }
  destruct (run_unstarted G clock mid (S (length pre)) _ Hu Hmid) as [Hu2 Hin2].
  destruct Hu2 as (_ & Hnl2 & _).
  apply (enqueue_already_queued now2 d2 tp2 sh2 _ G Hid2 (Hin2 Hin)).
  destruct (processedOrders (obj _) !! G) as [e|] eqn:He; [|by left].
  right. exists e. split; [done|]. by apply Hnl2.
Qed.

Lemma enqueue_twice_already_queued_witness :
  let sys := reached Examples.default_options Examples.every_second
               [InEnqueue (Examples.order 7) "orders/create" "axam"] in
  let since :=
    run Examples.every_second 1
      [InEnqueue (Examples.order 8) "orders/create" "axam";
       InEnqueue (Examples.order 9) "orders/create" "axam"] sys in
  ∃ sys2 r2,
    enqueue 5000 (Examples.order 8) "orders/paid" "axam" (end_state sys since)
    = (sys2, r2, [])
    ∧ queued r2 = false
    ∧ reason r2 = Some "already_queued"
    ∧ queue (obj sys2) = queue (obj (end_state sys since)).
Proof.
  apply (enqueue_twice_already_queued Examples.default_options Examples.every_second
           [InEnqueue (Examples.order 7) "orders/create" "axam"]
           (Examples.order 8) "orders/create" "axam"
           [InEnqueue (Examples.order 9) "orders/create" "axam"]
           (Examples.order 8) "orders/paid" "axam" 5000 "8").
  - vm_compute. reflexivity.
  - vm_compute. reflexivity.
  - left. vm_compute. reflexivity.
  - vm_compute. apply not_elem_of_nil.
Defined.

End QueueRunsProofs.

(** * Properties of the server around the queue *)

Module ServerProofs.
Import WebhookQueue QueueRuns WebhookQueueProofs QueueRunsProofs Server.

(** *** A step of the queue that is not a retry *)

(** Takes the membership [H] in a list that is written out apart. *)
Ltac in_list H :=
  repeat first
    [ apply elem_of_nil in H; destruct H
    | apply elem_of_app in H as [H | H]
    | apply elem_of_cons in H as [H | H] ];
  try discriminate.

(** Closes the goals about a step that leaves the queue as it was or
    shows no delay. *)
Ltac unchanged :=
  solve [ repeat split; try done; try (by constructor);
          try (let ms := fresh "ms" in let Hin := fresh "Hin" in
               intros ms Hin; by in_list Hin) ].

Lemma loop_tail_events now q ev :
  ev ∈ (loop_tail now q).2 → ev = Sleep (minRequestDelay (config q)).
Proof.
  rewrite loop_tail_cases. destruct (queue q); simpl; intros Hin; by in_list Hin.
Qed.

Lemma react_without_retry now i sys :
  (∀ s, i = InSettled s → retry_signal s = false) →
  consumer sys ≠ AwaitRetryDelay →
  Forall (λ item, retryCount item = 0) (queue (obj sys)) →
  retries (stats (obj (react now i sys).1)) = retries (stats (obj sys))
  ∧ consumer (react now i sys).1 ≠ AwaitRetryDelay
  ∧ Forall (λ item, retryCount item = 0) (queue (obj (react now i sys).1))
  ∧ ∀ ms, Sleep ms ∈ (react now i sys).2 → ms = minRequestDelay (config (obj sys)).
Proof.
  intros Hsig Hph Hzero.
  destruct i as [data tp sh | r | | oid |]; simpl;
    try (unchanged).
  - unfold enqueue.
    destruct (extract_orderId data) as [oid|];
      [|simpl; unchanged].
    destruct (negb (JS.truthy oid));
      [simpl; unchanged|].
    destruct (isOrderProcessed_frame now oid
                (set_stats (incr_total (stats (obj sys))) (obj sys)))
      as (Hq & Hs & _ & _).
    destruct (isOrderProcessed now oid _) as [dup q1]. simpl in Hq, Hs.
    destruct dup;
      [simpl; rewrite Hq, Hs; unchanged|].
    destruct (existsb _ (queue q1));
      [simpl; rewrite Hq, Hs; unchanged|].
    assert (Forall (λ item, retryCount item = 0)
              (queue q1 ++ [mkItem oid data tp sh now 0])) as Hall.
    { rewrite Hq. apply Forall_app. split; [done|]. by repeat constructor. }
    unfold processQueue. simpl. destruct (isProcessing q1).
    + simpl. rewrite Hs. unchanged.
    + unfold loop_head. simpl.
      destruct (queue q1 ++ [mkItem oid data tp sh now 0]) as [|h t] eqn:Hqueue; simpl.
      * rewrite Hs. unchanged.
      * rewrite Hs. unchanged.
  - destruct (consumer sys) eqn:Hc;
      try (simpl; rewrite ?Hc; unchanged).
    unfold resume_processWebhook.
    destruct (queue (obj sys)) as [|item rest] eqn:Hq;
      [simpl; rewrite Hq; unchanged|].
    specialize (Hsig r eq_refl).
    assert (∀ q, queue q = rest → retries (stats q) = retries (stats (obj sys)) →
              config q = config (obj sys) →
              retries (stats (obj (loop_tail now q).1)) = retries (stats (obj sys))
              ∧ consumer (loop_tail now q).1 ≠ AwaitRetryDelay
              ∧ Forall (λ item, retryCount item = 0) (queue (obj (loop_tail now q).1))
              ∧ ∀ ms, Sleep ms ∈ (loop_tail now q).2
                      → ms = minRequestDelay (config (obj sys))) as Htail.
    { intros q Hq' Hr' Hc'. rewrite loop_tail_stats, loop_tail_queue, Hq'.
      split; [done|]. split.
      - destruct (loop_tail now q) as [s1 e1] eqn:Ht.
        apply loop_tail_phase in Ht as [Ht | Ht]; simpl; congruence.
      - split; [by apply Forall_cons in Hzero as [_ ?]|].
        intros ms [= ->]%loop_tail_events. by rewrite Hc'. }
    destruct r as [res | e]; simpl in Hsig.
    + destruct (success res) eqn:Hsucc; [apply Htail; simpl; by rewrite ?Hq|].
      simpl in Hsig. rewrite Hsig. simpl. apply Htail; simpl; by rewrite ?Hq.
    + rewrite Hsig. simpl. apply Htail; simpl; by rewrite ?Hq.
  - destruct (consumer sys) eqn:Hc;
      try (simpl; rewrite ?Hc; unchanged).
    unfold loop_head. destruct (queue (obj sys)) as [|item rest] eqn:Hq; simpl.
    + rewrite Hq. unchanged.
    + rewrite Hq. unchanged.
Qed.

(** *** The processor of the server never asks for a retry *)

Lemma processor_settles {W} env (fulfil : Payload → W → _) data tp sh st w :
  retry_signal (setProcessor (Returns (to_raw (processor env fulfil data tp sh st w).1.1.1)))
  = false.
Proof. simpl. apply andb_false_r. Qed.

Lemma after_queue_retry_free {W} env (fulfil : Payload → W → _) now i (s s0 : State W) :
  retry_free s →
  (∀ settled, i = InSettled settled → retry_signal settled = false) →
  queue_sys s0 = queue_sys s →
  (∀ settled, pending s0 = Some settled → retry_signal settled = false) →
  retry_free (after_queue env fulfil s0 (react now i (queue_sys s))).1
  ∧ ∀ ms, FromQueue (Sleep ms) ∈ (after_queue env fulfil s0 (react now i (queue_sys s))).2
          → ms = 1500.
Proof.
  intros (Hr & Hph & Hz & Hcfg & Hpend) Hi Hsys Hpend0.
  destruct (react_without_retry now i (queue_sys s) Hi Hph Hz) as (Hr' & Hph' & Hz' & Hev).
  pose proof (react_config now i (queue_sys s)) as Hcfg'.
  unfold after_queue.
  destruct (called (react now i (queue_sys s)).2) as [item|].
  - destruct (processor env fulfil _ _ _ _ _) as [[[n st] w] entered] eqn:Hproc.
    unfold retry_free. cbn [queue_sys pending fst snd]. split.
    + split; [congruence|]. split; [done|]. split; [done|]. split; [congruence|].
      intros settled [= <-]. simpl. apply andb_false_r.
    + intros ms [Hin | Hin]%elem_of_app.
      * apply list_elem_of_fmap in Hin as (ev & [= <-] & Hin).
        rewrite (Hev ms Hin), Hcfg. done.
      * apply list_elem_of_fmap in Hin as (? & [=] & _).
  - unfold retry_free. cbn [queue_sys pending fst snd]. split.
    + split; [congruence|]. split; [done|]. split; [done|]. split; [congruence|]. done.
    + intros ms Hin. apply list_elem_of_fmap in Hin as (ev & [= <-] & Hin).
      rewrite (Hev ms Hin), Hcfg. done.
Qed.

Lemma serve_retry_free {W} env (fulfil : Payload → W → _) now req (s : State W) :
  retry_free s →
  retry_free (serve env fulfil now req s).1
  ∧ ∀ ms, FromQueue (Sleep ms) ∈ (serve env fulfil now req s).2 → ms = 1500.
Proof.
  intros Hfree. pose proof Hfree as (Hr & Hph & Hz & Hcfg & Hpend).
  destruct req as [data tp sh | | | oid | | force]; unfold serve.
  - by apply (after_queue_retry_free env fulfil now (InEnqueue data tp sh) s s).
  - destruct (pending s) as [settled|] eqn:Hp.
    + apply (after_queue_retry_free env fulfil now (InSettled settled) s); try done.
      intros ? [= <-]. by apply Hpend.
    + split; [done|]. intros ms Hin; by in_list Hin.
  - by apply (after_queue_retry_free env fulfil now InTimer s s).
  - destruct (negb (JS.truthy oid)).
    + split; [done|]. intros ms Hin; by in_list Hin.
    + by apply (after_queue_retry_free env fulfil now (InForceReprocess oid) s s).
  - by apply (after_queue_retry_free env fulfil now InCleanup s s).
  - destruct (OrderNotification.reprocessLastWebhook _ _ _ _ _)
      as [[[n st] w] entered]. split; [done|].
    intros ms Hin. apply list_elem_of_fmap in Hin as (? & [=] & _).
Qed.

Lemma serve_run_invariant {W} (P : State W → Prop) env (fulfil : Payload → W → _)
    clock k reqs s :
  (∀ now req s, P s → P (serve env fulfil now req s).1) →
  P s →
  Forall (λ st, P st.1) (serve_run env fulfil clock k reqs s).
Proof.
  intros Hstep. revert k s.
  induction reqs as [|req reqs IH]; intros k s HP; simpl.
  - constructor.
  - constructor; [by apply Hstep | apply IH; by apply Hstep].
Qed.

Lemma boot_retry_free {W} (w : W) : retry_free (boot w).
Proof. repeat split; first [done | constructor]. Qed.

(** X9. The queue of [server.js] never retries.  Its processor,
    [processOrderNotification] or the answer for a topic it does not
    handle, returns an object without [retry] and does not throw, so in
    every state of every run of the server: [stats.retries] is 0, the
    consumer is never asleep before a retry, no item of the queue has been
    retried; and every delay the consumer sleeps is the minimum delay of
    1500 ms. *)
Theorem server_never_retries {W} env (fulfil : Payload → W → _) clock reqs (w : W) :
  Forall (λ st,
            retries (stats (obj (queue_sys st.1))) = 0
            ∧ consumer (queue_sys st.1) ≠ AwaitRetryDelay
            ∧ Forall (λ item, retryCount item = 0) (queue (obj (queue_sys st.1)))
            ∧ ∀ ms, FromQueue (Sleep ms) ∈ st.2 → ms = 1500)
    (serve_run env fulfil clock 0 reqs (boot w)).
Proof.
  generalize (boot_retry_free w). generalize (boot w) 0%nat.
  induction reqs as [|req reqs IH]; intros s k Hfree; simpl; [constructor|].
  destruct (serve_retry_free env fulfil (clock k) req s Hfree) as [Hfree' Hsleep].
  constructor; [|by apply IH].
  destruct Hfree' as (? & ? & ? & _). done.
Qed.

(** *** [processOrderNotification] enters its [try] block once for an order *)

Lemma orderId_or_identity data oid fallback :
  identity data = Some oid → OrderNotification.orderId_or fallback data = oid.
Proof.
  intros [Hid Ht]%identity_Some. unfold OrderNotification.orderId_or.
  rewrite Hid. unfold JS.or_else. simpl. by rewrite Ht.
Qed.

Lemma orderId_or_empty data :
  JS.truthy (OrderNotification.orderId_or "" data) = true →
  identity data = Some (OrderNotification.orderId_or "" data).
Proof.
  unfold OrderNotification.orderId_or, identity, JS.or_else.
  destruct (extract_orderId data) as [oid|]; simpl; [|done].
  destruct (JS.truthy oid) eqn:Ht; simpl; done.
Qed.

(** What a call of [processOrderNotification] does to the state: the set
    only grows, the webhook is stored with its id in the set, and the [try]
    block is entered at most once, for an id that was not in the set. *)
Lemma processOrderNotification_state {W} env (fulfil : Payload → W → _) data st w :
  ∃ n st' w' entered,
    OrderNotification.processOrderNotification env fulfil data st w = (n, st', w', entered)
    ∧ OrderNotification.processedOrders st ⊆ OrderNotification.processedOrders st'
    ∧ OrderNotification.lastWebhookNotification st' = Some data
    ∧ (JS.truthy (OrderNotification.orderId_or "" data) = true →
       OrderNotification.orderId_or "" data ∈ OrderNotification.processedOrders st')
    ∧ ((entered = [] ∧ w' = w)
       ∨ (entered = [OrderNotification.orderId_or "" data]
          ∧ (OrderNotification.orderId_or "" data ∉ OrderNotification.processedOrders st)
          ∧ OrderNotification.orderId_or "" data ∈ OrderNotification.processedOrders st'))
    ∧ (JS.truthy (OrderNotification.orderId_or "" data) = true →
       OrderNotification.orderId_or "" data ∈ OrderNotification.processedOrders st →
       entered = [] ∧ w' = w ∧ OrderNotification.success n = true
       ∧ OrderNotification.skipped n = true
       ∧ OrderNotification.processedOrders st' = OrderNotification.processedOrders st)
    ∧ (JS.truthy (OrderNotification.orderId_or "" data) = false →
       entered = [] ∧ w' = w ∧ OrderNotification.success n = false
       ∧ OrderNotification.processedOrders st' = OrderNotification.processedOrders st).
Proof.
  unfold OrderNotification.processOrderNotification.
  set (oid := OrderNotification.orderId_or "" data).
  destruct (JS.truthy oid) eqn:Ht; simpl.
  2:{ eexists _, _, _, _. split; [done|]. simpl. split; [done|]. split; [done|].
      split; [done|]. split; [by left|]. done. }
  destruct (bool_decide (oid ∈ OrderNotification.processedOrders st)) eqn:Hin.
  - apply bool_decide_eq_true in Hin. eexists _, _, _, _. split; [done|]. simpl.
    split; [done|]. split; [done|]. split; [done|]. split; [by left|]. done.
  - apply bool_decide_eq_false in Hin.
    destruct (negb (OrderNotification.erp_configured env)).
    { eexists _, _, _, _. split; [done|]. simpl. split; [set_solver|].
      split; [done|]. split; [set_solver|]. split; [by left|]. done. }
    destruct (negb (OrderNotification.ENABLE_SHOPIFY_CREATE env)).
    { eexists _, _, _, _. split; [done|]. simpl. split; [set_solver|].
      split; [done|]. split; [set_solver|]. split; [by left|]. done. }
    destruct (fulfil data w) as [outcome w']. eexists _, _, _, _. split; [done|]. simpl.
    split; [set_solver|]. split; [done|]. split; [set_solver|].
    split; [right; set_solver|]. done.
Qed.

(** The same of the processor of the server, for any topic. *)
Lemma processor_state {W} env (fulfil : Payload → W → _) data tp sh st w :
  ∃ n st' w' entered,
    processor env fulfil data tp sh st w = (n, st', w', entered)
    ∧ OrderNotification.processedOrders st ⊆ OrderNotification.processedOrders st'
    ∧ (last_is_known st → last_is_known st')
    ∧ ((entered = [] ∧ w' = w)
       ∨ (∃ oid, entered = [oid] ∧ (oid ∉ OrderNotification.processedOrders st)
                 ∧ oid ∈ OrderNotification.processedOrders st')).
Proof.
  unfold processor. destruct (handled tp).
  - destruct (processOrderNotification_state env fulfil data st w)
      as (n & st' & w' & entered & -> & Hsub & Hlast & Hin & Hent & _ & _).
    exists n, st', w', entered. split; [done|]. split; [done|]. split.
    + intros _ d Hd. rewrite Hlast in Hd. by injection Hd as <-.
    + destruct Hent as [? | (-> & ? & ?)]; [by left|]. right. by eexists.
  - eexists _, _, _, _. split; [done|]. split; [done|]. split; [done|]. by left.
Qed.

Lemma reprocess_state {W} env (fulfil : Payload → W → _) force st w :
  ∃ answer st' w' entered,
    OrderNotification.reprocessLastWebhook env fulfil force st w
    = (answer, st', w', entered)
    ∧ (last_is_known st → last_is_known st')
    ∧ (force = false →
       OrderNotification.processedOrders st ⊆ OrderNotification.processedOrders st'
       ∧ ((entered = [] ∧ w' = w)
          ∨ (∃ oid, entered = [oid] ∧ (oid ∉ OrderNotification.processedOrders st)
                    ∧ oid ∈ OrderNotification.processedOrders st'))
       ∧ (last_is_known st →
          entered = [] ∧ w' = w
          ∧ OrderNotification.processedOrders st' = OrderNotification.processedOrders st
          ∧ (answer = None
             ∨ ∃ n, answer = Some n
                    ∧ (OrderNotification.skipped n = true
                       ∨ OrderNotification.success n = false)))).
Proof.
  unfold OrderNotification.reprocessLastWebhook.
  destruct (OrderNotification.lastWebhookNotification st) as [last|] eqn:Hl.
  2:{ eexists _, _, _, _. split; [done|]. split; [done|]. intros _.
      split; [done|]. split; [by left|]. intros _. repeat split; try done. by left. }
  set (st0 := if force then _ else st).
  destruct (processOrderNotification_state env fulfil last st0 w)
    as (n & st' & w' & entered & -> & Hsub & Hlast & Hin & Hent & Hknown & Hnone).
  exists (Some n), st', w', entered. split; [done|]. split.
  { intros _ d Hd. rewrite Hlast in Hd. by injection Hd as <-. }
  intros ->. subst st0. split; [done|]. split.
  { destruct Hent as [? | (-> & ? & ?)]; [by left|]. right. by eexists. }
  intros Hk.
  destruct (JS.truthy (OrderNotification.orderId_or "" last)) eqn:Ht.
  - destruct (Hknown eq_refl (Hk last Hl Ht)) as (-> & -> & Hs & Hsk & Hset).
    repeat split; try done. right. exists n. split; [done|]. by left.
  - destruct (Hnone eq_refl) as (-> & -> & Hs & Hset).
    repeat split; try done. right. exists n. split; [done|]. by right.
Qed.

Lemma attempted_shown {W} (s : State W) evs entered :
  attempted [(s, (FromQueue <$> evs) ++ (Attempted <$> entered))] = entered.
Proof.
  unfold attempted. simpl. rewrite app_nil_r, omap_app.
  assert (omap (λ sh, match sh with Attempted oid => Some oid | _ => None end)
            (FromQueue <$> evs) = []) as ->.
  { induction evs as [|ev evs IH]; [done|]. by rewrite fmap_cons. }
  simpl. induction entered as [|x l IH]; [done|]. rewrite fmap_cons.
  cbn. f_equal. apply IH.
Qed.

Lemma attempted_cons {W} (st : State W * list Shown) trace :
  attempted (st :: trace) = attempted [st] ++ attempted trace.
Proof. unfold attempted. simpl. by rewrite app_nil_r, omap_app. Qed.

Lemma after_queue_attempts {W} env (fulfil : Payload → W → _) (s : State W) step :
  OrderNotification.processedOrders (orders s)
  ⊆ OrderNotification.processedOrders (orders (after_queue env fulfil s step).1)
  ∧ (last_is_known (orders s) → last_is_known (orders (after_queue env fulfil s step).1))
  ∧ ((attempted [after_queue env fulfil s step] = []
      ∧ world (after_queue env fulfil s step).1 = world s)
     ∨ (∃ oid, attempted [after_queue env fulfil s step] = [oid]
               ∧ (oid ∉ OrderNotification.processedOrders (orders s))
               ∧ oid ∈ OrderNotification.processedOrders
                         (orders (after_queue env fulfil s step).1))).
Proof.
  unfold after_queue. destruct (called step.2) as [item|].
  - destruct (processor_state env fulfil (webhookData item) (topic item) (shop item)
                (orders s) (world s))
      as (n & st' & w' & entered & -> & Hsub & Hlast & Hent).
    rewrite attempted_shown. simpl. split; [done|]. split; [done|].
    destruct Hent as [[-> ->] | (oid & -> & ? & ?)]; [by left|]. right. by exists oid.
  - simpl. split; [done|]. split; [done|]. left. split; [|done].
    by rewrite <- (app_nil_r (FromQueue <$> step.2)), (attempted_shown _ _ []).
Qed.

Lemma serve_attempts {W} env (fulfil : Payload → W → _) now req (s : State W) :
  (last_is_known (orders s) → last_is_known (orders (serve env fulfil now req s).1))
  ∧ (req ≠ PostReprocess true →
     OrderNotification.processedOrders (orders s)
     ⊆ OrderNotification.processedOrders (orders (serve env fulfil now req s).1)
     ∧ (attempted [serve env fulfil now req s] = []
        ∨ (∃ oid, attempted [serve env fulfil now req s] = [oid]
                  ∧ (oid ∉ OrderNotification.processedOrders (orders s))
                  ∧ oid ∈ OrderNotification.processedOrders
                            (orders (serve env fulfil now req s).1)))).
Proof.
  assert (∀ s0 step, orders s0 = orders s →
            (last_is_known (orders s)
             → last_is_known (orders (after_queue env fulfil s0 step).1))
            ∧ (OrderNotification.processedOrders (orders s)
               ⊆ OrderNotification.processedOrders
                   (orders (after_queue env fulfil s0 step).1)
               ∧ (attempted [after_queue env fulfil s0 step] = []
                  ∨ (∃ oid, attempted [after_queue env fulfil s0 step] = [oid]
                            ∧ (oid ∉ OrderNotification.processedOrders (orders s))
                            ∧ oid ∈ OrderNotification.processedOrders
                                      (orders (after_queue env fulfil s0 step).1)))))
    as Hqueue.
  { intros s0 step Ho.
    destruct (after_queue_attempts env fulfil s0 step) as (Hsub & Hlast & Hent).
    rewrite Ho in *. split; [done|]. split; [done|].
    destruct Hent as [[? _] | ?]; [by left | by right]. }
  destruct req as [data tp sh | | | oid | | force]; unfold serve.
  - destruct (Hqueue s (react now (InEnqueue data tp sh) (queue_sys s)) eq_refl).
    by split.
  - destruct (pending s) as [settled|].
    + destruct (Hqueue (mkState (queue_sys s) (orders s) (world s) None)
                  (react now (InSettled settled) (queue_sys s)) eq_refl).
      by split.
    + split; [done|]. intros _. split; [done|]. by left.
  - destruct (Hqueue s (react now InTimer (queue_sys s)) eq_refl). by split.
  - destruct (negb (JS.truthy oid)).
    + split; [done|]. intros _. split; [done|]. by left.
    + destruct (Hqueue s (react now (InForceReprocess oid) (queue_sys s)) eq_refl).
      by split.
  - destruct (Hqueue s (react now InCleanup (queue_sys s)) eq_refl). by split.
  - destruct (reprocess_state env fulfil force (orders s) (world s))
      as (answer & st' & w' & entered & -> & Hlast & Hunforced).
    split; [done|]. intros Hf.
    destruct force; [done|]. destruct (Hunforced eq_refl) as (Hsub & Hent & _).
    pose proof (attempted_shown (mkState (queue_sys s) st' w' (pending s)) [] entered)
      as Hatt.
    simpl in Hatt. cbn [fst snd orders] in *. rewrite Hatt. split; [done|].
    destruct Hent as [[-> _] | (oid & -> & ? & ?)]; [by left|]. right. by exists oid.
Qed.

(** X10. Without a forced reprocess of the last webhook, the server tries to
    create an order at most once: whatever webhooks come in, whatever the
    queue or its cache are told, and whether the attempt has succeeded or
    not, the [try] block of [processOrderNotification] is entered at most
    once for an order id. *)
Theorem each_order_attempted_once {W} env (fulfil : Payload → W → _) clock reqs (w : W) :
  unforced reqs →
  NoDup (attempted (serve_run env fulfil clock 0 reqs (boot w))).
Proof.
  assert (∀ reqs k (s : State W) acc,
            unforced reqs → NoDup acc →
            (∀ x, x ∈ acc → x ∈ OrderNotification.processedOrders (orders s)) →
            NoDup (acc ++ attempted (serve_run env fulfil clock k reqs s))) as Hgen.
  { clear reqs. induction reqs as [|req reqs IH]; intros k s acc Hun Hnd Hacc.
    - unfold attempted. simpl. by rewrite app_nil_r.
    - apply Forall_cons in Hun as [Hreq Hun]. cbn [serve_run].
      rewrite attempted_cons, app_assoc.
      destruct (serve_attempts env fulfil (clock k) req s) as [_ Hstep].
      destruct (Hstep Hreq) as [Hsub Hent]. apply IH; [done | |].
      + destruct Hent as [-> | (oid & -> & Hnew & _)]; [by rewrite app_nil_r|].
        apply NoDup_app. split; [done|]. split; [|apply NoDup_singleton].
        intros x Hx ->%list_elem_of_singleton. by apply Hnew, Hacc.
      + intros x [Hx | Hx]%elem_of_app; [by apply Hsub, Hacc|].
        destruct Hent as [Hent | (oid & Hent & _ & Hin)]; rewrite Hent in Hx.
        * by apply elem_of_nil in Hx.
        * by apply list_elem_of_singleton in Hx as ->. }
  intros Hun. apply (Hgen reqs 0%nat (boot w) [] Hun); [constructor|].
  by intros x ?%elem_of_nil.
Qed.

Lemma each_order_attempted_once_witness :
  NoDup (attempted (serve_run RunExamples.live RunExamples.creates
                      Examples.every_second 0 RunExamples.again_and_again
                      (boot 0%nat))).
Proof.
  apply (each_order_attempted_once RunExamples.live RunExamples.creates
           Examples.every_second RunExamples.again_and_again 0%nat).
  repeat constructor; discriminate.
Defined.

(** X11. The reprocess endpoint without [force] never does anything: in every
    state of every run of the server, [reprocessLastWebhook(false)] enters
    no [try] block and leaves the world and the set of processed orders as
    they are; it answers that no webhook is stored, that the webhook has no
    order id, or that the order was already processed. *)
Theorem reprocess_without_force_is_void {W} env (fulfil : Payload → W → _)
    clock reqs (w : W) :
  Forall (λ st,
            ∃ answer st',
              OrderNotification.reprocessLastWebhook env fulfil false
                (orders st.1) (world st.1)
              = (answer, st', world st.1, [])
              ∧ OrderNotification.processedOrders st'
                = OrderNotification.processedOrders (orders st.1)
              ∧ (answer = None
                 ∨ ∃ n, answer = Some n
                        ∧ (OrderNotification.skipped n = true
                           ∨ OrderNotification.success n = false)))
    (serve_run env fulfil clock 0 reqs (boot w)).
Proof.
  eapply Forall_impl.
  - apply (serve_run_invariant (λ s, last_is_known (orders s))).
    + intros now req s. apply serve_attempts.
    + by intros d.
  - intros [s shown] Hk. simpl in *.
    destruct (reprocess_state env fulfil false (orders s) (world s))
      as (answer & st' & w' & entered & Heq & _ & Hunforced).
    destruct (Hunforced eq_refl) as (_ & _ & Hvoid).
    destruct (Hvoid Hk) as (-> & -> & Hset & Hans).
    by exists answer, st'.
Qed.

(** *** An order that has been seen is never created later *)

Lemma enqueue_on_idle now data tp sh sys oid :
  consistent sys →
  consumer sys = Idle →
  identity data = Some oid →
  ¬ blocks now (obj sys) oid →
  ∃ sys' r,
    react now (InEnqueue data tp sh) sys
    = (sys', [CallProcessWebhook (mkItem oid data tp sh now 0); Returned r])
    ∧ queued r = true
    ∧ queue (obj sys') = [mkItem oid data tp sh now 0]
    ∧ consumer sys' = AwaitProcessWebhook
    ∧ config (obj sys') = config (obj sys).
Proof.
  intros Hcons Hidle Hid Hnb.
  pose proof Hid as [He Ht]%identity_Some.
  destruct (enqueue_cases now data tp sh sys Hcons)
    as (sys' & r & evs & Henq &
        [(Hr & _) | [(? & _ & _ & Hbusy & _) | (oid' & Hr & Hid' & _ & _ & Hq & Hph & ->)]]).
  - exfalso. revert Henq Hr. unfold enqueue. rewrite He, Ht. simpl.
    pose proof (isOrderProcessed_blocks now oid
                  (set_stats (incr_total (stats (obj sys))) (obj sys)) Ht) as Hb.
    destruct (isOrderProcessed_frame now oid
                (set_stats (incr_total (stats (obj sys))) (obj sys)))
      as (Hq & _ & _ & _).
    destruct (isOrderProcessed now oid _) as [dup q1]. simpl in Hb, Hq.
    destruct dup; [destruct Hnb; by apply Hb|].
    destruct Hcons as [Hc _]. rewrite Hidle in Hc. destruct Hc as [_ Hempty].
    rewrite Hq, Hempty. simpl. destruct (processQueue now _) as [? ?].
    by intros [= _ <- _].
  - done.
  - assert (oid' = oid) as ->.
    { revert Henq Hid'. unfold enqueue. rewrite He, Ht. simpl.
      destruct (isOrderProcessed now oid _) as [dup q1].
      destruct dup; [by intros [= _ <- _]|].
      destruct (existsb _ (queue q1)); [by intros [= _ <- _]|].
      destruct (processQueue now _) as [? ?]. by intros [= _ <- _] [= <-]. }
    exists sys', r. pose proof (react_config now (InEnqueue data tp sh) sys) as Hcfg.
    unfold react in *. rewrite Henq in *. done.
Qed.

Lemma settle_success now sys item res :
  consumer sys = AwaitProcessWebhook →
  queue (obj sys) = [item] →
  success res = true →
  react now (InSettled (Resolved res)) sys
  = (mkSystem
       (set_isProcessing false (shift (markAsCompleted now (orderId item) res (obj sys))))
       Idle, []).
Proof.
  intros Hph Hq Hs. unfold react. rewrite Hph. unfold resume_processWebhook.
  rewrite Hq, Hs. rewrite loop_tail_cases. simpl. by rewrite Hq.
Qed.

Lemma called_enqueue item r : called [CallProcessWebhook item; Returned r] = Some item.
Proof. reflexivity. Qed.

(** X12. The endpoint that lets an order be processed again does not make the
    order be created.  For an order id that [processOrderNotification] has
    seen before (whatever the outcome was): after
    [POST .../queue/reprocess/:orderId] the queue accepts the webhook of the
    order again, but the processor answers [order_already_processed]
    without entering its [try] block, and the queue marks the order
    completed. *)
Theorem queue_reprocess_creates_nothing {W} env (fulfil : Payload → W → _)
    t1 t2 t3 data topic shop oid (s : State W) :
  consistent (queue_sys s) →
  consumer (queue_sys s) = Idle →
  identity data = Some oid →
  handled topic = true →
  oid ∈ OrderNotification.processedOrders (orders s) →
  let s1 := (serve env fulfil t1 (PostQueueReprocess oid) s).1 in
  let step2 := serve env fulfil t2 (PostWebhook data topic shop) s1 in
  let step3 := serve env fulfil t3 ProcessorSettles step2.1 in
  (∃ r, FromQueue (Returned r) ∈ step2.2 ∧ queued r = true)
  ∧ attempted [step2; step3] = []
  ∧ world step3.1 = world s
  ∧ status <$> processedOrders (obj (queue_sys step3.1)) !! oid = Some completed
  ∧ consumer (queue_sys step3.1) = Idle.
Proof.
  intros Hcons Hidle Hid Hhandled Hseen s1 step2 step3.
  pose proof Hid as [He Ht]%identity_Some.
  assert (s1 = mkState (mkSystem (forceReprocess oid (obj (queue_sys s))).2 Idle)
                 (orders s) (world s) (pending s)) as Hs1.
  { unfold s1, serve. rewrite Ht. simpl. unfold after_queue. simpl. by rewrite Hidle. }
  destruct (enqueue_on_idle t2 data topic shop (queue_sys s1) oid)
    as (sys2 & r & Hreact & Hr & Hq2 & Hph2 & _); [| |done| |].
  { rewrite Hs1. destruct Hcons as [Hc Hnd]. rewrite Hidle in Hc.
    split; simpl; done. }
  { by rewrite Hs1. }
  { rewrite Hs1. intros (e & Hl & _). revert Hl.
    cbn [queue_sys obj forceReprocess snd processedOrders set_processedOrders].
    by rewrite lookup_delete_eq. }
  destruct (processOrderNotification_state env fulfil data (orders s) (world s))
    as (n & st' & w' & entered & Hpon & _ & _ & _ & _ & Hknown & _).
  rewrite (orderId_or_identity data oid "" Hid) in Hknown.
  destruct (Hknown Ht Hseen) as (-> & -> & Hsucc & Hskip & _).
  assert (step2 = (mkState sys2 st' (world s)
                     (Some (setProcessor (Returns (to_raw n)))),
                   (FromQueue <$> [CallProcessWebhook (mkItem oid data topic shop t2 0);
                                   Returned r]) ++ (Attempted <$> []))) as Hstep2.
  { unfold step2, serve. rewrite Hreact. unfold after_queue. cbn [snd fst].
    rewrite called_enqueue. cbn [webhookData WebhookQueue.topic WebhookQueue.shop].
    unfold processor. rewrite Hhandled, Hs1. cbn [orders world]. by rewrite Hpon. }
  assert (step3 = (mkState
                     (mkSystem
                        (set_isProcessing false
                           (shift (markAsCompleted t3 oid
                                     {| success := true; retry := false;
                                        error := OrderNotification.error n |}
                                     (obj sys2))))
                        Idle)
                     st' (world s) None, FromQueue <$> [])) as Hstep3.
  { unfold step3, serve. rewrite Hstep2. cbn [fst pending queue_sys orders world].
    unfold setProcessor, to_raw. cbn [raw_success raw_retry raw_error default].
    rewrite Hsucc.
    rewrite (settle_success t3 sys2 (mkItem oid data topic shop t2 0)); try done. }
  split; [|split; [|split; [|split]]].
  - exists r. split; [|done]. rewrite Hstep2. simpl.
    apply elem_of_cons. right. apply list_elem_of_here.
  - rewrite attempted_cons, Hstep2, attempted_shown, Hstep3. reflexivity.
  - by rewrite Hstep3.
  - rewrite Hstep3. simpl. by rewrite lookup_insert_eq.
  - by rewrite Hstep3.
Qed.

Lemma queue_reprocess_creates_nothing_witness :
  let s := RunExamples.after_order_7 in
  let s1 := (serve RunExamples.live RunExamples.creates 5000
               (PostQueueReprocess "7") s).1 in
  let step2 := serve RunExamples.live RunExamples.creates 6000
                 (PostWebhook (Examples.order 7) "orders/create" "axam") s1 in
  let step3 := serve RunExamples.live RunExamples.creates 7000 ProcessorSettles
                 step2.1 in
  (∃ r, FromQueue (Returned r) ∈ step2.2 ∧ queued r = true)
  ∧ attempted [step2; step3] = []
  ∧ world step3.1 = world s
  ∧ status <$> processedOrders (obj (queue_sys step3.1)) !! "7" = Some completed
  ∧ consumer (queue_sys step3.1) = Idle.
Proof.
  apply (queue_reprocess_creates_nothing RunExamples.live RunExamples.creates
           5000 6000 7000 (Examples.order 7) "orders/create" "axam" "7"
           RunExamples.after_order_7).
  - vm_compute. split; [done | constructor].
  - reflexivity.
  - vm_compute. reflexivity.
  - reflexivity.
  - apply (bool_decide_unpack _). vm_compute. exact I.
Defined.

(** X13. A webhook of a topic the processor does not handle closes the order
    for the handled ones.  On an idle server, a webhook with order id [oid]
    and a topic other than [orders/create], [orders/paid] and
    [orders/fulfilled] is accepted, answered [event_not_handled], and the
    queue marks [oid] completed; a webhook of any topic for [oid] that comes
    within the TTL after that is refused as a [duplicate], and nothing has
    been tried for the order. *)
Theorem unhandled_topic_blocks_the_order {W} env (fulfil : Payload → W → _)
    t1 t2 t3 data topic shop data' topic' shop' oid (s : State W) :
  consistent (queue_sys s) →
  consumer (queue_sys s) = Idle →
  identity data = Some oid →
  identity data' = Some oid →
  handled topic = false →
  ¬ blocks t1 (obj (queue_sys s)) oid →
  t3 - t2 ≤ cacheTTL (config (obj (queue_sys s))) →
  let step1 := serve env fulfil t1 (PostWebhook data topic shop) s in
  let step2 := serve env fulfil t2 ProcessorSettles step1.1 in
  let step3 := serve env fulfil t3 (PostWebhook data' topic' shop') step2.1 in
  attempted [step1; step2; step3] = []
  ∧ status <$> processedOrders (obj (queue_sys step2.1)) !! oid = Some completed
  ∧ ∃ r, step3.2 = [FromQueue (Returned r)]
         ∧ queued r = false ∧ reason r = Some "duplicate".
Proof.
  intros Hcons Hidle Hid Hid' Hunhandled Hnb Hage step1 step2 step3.
  destruct (enqueue_on_idle t1 data topic shop (queue_sys s) oid Hcons Hidle Hid Hnb)
    as (sys1 & r1 & Hreact & Hr1 & Hq1 & Hph1 & Hcfg1).
  set (n := OrderNotification.mkNotification true None true (Some "event_not_handled")
              None false).
  assert (step1 = (mkState sys1 (orders s) (world s)
                     (Some (setProcessor (Returns (to_raw n)))),
                   (FromQueue <$> [CallProcessWebhook (mkItem oid data topic shop t1 0);
                                   Returned r1]) ++ (Attempted <$> []))) as Hstep1.
  { unfold step1, serve. rewrite Hreact. unfold after_queue. cbn [snd fst].
    rewrite called_enqueue. cbn [webhookData WebhookQueue.topic WebhookQueue.shop].
    unfold processor. by rewrite Hunhandled. }
  set (done1 := markAsCompleted t2 oid
                  {| success := true; retry := false; error := None |} (obj sys1)).
  assert (step2 = (mkState (mkSystem (set_isProcessing false (shift done1)) Idle)
                     (orders s) (world s) None, FromQueue <$> [])) as Hstep2.
  { unfold step2, serve. rewrite Hstep1. cbn [fst pending queue_sys orders world].
    unfold setProcessor, to_raw, n.
    cbn [raw_success raw_retry raw_error default OrderNotification.success
         OrderNotification.error].
    rewrite (settle_success t2 sys1 (mkItem oid data topic shop t1 0)); try done. }
  assert (processedOrders (obj (queue_sys step2.1)) !! oid
          = Some (mkEntry t2 completed
                    (Some {| success := true; retry := false; error := None |}) None))
    as Hentry.
  { rewrite Hstep2. simpl. by rewrite lookup_insert_eq. }
  pose proof (enqueue_on_live_entry t3 data' topic' shop' (queue_sys step2.1) oid _
                Hid' Hentry) as Hdup.
  rewrite Hstep2 in Hdup. cbn [fst queue_sys obj config set_isProcessing shift
    set_queue done1 markAsCompleted set_stats set_processedOrders timestamp] in Hdup.
  specialize (Hdup ltac:(by right) ltac:(by rewrite Hcfg1)).
  assert (step3.2 = [FromQueue
                       (Returned (mkEnqueueResult false (Some "duplicate") (Some oid)
                                    (Some "completed") None))]) as Hshown3.
  { unfold step3, serve. rewrite Hstep2. cbn [fst queue_sys].
    unfold react. rewrite Hdup. reflexivity. }
  split; [|split].
  - rewrite attempted_cons, Hstep1, attempted_shown.
    rewrite attempted_cons, Hstep2. simpl.
    unfold attempted. simpl. rewrite Hshown3. done.
  - by rewrite Hentry.
  - eexists. split; [exact Hshown3|]. done.
Qed.

Lemma unhandled_topic_blocks_the_order_witness :
  let step1 := serve RunExamples.live RunExamples.creates 1000
                 (PostWebhook (Examples.order 7) "orders/updated" "axam")
                 (boot 0%nat) in
  let step2 := serve RunExamples.live RunExamples.creates 2000 ProcessorSettles
                 step1.1 in
  let step3 := serve RunExamples.live RunExamples.creates 3000
                 (PostWebhook (Examples.order 7) "orders/create" "axam") step2.1 in
  attempted [step1; step2; step3] = []
  ∧ status <$> processedOrders (obj (queue_sys step2.1)) !! "7" = Some completed
  ∧ ∃ r, step3.2 = [FromQueue (Returned r)]
         ∧ queued r = false ∧ reason r = Some "duplicate".
Proof.
  apply (unhandled_topic_blocks_the_order RunExamples.live RunExamples.creates
           1000 2000 3000 (Examples.order 7) "orders/updated" "axam"
           (Examples.order 7) "orders/create" "axam" "7" (boot 0%nat)).
  - split; [split; reflexivity | constructor].
  - reflexivity.
  - vm_compute. reflexivity.
  - vm_compute. reflexivity.
  - reflexivity.
  - intros (e & He & _). vm_compute in He. discriminate.
  - vm_compute. discriminate.
Defined.

End ServerProofs.

(** * Properties of the runs of the stock synchroniser *)

Module StockRunsProofs.
Import SyncStocks StockRuns SyncStocksProofs.

#[local] Hint Resolve returns_ret returns_call returns_emit
  quiet_ret quiet_call quiet_sleep quiet_wrote quiet_diverge
  gives_diverge : async.

(** *** Slices and chunks *)

Lemma slice_from (array : list string) (n : nat) c :
  0 ≤ c →
  JS.slice array (Z.of_nat n) (Z.of_nat n + c) = take (Z.to_nat c) (drop n array).
Proof.
  intros Hc. unfold JS.slice, JS.clamp_index.
  destruct (Z.of_nat n <? 0) eqn:H1; [apply Z.ltb_lt in H1; lia|].
  destruct (Z.of_nat n + c <? 0) eqn:H2; [apply Z.ltb_lt in H2; lia|].
  destruct (decide (n ≤ length array)%nat) as [Hle | Hgt].
  - replace (Z.to_nat (Z.min (Z.of_nat n) (Z.of_nat (length array)))) with n by lia.
    destruct (decide (Z.of_nat n + c ≤ Z.of_nat (length array))) as [Hin | Hout].
    + f_equal. lia.
    + rewrite !take_ge; [done | | ]; rewrite length_drop; lia.
  - rewrite !drop_ge by lia. by rewrite !take_nil.
Qed.

Lemma chunk_results_app l1 l2 :
  chunk_results (l1 ++ l2) = chunk_results l1 ++ chunk_results l2.
Proof. unfold chunk_results. by rewrite chunks_of_app, fmap_app, concat_app. Qed.

Lemma chunk_results_chunk c rs c' : chunk_results [Chunk c rs c'] = rs.
Proof. unfold chunk_results. simpl. apply app_nil_r. Qed.

Lemma chunk_results_none l : chunks_of l = [] → chunk_results l = [].
Proof. unfold chunk_results. by intros ->. Qed.

Section Pass.
Context {W : Type} (processor : string → M W SyncResult).

Lemma promise_all_app l1 l2 w rs w' log :
  promise_all processor (l1 ++ l2) w = Some (rs, w', log) →
  ∃ rs1 w1 la rs2 lb,
    promise_all processor l1 w = Some (rs1, w1, la)
    ∧ promise_all processor l2 w1 = Some (rs2, w', lb)
    ∧ rs = rs1 ++ rs2 ∧ log = la ++ lb.
Proof.
  revert w rs log. induction l1 as [|x l1 IH]; intros w rs log; simpl.
  - intros H. exists [], w, [], rs, log. done.
  - intros (r & w1 & l1' & l2' & H1 & H2 & ->)%bind_Some.
    apply bind_Some in H2 as (rs' & w2 & l3 & l4 & H3 & [= <- <- <-] & ->).
    destruct (IH _ _ _ H3) as (rs1 & w3 & la & rs2 & lb & Ha & Hb & -> & ->).
    exists (r :: rs1), w3, (l1' ++ la), rs2, lb.
    split; [|split; [done|split; [done|]]].
    + rewrite bind_unfold, H1. rewrite bind_unfold, Ha. simpl.
      by rewrite app_nil_r.
    + by rewrite app_nil_r, app_assoc.
Qed.

Lemma countRateLimit_clean rs :
  Forall (λ r, isRateLimitResult r = false) rs → countRateLimit rs = 0.
Proof.
  unfold countRateLimit. induction 1 as [|r rs Hr _ IH]; [done|].
  rewrite filter_cons. destruct (decide (isRateLimitResult r = true)); [congruence|].
  done.
Qed.

(** A pass whose results hold no rate limit is the list processed item by
    item, cut into chunks of [c]. *)
Lemma loop_clean fuel array c : ∀ n rl results w rs w' l0,
  1 ≤ c →
  (length array - n ≤ fuel)%nat →
  (∀ x, quiet (processor x)) →
  promise_all processor (drop n array) w = Some (rs, w', l0) →
  Forall (λ r, isRateLimitResult r = false) rs →
  ∃ log,
    processInParallel_loop fuel array processor (Z.of_nat n) c rl results w
    = Some (results ++ rs, w', log)
    ∧ Forall (λ x, x.1.1 = c ∧ x.2 = c) (chunks_of log)
    ∧ chunk_results log = rs
    ∧ waits log = waits l0
    ∧ writes log = writes l0.
Proof.
  induction fuel as [|fuel IH]; intros n rl results w rs w' l0 Hc Hfuel Hq Hall Hclean.
  - simpl. destruct (Z.of_nat n <? Z.of_nat (length array)) eqn:Hn;
      [apply Z.ltb_lt in Hn; lia|].
    apply Z.ltb_ge in Hn. rewrite drop_ge in Hall by lia.
    injection Hall as <- <- <-. exists []. by rewrite app_nil_r.
  - simpl. destruct (Z.of_nat n <? Z.of_nat (length array)) eqn:Hn.
    2:{ apply Z.ltb_ge in Hn. rewrite drop_ge in Hall by lia.
        injection Hall as <- <- <-. exists []. by rewrite app_nil_r. }
    apply Z.ltb_lt in Hn. rewrite slice_from by lia.
    rewrite <- (take_drop (Z.to_nat c) (drop n array)) in Hall.
    apply promise_all_app in Hall as (rs1 & w1 & la & rs2 & lb & Ha & Hb & -> & ->).
    apply Forall_app in Hclean as [Hclean1 Hclean2].
    rewrite drop_drop in Hb.
    destruct (IH (n + Z.to_nat c)%nat (rl + 0) (results ++ rs1) w1 rs2 w' lb Hc
                ltac:(lia) Hq Hb Hclean2) as (log & Hrun & Hchunks & Hres & Hwaits & Hwrites).
    rewrite bind_unfold, Ha. rewrite (countRateLimit_clean rs1 Hclean1).
    rewrite adjustConcurrency_clean by lia. cbn.
    replace (Z.of_nat n + c) with (Z.of_nat (n + Z.to_nat c)) by lia.
    rewrite !bind_unfold. unfold emit, mret, M_ret. rewrite bind_unfold, Hrun.
    eexists. split; [by rewrite <- app_assoc|]. split; [|split].
    + rewrite !chunks_of_app, (promise_all_quiet _ _ Hq _ _ _ _ Ha). simpl.
      by constructor.
    + rewrite !chunk_results_app, chunk_results_chunk, Hres.
      rewrite (chunk_results_none la); [|by apply (promise_all_quiet _ _ Hq _ _ _ _ Ha)].
      by rewrite chunk_results_none.
    + unfold waits, writes in *. rewrite !omap_app. simpl.
      by rewrite Hwaits, Hwrites.
Qed.

End Pass.

(** *** Services that answer alike in every world *)

Section Alike.
Context {W : Type}.

Lemma alike_ret {A} (a : A) : alike (mret a : M W A).
Proof. done. Qed.

Lemma alike_emit ev : alike (emit ev : M W ()).
Proof. done. Qed.

Lemma alike_diverge {A} : alike (diverge : M W A).
Proof. done. Qed.

Lemma alike_call {A} (f : W → A * W) :
  (∀ w1 w2, (f w1).1 = (f w2).1) → alike (call f).
Proof. intros Hf w1 w2. unfold call, outcome. simpl. by rewrite (Hf w1 w2). Qed.

Lemma alike_bind {A B} (m : M W A) (k : A → M W B) :
  alike m → (∀ a, alike (k a)) → alike (m ≫= k).
Proof.
  intros Hm Hk w1 w2. rewrite !bind_unfold. specialize (Hm w1 w2).
  destruct (m w1) as [[[a1 v1] l1]|], (m w2) as [[[a2 v2] l2]|]; try done.
  injection Hm as <- <-. specialize (Hk a1 v1 v2).
  destruct (k a1 v1) as [[[b1 u1] m1]|], (k a1 v2) as [[[b2 u2] m2]|]; try done.
  by injection Hk as <- <-.
Qed.

End Alike.

Create HintDb alike.

#[local] Hint Resolve alike_ret alike_emit alike_diverge : alike.

Ltac alike_step :=
  first
    [ solve [eauto with alike]
    | apply alike_bind; [|intros ?]
    | apply alike_call; solve [eauto]
    | case_match ].

Ltac alike := repeat alike_step.

Section Worker.
Context {W : Type} (R : Remote W).
Hypothesis answers : answers_alike R.

Lemma getManagerProductBySKU_from_alike left sku attempt :
  alike (getManagerProductBySKU_from R left sku attempt).
Proof.
  destruct answers as (Herp & _ & _).
  revert attempt. induction left as [|left IH]; intros attempt; simpl; alike.
  all: unfold sleep; alike.
Qed.

Lemma syncProductStock_alike sku options shopMap loc mgrMap :
  alike (syncProductStock R sku options (Some shopMap) loc mgrMap).
Proof.
  destruct answers as (Herp & Hset & Hloc).
  pose proof getManagerProductBySKU_from_alike.
  unfold syncProductStock, lookupManagerProduct, getManagerProductBySKU,
    getShopifyProductStockBySKU, writeStock, updateShopifyStock.
  alike.
Qed.

Lemma worker_alike options shopMap loc mgrMap x :
  alike (worker R options shopMap loc mgrMap x).
Proof. apply syncProductStock_alike. Qed.

End Worker.

Section Pass.
Context {W : Type} (processor : string → M W SyncResult).
Hypothesis processor_alike : ∀ x, alike (processor x).

(** With a processor that is alike in every world, the items taken one
    after the other give what each gives on its own. *)
Lemma promise_all_alone chunk : ∀ rs w0 w,
  Forall2 (λ x r, ∃ w1 l, processor x w0 = Some (r, w1, l)) chunk rs →
  ∃ w' l, promise_all processor chunk w = Some (rs, w', l).
Proof.
  induction chunk as [|x chunk IH]; intros rs w0 w Hall.
  - apply Forall2_nil_inv_l in Hall as ->. by eexists _, _.
  - apply Forall2_cons_inv_l in Hall as (r & rs' & (w1 & l & Hr) & Hall & ->).
    pose proof (processor_alike x w0 w) as Hx. rewrite Hr in Hx.
    destruct (processor x w) as [[[r' w2] l']|] eqn:Hw; [|done].
    injection Hx as <- <-.
    destruct (IH _ w0 w2 Hall) as (w' & l2 & Hrest).
    simpl. rewrite bind_unfold, Hw, bind_unfold, Hrest. by eexists _, _.
Qed.

End Pass.

(** *** A pass without rate limits *)

Lemma promise_all_skus {W} (processor : string → M W SyncResult) chunk w rs w' l :
  (∀ x, gives (λ r, sku r = x) (processor x)) →
  promise_all processor chunk w = Some (rs, w', l) →
  sku <$> rs = chunk.
Proof.
  intros Hsku. revert w rs l. induction chunk as [|x chunk IH]; intros w rs l; simpl.
  - by intros [= <- _ _].
  - intros (r & w1 & l1 & l2 & H1 & H2 & ->)%bind_Some.
    apply bind_Some in H2 as (rs' & w2 & l3 & l4 & H3 & [= <- <- <-] & ->).
    rewrite fmap_cons. f_equal; [by eapply Hsku | by eapply IH].
Qed.

Section WorkerPass.
Context {W : Type} (R : Remote W) (options : Options).
Context (shopMap : gmap string ShopifyProduct) (loc : option Z).
Context (mgrMap : option (gmap string ManagerProduct)).

Lemma worker_sku x : gives (λ r, sku r = x) (worker R options shopMap loc mgrMap x).
Proof. apply syncProductStock_sku. Qed.

(** X14. With services whose answers do not depend on what has been asked
    before, take for every SKU of a list the result that its
    synchronisation gives on its own, from the world at hand.  When none of
    these results counts as a rate limit, a pass of [processInParallel] over
    the list with a concurrency of at least 1 returns exactly these
    results: one result for each SKU, in the order of the list, and every
    chunk is cut with the concurrency the pass was called with. *)
Theorem clean_pass_one_result_per_sku array c w rs :
  answers_alike R →
  1 ≤ c →
  Forall2 (λ x r, ∃ w1 l, worker R options shopMap loc mgrMap x w = Some (r, w1, l))
    array rs →
  Forall (λ r, isRateLimitResult r = false) rs →
  ∃ w' log,
    processInParallel array (worker R options shopMap loc mgrMap) c w
    = Some (rs, w', log)
    ∧ sku <$> rs = array
    ∧ Forall (λ x, x.1.1 = c ∧ x.2 = c) (chunks_of log)
    ∧ chunk_results log = rs.
Proof.
  intros Hanswers Hc Halone Hclean.
  destruct (promise_all_alone _ (worker_alike R Hanswers options shopMap loc mgrMap)
              array rs w w Halone) as (w' & l0 & Hall).
  destruct (loop_clean (worker R options shopMap loc mgrMap) (length array) array c
              0%nat 0 [] w rs w' l0 Hc ltac:(lia) (worker_quiet R options shopMap loc mgrMap)
              Hall Hclean) as (log & Hrun & Hchunks & Hres & _).
  exists w', log. split; [done|]. split; [|done].
  eapply promise_all_skus; [apply worker_sku | exact Hall].
Qed.

End WorkerPass.

Lemma clean_pass_one_result_per_sku_witness :
  ∃ w' log,
    processInParallel ["A"; "B"; "D"; "E"]
      (worker RunExamples.counting StockExamples.plain StockExamples.shop_map
         (Some 77) (Some StockExamples.erp_map)) 2 0%nat
    = Some (RunExamples.four_results, w', log)
    ∧ sku <$> RunExamples.four_results = ["A"; "B"; "D"; "E"]
    ∧ Forall (λ x, x.1.1 = 2 ∧ x.2 = 2) (chunks_of log)
    ∧ chunk_results log = RunExamples.four_results.
Proof.
  apply (clean_pass_one_result_per_sku RunExamples.counting StockExamples.plain
           StockExamples.shop_map (Some 77) (Some StockExamples.erp_map)
           ["A"; "B"; "D"; "E"] 2 0%nat RunExamples.four_results).
  - repeat split.
  - lia.
  - vm_compute. repeat constructor; by eexists _, _.
  - vm_compute. repeat constructor.
Defined.

(** *** No SKU is lost *)

Section Cover.
Context {W : Type} (processor : string → M W SyncResult).
Hypothesis processor_sku : ∀ x, gives (λ r, sku r = x) (processor x).

(** The results reach as far as the loop has gone: the first [F] items
    are, in their order, among the SKUs of the results, and the index is
    not beyond [F]. *)
Lemma loop_covers fuel array : ∀ i c rl results w res w' log (F : nat),
  processInParallel_loop fuel array processor i c rl results w = Some (res, w', log) →
  1 ≤ c →
  0 ≤ i →
  (Z.to_nat i ≤ F)%nat →
  take F array `sublist_of` (sku <$> results) →
  array `sublist_of` (sku <$> res).
Proof.
  induction fuel as [|fuel IH]; intros i c rl results w res w' log F; simpl.
  - destruct (i <? Z.of_nat (length array)) eqn:Hi; [done|].
    apply Z.ltb_ge in Hi. intros [= <- _ _] _ _ HF Hsub.
    by rewrite take_ge in Hsub by lia.
  - destruct (i <? Z.of_nat (length array)) eqn:Hi.
    2:{ apply Z.ltb_ge in Hi. intros [= <- _ _] _ _ HF Hsub.
        by rewrite take_ge in Hsub by lia. }
    apply Z.ltb_lt in Hi.
    intros (rs & w1 & l1 & l2 & H1 & H2 & ->)%bind_Some Hc Hi0 HF Hsub.
    apply bind_Some in H2 as (? & w2 & l3 & l4 & _ & H2 & ->).
    apply bind_Some in H2 as (? & w3 & l5 & l6 & _ & H2 & ->).
    pose proof (adjustConcurrency_le c (countRateLimit rs)) as Hle.
    pose proof (adjustConcurrency_ge_1 c (countRateLimit rs) Hc) as Hge.
    replace i with (Z.of_nat (Z.to_nat i)) in H1 by lia.
    rewrite slice_from in H1 by lia.
    pose proof (promise_all_skus _ _ _ _ _ _ processor_sku H1) as Hskus.
    apply (IH _ _ _ _ _ _ _ _ (F `max` (Z.to_nat i + Z.to_nat c))%nat H2); [lia..|].
    rewrite fmap_app, Hskus.
    destruct (decide (Z.to_nat i + Z.to_nat c ≤ F)%nat) as [Hin | Hout].
    + rewrite Nat.max_l by lia. by apply sublist_inserts_r.
    + rewrite Nat.max_r by lia.
      replace (Z.to_nat i + Z.to_nat c)%nat
        with (F + (Z.to_nat i + Z.to_nat c - F))%nat by lia.
      rewrite <- take_take_drop. apply sublist_app; [done|].
      replace (Z.to_nat c) with ((F - Z.to_nat i) + (Z.to_nat i + Z.to_nat c - F))%nat
        at 2 by lia.
      rewrite <- take_take_drop, drop_drop.
      replace (Z.to_nat i + (F - Z.to_nat i))%nat with F by lia.
      by apply sublist_inserts_l.
Qed.

Lemma processInParallel_covers array c w res w' log :
  1 ≤ c →
  processInParallel array processor c w = Some (res, w', log) →
  array `sublist_of` (sku <$> res).
Proof.
  intros Hc Hrun.
  apply (loop_covers _ _ _ _ _ _ _ _ _ _ 0%nat Hrun); [done | done | done |].
  rewrite take_0. apply sublist_nil_l.
Qed.

End Cover.

(** *** The summary accounts for the SKUs *)

Lemma tally_counted s r :
  total (tally s r) = total s
  ∧ counted (tally s r) = counted s + 1
  ∧ details (tally s r) = details s.
Proof.
  unfold tally, counted. repeat case_match; simpl; repeat split; lia.
Qed.

Lemma foldl_tally_counted rs : ∀ s,
  total (foldl tally s rs) = total s
  ∧ counted (foldl tally s rs) = counted s + Z.of_nat (length rs)
  ∧ details (foldl tally s rs) = details s.
Proof.
  induction rs as [|r rs IH]; intros s; simpl; [repeat split; lia|].
  destruct (IH (tally s r)) as (-> & -> & ->).
  destruct (tally_counted s r) as (-> & -> & ->). repeat split; lia.
Qed.

Lemma apply_retry_kept T L s r :
  success_is_counted r → kept T L s → kept T L (apply_retry s r).
Proof.
  intros Hr (HT & Hsum & HL). unfold apply_retry.
  destruct (list_find _ _) as [[idx orig]|] eqn:Hfind; [|done].
  apply list_find_Some in Hfind as (Hidx & Hsku & _).
  assert (sku <$> <[idx:=r]> (details s) = L) as HL'.
  { rewrite list_fmap_insert, <- Hsku, <- HL. apply list_insert_id.
    by rewrite list_lookup_fmap, Hidx. }
  assert (kept T L (set_details (<[idx:=r]> (details s)) s)) as Hkept.
  { unfold kept, counted in *. simpl. rewrite length_insert. done. }
  destruct (success r) eqn:Hs; simpl; [|done].
  destruct (negb (success orig) && _); [|done].
  destruct Hkept as (HT' & Hsum' & HL''). unfold kept, counted in *. simpl in *.
  destruct (Hr Hs) as [Ha | [Ha | Ha]]; rewrite Ha; simpl; repeat split; try done; lia.
Qed.

Lemma foldl_apply_retry_kept T L rs : ∀ s,
  Forall success_is_counted rs → kept T L s → kept T L (foldl apply_retry s rs).
Proof.
  induction rs as [|r rs IH]; intros s Hrs Hs; simpl; [done|].
  apply Forall_cons in Hrs as [Hr Hrs]. apply IH; [done|]. by apply apply_retry_kept.
Qed.

Section Retries.
Context {W : Type} (processor : string → M W SyncResult).
Hypothesis processor_counted : ∀ x, gives success_is_counted (processor x).

Lemma retry_loop_kept T L left c maxR delay : ∀ attempt remaining s w s' w' log,
  kept T L s →
  retry_loop left processor c maxR delay attempt remaining s w = Some (s', w', log) →
  kept T L s'.
Proof.
  induction left as [|left IH]; intros attempt remaining s w s' w' log Hs; simpl.
  - destruct (negb _ && _); [done|]. by intros [= <- _ _].
  - destruct (negb _ && _); [|by intros [= <- _ _]].
    intros (rs & w1 & l1 & l2 & H1 & H2 & ->)%bind_Some.
    apply bind_Some in H2 as (? & w2 & l3 & l4 & _ & H2 & ->).
    eapply IH; [|exact H2]. apply foldl_apply_retry_kept; [|done].
    by eapply processInParallel_counted.
Qed.

Lemma retryFailures_kept T L options c s w s' w' log :
  kept T L s →
  retryFailures processor options c s w = Some (s', w', log) →
  kept T L s'.
Proof.
  intros Hs. unfold retryFailures. destruct (negb _ && _).
  - intros (? & w1 & l1 & l2 & _ & H2 & ->)%bind_Some. by eapply retry_loop_kept.
  - by intros [= <- _ _].
Qed.

End Retries.

Section Sync.
Context {W : Type} (R : Remote W).

(** X15. The summary accounts for the SKUs.  With a concurrency option that is
    absent or not negative [syncMultipleProducts] returns, and in a summary
    it returns [total] is the number of SKUs asked for, the counters
    [updated + noChange + skipped + errors] add up to the number of
    details, and every SKU asked for has a detail: the SKUs, in their order,
    are among the SKUs of the details (which may be more than [total], the
    loop going back over items after it has lowered the concurrency). *)
Theorem summary_accounts_for_the_skus skus options w :
  (∀ c, concurrency options = Some c → 0 ≤ c) →
  ∃ out w' log,
    syncMultipleProducts R skus options w = Some (out, w', log)
    ∧ ∀ s, out = Ok s → accounts_for skus s.
Proof.
  intros Hc.
  destruct (syncMultipleProducts_returns R skus options Hc w) as [[[out w'] log] Hrun].
  exists out, w', log. split; [done|]. intros s ->.
  apply initialConcurrency_bounds in Hc as [Hc1 _].
  destruct (syncMultipleProducts_inv _ _ _ _ _ _ _ Hrun)
    as [(e & ? & _) | (shopMap & loc & mgrMap & w0 & res & w1 & l1 & summary & l2
                        & [= <-] & H1 & H2 & _)]; [done|].
  pose proof (processInParallel_covers _ (worker_sku R options shopMap loc mgrMap)
                _ _ _ _ _ _ Hc1 H1) as Hcover.
  destruct (foldl_tally_counted res
              (set_details res (mkSummary (Z.of_nat (length skus)) 0 0 0 0 [])))
    as (HT & Hsum & Hdet).
  destruct (retryFailures_kept _ (worker_counted R options shopMap loc mgrMap)
              (Z.of_nat (length skus)) (sku <$> res) _ _ _ _ _ _ _
              ltac:(split; [done|]; split; [|by rewrite Hdet];
                    rewrite Hsum, Hdet; unfold counted; simpl; lia) H2)
    as (HT' & Hsum' & HL').
  split; [done|]. split; [done|]. by rewrite HL'.
Qed.

End Sync.

Lemma summary_accounts_for_the_skus_witness :
  ∃ out w' log,
    syncMultipleProducts StockExamples.flaky
      ["A"; "B"; "C"; "D"; "E"; "F"; "G"; "Z"] StockExamples.at_5 ()
    = Some (out, w', log)
    ∧ ∀ s, out = Ok s → accounts_for ["A"; "B"; "C"; "D"; "E"; "F"; "G"; "Z"] s.
Proof.
  apply (summary_accounts_for_the_skus StockExamples.flaky
           ["A"; "B"; "C"; "D"; "E"; "F"; "G"; "Z"] StockExamples.at_5 ()).
  intros c Hc. vm_compute in Hc. injection Hc as <-. lia.
Defined.

(** *** A dry run writes nothing *)

Section Silent.
Context {W : Type}.

Lemma writes_app l1 l2 : writes (l1 ++ l2) = writes l1 ++ writes l2.
Proof. apply omap_app. Qed.

Lemma silent_ret {A} (a : A) : silent (mret a : M W A).
Proof. by intros w b w' l [= _ _ <-]. Qed.

Lemma silent_call {A} (f : W → A * W) : silent (call f).
Proof. by intros w b w' l [= _ <-]. Qed.

Lemma silent_sleep ms : silent (sleep ms : M W ()).
Proof. by intros w b w' l [= _ _ <-]. Qed.

Lemma silent_chunk c rs c' : silent (emit (Chunk c rs c') : M W ()).
Proof. by intros w b w' l [= _ _ <-]. Qed.

Lemma silent_diverge {A} : silent (diverge : M W A).
Proof. by intros w b w' l. Qed.

Lemma silent_bind {A B} (m : M W A) (k : A → M W B) :
  silent m → (∀ a, silent (k a)) → silent (m ≫= k).
Proof.
  intros Hm Hk w b w2 l (a & w1 & l1 & l2 & H1 & H2 & ->)%bind_Some.
  by rewrite writes_app, (Hm _ _ _ _ H1), (Hk _ _ _ _ _ H2).
Qed.

End Silent.

#[local] Hint Resolve silent_ret silent_call silent_sleep silent_chunk silent_diverge
  : async.

(** Takes a goal about the writes of a sequence of steps apart. *)
Ltac hush :=
  repeat first
    [ solve [eauto with async]
    | apply silent_bind; [|intros ?]
    | case_match ].

Section DryRun.
Context {W : Type} (R : Remote W).

Lemma getManagerProductBySKU_from_silent left sku attempt :
  silent (getManagerProductBySKU_from R left sku attempt).
Proof.
  revert attempt. induction left as [|left IH]; intros attempt; simpl; hush.
Qed.

Lemma lookupManagerProduct_silent sku m : silent (lookupManagerProduct R sku m).
Proof.
  unfold lookupManagerProduct, getManagerProductBySKU.
  pose proof getManagerProductBySKU_from_silent. hush.
Qed.

Lemma syncProductStock_dry sku options shopMap loc mgrMap :
  dryRun options = true →
  silent (syncProductStock R sku options shopMap loc mgrMap).
Proof.
  intros Hdry. unfold syncProductStock, getShopifyProductStockBySKU. rewrite Hdry.
  pose proof lookupManagerProduct_silent. hush.
Qed.

Lemma promise_all_silent (processor : string → M W SyncResult) chunk :
  (∀ x, silent (processor x)) → silent (promise_all processor chunk).
Proof. intros Hp. induction chunk; simpl; hush. Qed.

Lemma loop_silent (processor : string → M W SyncResult) fuel array :
  (∀ x, silent (processor x)) →
  ∀ i c rl results, silent (processInParallel_loop fuel array processor i c rl results).
Proof.
  intros Hp. pose proof (promise_all_silent processor) as Hall.
  induction fuel as [|fuel IH]; intros i c rl results; simpl; hush.
Qed.

(** A run of [processInParallel] shows as chunks what it returns. *)
Lemma loop_results (processor : string → M W SyncResult) fuel array :
  (∀ x, quiet (processor x)) →
  ∀ i c rl results w res w' log,
    processInParallel_loop fuel array processor i c rl results w = Some (res, w', log) →
    res = results ++ chunk_results log.
Proof.
  intros Hq. induction fuel as [|fuel IH]; intros i c rl results w res w' log; simpl.
  - destruct (i <? Z.of_nat (length array)); [done|].
    intros [= <- _ <-]. by rewrite app_nil_r.
  - destruct (i <? Z.of_nat (length array));
      [|intros [= <- _ <-]; by rewrite app_nil_r].
    intros (rs & w1 & l1 & l2 & H1 & H2 & ->)%bind_Some.
    apply bind_Some in H2 as (? & w2 & l3 & l4 & H3 & H2 & ->).
    apply bind_Some in H2 as (? & w3 & l5 & l6 & H4 & H2 & ->).
    injection H3 as _ _ <-. apply IH in H2 as ->.
    rewrite !chunk_results_app, chunk_results_chunk.
    rewrite (chunk_results_none l1); [|by apply (promise_all_quiet _ _ Hq _ _ _ _ H1)].
    rewrite (chunk_results_none l5).
    + by rewrite <- app_assoc.
    + destruct (0 <? countRateLimit rs); by injection H4 as _ _ <-.
Qed.

(** X16. A dry run writes nothing.  With [dryRun] set (and a concurrency
    option that is absent or not negative) [syncMultipleProducts] returns
    without a single write to Shopify, whatever [forceUpdate] says and
    whatever the stocks are; it makes no retry pass, so the details of its
    summary are the results of the one pass, chunk after chunk. *)
Theorem dry_run_writes_nothing skus options w :
  dryRun options = true →
  (∀ c, concurrency options = Some c → 0 ≤ c) →
  ∃ out w' log,
    syncMultipleProducts R skus options w = Some (out, w', log)
    ∧ writes log = []
    ∧ ∀ s, out = Ok s → details s = chunk_results log.
Proof.
  intros Hdry Hc.
  destruct (syncMultipleProducts_returns R skus options Hc w) as [[[out w'] log] Hrun].
  exists out, w', log. split; [done|].
  destruct (syncMultipleProducts_inv _ _ _ _ _ _ _ Hrun)
    as [(e & -> & ->) | (shopMap & loc & mgrMap & w0 & res & w1 & l1 & summary & l2
                          & -> & H1 & H2 & ->)]; [done|].
  revert H2. unfold retryFailures. rewrite Hdry, andb_false_r.
  intros [= <- _ <-]. rewrite app_nil_r. split.
  - eapply (loop_silent (worker R options shopMap loc mgrMap)); [|exact H1].
    intros x. by apply syncProductStock_dry.
  - intros s [= <-].
    destruct (foldl_tally_counted res
                (set_details res (mkSummary (Z.of_nat (length skus)) 0 0 0 0 [])))
      as (_ & _ & ->). simpl.
    by apply (loop_results _ _ _ (worker_quiet R options shopMap loc mgrMap)) in H1.
Qed.

End DryRun.

Lemma dry_run_writes_nothing_witness :
  ∃ out w' log,
    syncMultipleProducts StockExamples.flaky
      ["A"; "B"; "C"; "D"; "E"; "F"; "G"; "Z"] RunExamples.dry_at_5 ()
    = Some (out, w', log)
    ∧ writes log = []
    ∧ ∀ s, out = Ok s → details s = chunk_results log.
Proof.
  apply (dry_run_writes_nothing StockExamples.flaky
           ["A"; "B"; "C"; "D"; "E"; "F"; "G"; "Z"] RunExamples.dry_at_5 ()).
  - reflexivity.
  - intros c Hc. vm_compute in Hc. injection Hc as <-. lia.
Defined.

(** *** A rate limit of the ERP *)

Lemma status_429_not_404 e : JS.status_is e 429 = true → JS.status_is e 404 = false.
Proof.
  unfold JS.status_is. destruct (JS.response_status e) as [c|]; [|done].
  intros ->%Z.eqb_eq. done.
Qed.

Section Erp.
Context {W : Type} (R : Remote W).

Lemma getManagerProductBySKU_429 sku w e1 e2 e3 w3 :
  three_times_429 R sku w e1 e2 e3 w3 →
  getManagerProductBySKU R sku w
  = Some (Fail (JS.Error
            "Rate limit alcanzado en Manager+ (429). Reduce la concurrencia."),
          w3, [Slept (retryMs e1 1); Slept (retryMs e2 2)]).
Proof.
  intros (w1 & w2 & H1 & H2 & H3 & S1 & S2 & S3).
  unfold getManagerProductBySKU. simpl.
  rewrite bind_unfold. unfold call at 1. rewrite H1.
  rewrite (status_429_not_404 _ S1), S1. simpl.
  rewrite bind_unfold. unfold sleep, emit at 1.
  rewrite bind_unfold. unfold call at 1. rewrite H2.
  rewrite (status_429_not_404 _ S2), S2. simpl.
  rewrite bind_unfold. unfold emit at 1.
  rewrite bind_unfold. unfold call at 1. rewrite H3.
  rewrite (status_429_not_404 _ S3), S3. simpl. reflexivity.
Qed.

(** X17. A rate limit of the ERP reaches the control of the concurrency.  When
    the request for a SKU that is not in the preloaded map is answered with
    a 429 three times in a row, [syncProductStock] has waited twice (the
    Retry-After of the answer in milliseconds, or 1500 ms and then 3000 ms)
    and gives an [error] result that [processInParallel] counts as a rate
    limit and that [syncMultipleProducts] keeps for its retries. *)
Theorem erp_rate_limit_is_passed_on options shopMap loc mgrMap sku w e1 e2 e3 w3 :
  (∀ m, mgrMap = Some m → m !! sku = None) →
  three_times_429 R sku w e1 e2 e3 w3 →
  ∃ r,
    worker R options shopMap loc mgrMap sku w
    = Some (r, w3, [Slept (retryMs e1 1); Slept (retryMs e2 2)])
    ∧ action r = act_error
    ∧ isRateLimitResult r = true
    ∧ retryable r = true
    ∧ (JS.retry_after e1 = None → JS.retry_after e2 = None →
       waits [Slept (retryMs e1 1); Slept (retryMs e2 2)] = [1500; 3000]).
Proof.
  intros Hmap H429.
  exists (error_result sku
            "Rate limit alcanzado en Manager+ (429). Reduce la concurrencia.").
  split; [|split; [done|split; [done|split; [done|]]]].
  - unfold worker, syncProductStock. rewrite bind_unfold.
    assert (lookupManagerProduct R sku mgrMap = getManagerProductBySKU R sku) as ->.
    { unfold lookupManagerProduct. destruct mgrMap as [m|]; [|done].
      by rewrite (Hmap m eq_refl). }
    by rewrite (getManagerProductBySKU_429 sku w e1 e2 e3 w3 H429).
  - intros Hr1 Hr2. unfold retryMs. by rewrite Hr1, Hr2.
Qed.

End Erp.

Lemma erp_rate_limit_is_passed_on_witness :
  ∃ r,
    worker RunExamples.limited StockExamples.plain StockExamples.shop_map (Some 77)
      None "A" ()
    = Some (r, (),
            [Slept (retryMs StockExamples.too_many_requests 1);
             Slept (retryMs StockExamples.too_many_requests 2)])
    ∧ action r = act_error
    ∧ isRateLimitResult r = true
    ∧ retryable r = true
    ∧ (JS.retry_after StockExamples.too_many_requests = None →
       JS.retry_after StockExamples.too_many_requests = None →
       waits [Slept (retryMs StockExamples.too_many_requests 1);
              Slept (retryMs StockExamples.too_many_requests 2)] = [1500; 3000]).
Proof.
  apply (erp_rate_limit_is_passed_on RunExamples.limited StockExamples.plain
           StockExamples.shop_map (Some 77) None "A" ()
           StockExamples.too_many_requests StockExamples.too_many_requests
           StockExamples.too_many_requests ()).
  - intros m Hm. discriminate.
  - exists (), (). repeat split; reflexivity.
Defined.

(** *** What is skipped is left out of the retries *)

Lemma slice_elem {A} (arr : list A) from to x : x ∈ JS.slice arr from to → x ∈ arr.
Proof.
  unfold JS.slice. intros (i & Hi & _)%elem_of_take.
  rewrite lookup_drop in Hi. by eapply list_elem_of_lookup_2.
Qed.

Lemma submitted_app l1 l2 : submitted (l1 ++ l2) = submitted l1 ++ submitted l2.
Proof. unfold submitted, chunk_skus. by rewrite chunks_of_app, fmap_app, concat_app. Qed.

Lemma submitted_quiet log : chunks_of log = [] → submitted log = [].
Proof. unfold submitted, chunk_skus. by intros ->. Qed.

Lemma results_for_insert x (l : list SyncResult) i o r :
  l !! i = Some o → sku o ≠ x → sku r ≠ x →
  results_for x (<[i := r]> l) = results_for x l.
Proof.
  unfold results_for. revert i. induction l as [|a l IH]; intros i; [done|].
  destruct i as [|i]; simpl.
  - intros [= ->] Ho Hr. by rewrite !filter_cons, !decide_False.
  - intros Hl Ho Hr. rewrite !filter_cons, (IH i Hl Ho Hr). done.
Qed.

Lemma apply_retry_results_for x s r :
  sku r ≠ x → results_for x (details (apply_retry s r)) = results_for x (details s).
Proof.
  intros Hr. unfold apply_retry.
  destruct (list_find _ _) as [[idx orig]|] eqn:Hfind; [|done].
  apply list_find_Some in Hfind as (Hidx & Ho & _).
  assert (results_for x (<[idx := r]> (details s)) = results_for x (details s)) as Heq.
  { eapply results_for_insert; [exact Hidx | congruence | done]. }
  repeat case_match; done.
Qed.

Lemma foldl_apply_retry_results_for x rs : ∀ s,
  Forall (λ r, sku r ≠ x) rs →
  results_for x (details (foldl apply_retry s rs)) = results_for x (details s).
Proof.
  induction rs as [|r rs IH]; intros s Hrs; [done|].
  apply Forall_cons in Hrs as [Hr Hrs]. cbn [foldl].
  by rewrite IH, apply_retry_results_for.
Qed.

Section Resubmission.
Context {W : Type} (processor : string → M W SyncResult).
Hypothesis processor_quiet : ∀ x, quiet (processor x).
Hypothesis processor_sku : ∀ x, gives (λ r, sku r = x) (processor x).

(** The chunks of a pass hold SKUs of the array, and so do its results. *)
Lemma loop_submits fuel array : ∀ i c rl results w res w' log,
  processInParallel_loop fuel array processor i c rl results w = Some (res, w', log) →
  Forall (λ x, x ∈ array) (submitted log)
  ∧ (Forall (λ r, sku r ∈ array) results → Forall (λ r, sku r ∈ array) res).
Proof.
  induction fuel as [|fuel IH]; intros i c rl results w res w' log; simpl.
  - destruct (i <? Z.of_nat (length array)); [done|]. intros [= <- _ <-].
    split; [constructor | done].
  - destruct (i <? Z.of_nat (length array));
      [|intros [= <- _ <-]; split; [constructor | done]].
    intros (rs & w1 & l1 & l2 & H1 & H2 & ->)%bind_Some.
    apply bind_Some in H2 as (? & w2 & l3 & l4 & H3 & H2 & ->).
    apply bind_Some in H2 as (? & w3 & l5 & l6 & H4 & H2 & ->).
    injection H3 as _ _ <-.
    pose proof (promise_all_skus _ _ _ _ _ _ processor_sku H1) as Hskus.
    assert (Forall (λ r, sku r ∈ array) rs) as Hrs.
    { apply Forall_forall. intros r Hr. eapply slice_elem. rewrite <- Hskus.
      by apply list_elem_of_fmap_2. }
    destruct (IH _ _ _ _ _ _ _ _ H2) as [Hlog Hres]. split.
    + rewrite !submitted_app.
      rewrite (submitted_quiet l1)
        by exact (promise_all_quiet processor _ processor_quiet _ _ _ _ H1).
      rewrite (submitted_quiet l5)
        by (destruct (0 <? countRateLimit rs); by injection H4 as _ _ <-).
      simpl. apply Forall_app. split; [|done].
      unfold submitted, chunk_skus. simpl. rewrite app_nil_r.
      apply Forall_fmap. exact Hrs.
    + intros Hold. apply Hres. apply Forall_app. done.
Qed.

Lemma processInParallel_submits array c w res w' log :
  processInParallel array processor c w = Some (res, w', log) →
  Forall (λ x, x ∈ array) (submitted log) ∧ Forall (λ r, sku r ∈ array) res.
Proof.
  intros Hrun. destruct (loop_submits _ _ _ _ _ _ _ _ _ _ Hrun) as [H1 H2].
  split; [done|]. apply H2. constructor.
Qed.

(** A SKU that is not among the failures kept for a retry is in none of
    the passes that follow, and its results stay as they are. *)
Lemma retry_loop_submits x left c maxR delay : ∀ attempt remaining s w s' w' log,
  retry_loop left processor c maxR delay attempt remaining s w = Some (s', w', log) →
  x ∉ (sku <$> remaining) →
  (x ∉ submitted log)
  ∧ results_for x (details s') = results_for x (details s).
Proof.
  induction left as [|left IH]; intros attempt remaining s w s' w' log; simpl.
  - destruct (negb _ && _); [done|]. intros [= <- _ <-] _.
    split; [apply not_elem_of_nil | done].
  - destruct (negb _ && _);
      [|intros [= <- _ <-] _; split; [apply not_elem_of_nil | done]].
    intros (rs & w1 & l1 & l2 & H1 & H2 & ->)%bind_Some Hx.
    apply bind_Some in H2 as (? & w2 & l3 & l4 & H3 & H2 & ->).
    destruct (processInParallel_submits _ _ _ _ _ _ H1) as [Hsub Hrs].
    assert (Forall (λ r, sku r ≠ x) rs) as Hne.
    { eapply Forall_impl; [exact Hrs|]. intros r Hr Heq. simpl in Hr. by rewrite Heq in Hr. }
    destruct (IH _ _ _ _ _ _ _ H2) as [Hlater Hkeep].
    { intros (r & -> & [_ Hr]%list_elem_of_filter)%list_elem_of_fmap.
      by apply (proj1 (Forall_forall _ _) Hne r). }
    split.
    + rewrite !submitted_app. intros [Hin | [Hin | Hin]%elem_of_app]%elem_of_app.
      * by apply Hx, (proj1 (Forall_forall _ _) Hsub).
      * rewrite submitted_quiet in Hin; [by apply elem_of_nil in Hin|].
        destruct (negb _ && _) in H3; by injection H3 as _ _ <-.
      * done.
    + by rewrite Hkeep, foldl_apply_retry_results_for.
Qed.

Lemma skipped_not_retryable r : action r = act_skipped → retryable r = false.
Proof. intros Ha. unfold retryable. rewrite Ha. simpl. by rewrite andb_false_r. Qed.

Lemma retryFailures_never_resubmits options x : never_resubmitted processor options x.
Proof.
  intros c s w s' w' log. unfold retryFailures.
  destruct (negb _ && _);
    [|intros [= <- _ <-] _; split; [apply not_elem_of_nil | done]].
  intros (? & w1 & l1 & l2 & H1 & H2 & ->)%bind_Some Hskipped.
  injection H1 as _ _ <-.
  destruct (retry_loop_submits x _ _ _ _ _ _ _ _ _ _ _ H2) as [Hsub Hkeep].
  { intros (r & -> & [Hr Hd]%list_elem_of_filter)%list_elem_of_fmap.
    assert (r ∈ results_for (sku r) (details s)) as Hin.
    { by apply list_elem_of_filter. }
    pose proof (proj1 (Forall_forall _ _) Hskipped r Hin) as Ha.
    by rewrite (skipped_not_retryable r Ha) in Hr. }
  split; [|done]. rewrite submitted_app. simpl. done.
Qed.

End Resubmission.

Section Outcomes.
Context {W : Type} (R : Remote W).

Lemma syncMultipleProducts_skipped_is_final options x : skipped_is_final R options x.
Proof.
  intros skus w summary w' log Hrun.
  destruct (syncMultipleProducts_inv R _ _ _ _ _ _ Hrun)
    as [(e & ? & _) | (shopMap & loc & mgrMap & w0 & res & w1 & l1 & summary' & l2
                        & [= <-] & H1 & H2 & ->)]; [done|].
  exists shopMap, loc, mgrMap, w0, res, w1, l1, l2.
  split; [done|]. split; [done|]. intros Hskipped.
  destruct (foldl_tally_counted res
              (set_details res (mkSummary (Z.of_nat (length skus)) 0 0 0 0 [])))
    as (_ & _ & Hdet).
  destruct (retryFailures_never_resubmits (worker R options shopMap loc mgrMap)
              (worker_quiet R options shopMap loc mgrMap)
              (worker_sku R options shopMap loc mgrMap) options x
              _ _ _ _ _ _ H2) as [Hsub Hkeep]; [by rewrite Hdet|].
  split; [done|]. by rewrite Hkeep, Hdet.
Qed.


End Outcomes.


End StockRunsProofs.

(** * [axiosWithRetry] as a whole *)

Module OrderClientRunsProofs.
Import SyncStocks StockRuns OrderClient SyncStocksProofs.

Lemma delayMs_at_least attempt e : 1 ≤ attempt → 3000 ≤ delayMs attempt e.
Proof.
  intros Ha. unfold delayMs, baseDelay, maxDelay.
  assert (1 ≤ 2 ^ (attempt - 1)) by (apply Z.pow_le_mono_r with (b := 0); lia).
  destruct (JS.data_retry e) as [seconds|]; [destruct (seconds =? 0)|]; lia.
Qed.

Lemma isRetryable_mark e : isRetryable (JS.mark_isRateLimit e) = isRetryable e.
Proof. reflexivity. Qed.

(** What is left of [maxRetries] attempts from [attempt] on. *)
Lemma axiosWithRetry_from_bounded {W A} (requestFn : W → Response A * W) left :
  ∀ attempt w,
    1 ≤ attempt ≤ maxRetries →
    maxRetries - attempt ≤ Z.of_nat left →
    ∃ out w' log,
      axiosWithRetry_from left requestFn attempt w = Some (out, w', log)
      ∧ Z.of_nat (length log) ≤ maxRetries - attempt
      ∧ Forall (λ ev, ∃ ms, ev = Slept ms ∧ 3000 ≤ ms) log
      ∧ ∀ e, out = Fail e →
             if isRetryable e
             then JS.marked_isRateLimit e = true
                  ∧ Z.of_nat (length log) = maxRetries - attempt
             else True.
Proof.
  induction left as [|left IH]; intros attempt w Ha Hleft; simpl;
    rewrite bind_unfold; unfold call at 1;
    destruct (requestFn w) as [[response | e] w1] eqn:Hreq; simpl.
  - eexists _, _, _. split; [done|]. simpl. split; [lia|]. split; [constructor|]. done.
  - assert (attempt = maxRetries) as -> by lia. rewrite Z.eqb_refl, orb_true_r.
    eexists _, _, _. split; [done|]. simpl. split; [lia|]. split; [constructor|].
    intros e' [= <-]. destruct (isRetryable e) eqn:Hr.
    + rewrite isRetryable_mark, Hr. done.
    + by rewrite Hr.
  - eexists _, _, _. split; [done|]. simpl. split; [lia|]. split; [constructor|]. done.
  - destruct (isRetryable e) eqn:Hr; simpl.
    + destruct (attempt =? maxRetries) eqn:Hlast.
      * apply Z.eqb_eq in Hlast as ->.
        eexists _, _, _. split; [done|]. simpl. split; [lia|]. split; [constructor|].
        intros e' [= <-]. rewrite isRetryable_mark, Hr. done.
      * apply Z.eqb_neq in Hlast.
        destruct (IH (attempt + 1) w1 ltac:(lia) ltac:(lia))
          as (out & w' & log & Hrun & Hlen & Hlog & Hout).
        rewrite bind_unfold. unfold sleep, emit at 1. rewrite Hrun.
        eexists _, _, _. split; [done|]. simpl. split; [lia|].
        split; [constructor; [|done]; eexists; split; [done|];
                apply delayMs_at_least; lia|].
        intros e' He'. specialize (Hout e' He').
        destruct (isRetryable e'); [|done]. destruct Hout as [? ?]. split; [done|]. lia.
    + eexists _, _, _. split; [done|]. simpl. split; [lia|]. split; [constructor|].
      intros e' [= <-]. by rewrite Hr.
Qed.

(** X18. [axiosWithRetry] gives up.  Whatever the request does, the call
    returns after at most five attempts: it waits at most four times, never
    less than 3000 ms; and when the error it throws is a retryable one, all
    five attempts have failed, four waits have passed and the error carries
    the mark [isRateLimit]. *)
Theorem axiosWithRetry_gives_up {W A} (requestFn : W → Response A * W) w :
  ∃ out w' log,
    axiosWithRetry requestFn w = Some (out, w', log)
    ∧ (length log ≤ 4)%nat
    ∧ Forall (λ ev, ∃ ms, ev = Slept ms ∧ 3000 ≤ ms) log
    ∧ ∀ e, out = Fail e →
           isRetryable e = true →
           JS.marked_isRateLimit e = true ∧ length log = 4%nat.
Proof.
  destruct (axiosWithRetry_from_bounded requestFn 4 1 w)
    as (out & w' & log & Hrun & Hlen & Hlog & Hout); [done | done |].
  exists out, w', log. split; [done|]. unfold maxRetries in *.
  split; [lia|]. split; [done|].
  intros e He Hr. specialize (Hout e He). rewrite Hr in Hout.
  destruct Hout as [? ?]. split; [done|]. lia.
Qed.

End OrderClientRunsProofs.

(** * Properties of the stock of Manager+ *)

Module WarehouseProofs.
Import Warehouse.

Section Stock.
Context `{Numbers}.

Lemma truthy_false s : JS.truthy s = false → s = "".
Proof.
  unfold JS.truthy. intros Hs%negb_false_iff. by apply String.eqb_eq in Hs.
Qed.

Lemma isGeneralWarehouse_temporal stockItem :
  isGeneralWarehouse stockItem
  = negb (JS.includes "temporal" (warehouse_name stockItem)).
Proof.
  unfold isGeneralWarehouse.
  destruct (JS.truthy (warehouse_name stockItem)) eqn:Ht; simpl.
  - destruct (JS.includes "temporal" _); [done|]. simpl.
    by destruct (JS.includes "general" _).
  - by rewrite (truthy_false _ Ht).
Qed.

(** X19. Only ['temporal'] counts in [isGeneralWarehouse]: a record belongs to
    a warehouse that counts exactly when the name of the warehouse, in
    lower case, does not hold ['temporal'].  The test for ['general']
    changes nothing: a warehouse with any other name counts as the general
    one does, and so does a record without a name. *)
Theorem only_temporal_is_left_out stockItem :
  isGeneralWarehouse stockItem = true
  ↔ JS.includes "temporal" (warehouse_name stockItem) = false.
Proof.
  rewrite isGeneralWarehouse_temporal. apply negb_true_iff.
Qed.

Lemma foldl_processItem elements : ∀ stock,
  foldl processItem stock elements = foldl plus stock (amounts elements).
Proof.
  induction elements as [|e l IH]; intros stock; [done|].
  cbn [foldl]. rewrite IH. unfold amounts. cbn [omap list_omap].
  destruct e as [it|]; simpl; [|done].
  rewrite isGeneralWarehouse_temporal, negb_involutive.
  by destruct (JS.includes "temporal" _).
Qed.

Lemma amounts_app l1 l2 : amounts (l1 ++ l2) = amounts l1 ++ amounts l2.
Proof. apply omap_app. Qed.

(** X20. The stock of a product is what comes of adding, from [0] and in
    the order of the records, the number of the [saldo] of every record of
    its [stock] whose warehouse name does not hold ['temporal'], whether
    the records come in arrays or one by one; entries that are no objects
    are passed over, and a [stock] that is not an array gives [0].  This
    holds of any numbers, the doubles among them: no law of addition is
    used. *)
Theorem stock_is_the_sum_outside_temporal stockEntries :
  extractStockFromProduct stockEntries
  = match stockEntries with
    | Some entries => foldl plus zero (amounts (flatten entries))
    | None => zero
    end.
Proof.
  destruct stockEntries as [entries|]; [|done]. simpl.
  generalize zero. induction entries as [|entry entries IH]; intros stock; [done|].
  cbn [foldl]. rewrite IH.
  change (flatten (entry :: entries))
    with (match entry with
          | Nested elements => elements
          | Single element => [element]
          end ++ flatten entries).
  rewrite amounts_app, foldl_app. f_equal.
  destruct entry as [elements | element]; [apply foldl_processItem|].
  apply (foldl_processItem [element]).
Qed.

End Stock.

(** With doubles the additions are made in the order of the records:
    [2^52], then twice a half, each of which is rounded away; the halves
    added to each other first would give one more.  The record of the
    temporary warehouse adds nothing. *)
Lemma doubles_add_up_in_order (parseFloat : string → float) :
  let record name saldo :=
    Obj (@mkStockItem (doubles parseFloat) name JS.undefined JS.undefined
           JS.undefined JS.undefined saldo) in
  @extractStockFromProduct (doubles parseFloat)
    (Some [Single (record (JS.str "Bodega General") (saldo_number 4503599627370496));
           Nested [record JS.undefined (saldo_number 0.5);
                   Other;
                   record (JS.str "Bodega Temporal") (saldo_number 7);
                   record (JS.str "Sucursal") (saldo_number 0.5)]])
  = 4503599627370496%float
  ∧ (4503599627370496 + (0.5 + 0.5) = 4503599627370497)%float.
Proof. split; vm_compute; reflexivity. Qed.

End WarehouseProofs.

Module ManagerBulkProofs.
Import SyncStocks Warehouse ManagerBulk.

Lemma requests_page limit offset pause log :
  requests (Requested limit offset :: (if 0 <? pause then [Paused pause] else []) ++ log)
  = (limit, offset) :: requests log.
Proof. unfold requests. by destruct (0 <? pause). Qed.

Lemma load_pages_requests {W} (E : Erp W) limit pause left : ∀ offset productMap w,
  let reqs := requests (load_pages E left limit pause offset productMap w).2 in
  (length reqs ≤ left)%nat
  ∧ Forall (λ r, r.1 = limit) reqs
  ∧ Sorted (advances limit) reqs
  ∧ (∀ r, head reqs = Some r → r.2 = offset).
Proof.
  induction left as [|left IH]; intros offset productMap w; cbn zeta.
  { simpl. repeat split; [lia | constructor | constructor | done]. }
  assert (let reqs := requests [Requested limit offset] in
          (length reqs ≤ S left)%nat
          ∧ Forall (λ r, r.1 = limit) reqs
          ∧ Sorted (advances limit) reqs
          ∧ (∀ r, head reqs = Some r → r.2 = offset)) as Hone.
  { simpl. repeat split; [lia | by repeat constructor | by repeat constructor |].
    by intros r [= <-]. }
  cbn [load_pages].
  destruct (get_products E limit offset w) as [[[data|]|e] w1]; try exact Hone.
  case_bool_decide; [exact Hone|].
  case_bool_decide; [exact Hone|].
  destruct (Z.of_nat (length data) <? limit) eqn:Hlen; [exact Hone|].
  apply Z.ltb_ge in Hlen.
  specialize (IH (offset + Z.of_nat (length data))
                (foldl add_product productMap data) w1).
  destruct (load_pages E left limit pause _ _ w1) as [[out w2] log].
  cbn [snd] in *. rewrite requests_page.
  destruct IH as (Hn & Hall & Hsorted & Hhead).
  repeat split.
  - simpl. lia.
  - by constructor.
  - constructor; [done|].
    destruct (requests log) as [|r rest]; constructor.
    unfold advances. simpl. rewrite (Hhead r eq_refl). lia.
  - by intros r [= <-].
Qed.

Lemma limit_of_range options : 1 ≤ limit_of options ≤ 500.
Proof. unfold limit_of. lia. Qed.

(** X21. A load asks for at most [maxPages] pages, each of between 1 and 500
    products as [pageSize] says, the first from offset 0 on and each next
    one further on than the one before: no page is asked for twice. *)
Theorem load_asks_few_pages {W} (E : Erp W) options managerProductsCache w :
  let reqs :=
    requests (loadAllManagerProductsWithStock E options managerProductsCache w).2 in
  (length reqs ≤ pages_of options)%nat
  ∧ Forall (λ r, r.1 = limit_of options ∧ 1 ≤ r.1 ≤ 500) reqs
  ∧ (∀ r, head reqs = Some r → r.2 = 0)
  ∧ Sorted (λ a b, a.2 < b.2) reqs.
Proof.
  cbn zeta. unfold loadAllManagerProductsWithStock.
  assert (let reqs := requests [] in
          (length reqs ≤ pages_of options)%nat
          ∧ Forall (λ r, r.1 = limit_of options ∧ 1 ≤ r.1 ≤ 500) reqs
          ∧ (∀ r, head reqs = Some r → r.2 = 0)
          ∧ Sorted (λ a b, a.2 < b.2) reqs) as Hnone.
  { simpl. repeat split; [lia | constructor | done | constructor]. }
  destruct (if useCache options && negb (forceReload options)
            then managerProductsCache else None) as [cached|]; [exact Hnone|].
  destruct (getERPAuthToken E w) as [[[]|e] w1]; [|exact Hnone].
  pose proof (load_pages_requests E (limit_of options) (default 150 (pauseMs options))
                (pages_of options) 0 ∅ w1) as H.
  cbn zeta in H. fold (limit_of options) (pages_of options).
  destruct (load_pages E _ _ _ 0 ∅ w1) as [[out w2] log].
  cbn [snd] in *. destruct H as (Hn & Hall & Hsorted & Hhead).
  pose proof (limit_of_range options) as Hrange.
  repeat split; [done | | done |].
  - eapply Forall_impl; [exact Hall|]. intros r ->. lia.
  - clear Hn Hall Hhead. induction Hsorted as [|r rest Hs IHs Hhd]; constructor; [done|].
    destruct Hhd as [|b rest' Hb]; constructor. unfold advances in Hb. lia.
Qed.

Lemma add_product_key productMap product :
  add_product productMap product
  = match key_of product with
    | Some sku =>
        <[sku := mkManagerProduct (extractStockFromProduct (stock product))]> productMap
    | None => productMap
    end.
Proof.
  unfold add_product, key_of. destruct (sku_of product) as [sku|]; [|done].
  by destruct (JS.truthy sku).
Qed.

Lemma add_product_union productMap product :
  add_product productMap product = add_product ∅ product ∪ productMap.
Proof.
  rewrite !add_product_key. destruct (key_of product) as [sku|].
  - by rewrite insert_union_singleton_l, insert_empty.
  - by rewrite (left_id_L ∅ (∪)).
Qed.

Lemma foldl_add_product_union products : ∀ productMap,
  foldl add_product productMap products = foldl add_product ∅ products ∪ productMap.
Proof.
  induction products as [|p l IH]; intros m; cbn [foldl].
  - by rewrite (left_id_L ∅ (∪)).
  - rewrite (IH (add_product m p)), (IH (add_product ∅ p)).
    by rewrite (add_product_union m), (assoc_L (∪)).
Qed.

Lemma foldl_add_product_twice products :
  foldl add_product (foldl add_product ∅ products) products
  = foldl add_product ∅ products.
Proof. by rewrite foldl_add_product_union, (idemp_L (∪)). Qed.

Lemma foldl_add_product_other sku products : ∀ productMap,
  sku ∉ omap key_of products →
  foldl add_product productMap products !! sku = productMap !! sku.
Proof.
  induction products as [|p l IH]; intros m Hnot; cbn [foldl]; [done|].
  cbn [omap list_omap] in Hnot. rewrite add_product_key.
  destruct (key_of p) as [k|] eqn:Hk.
  - apply not_elem_of_cons in Hnot as [Hne Hnot].
    rewrite IH by done. by rewrite lookup_insert_ne.
  - by apply IH.
Qed.

Lemma foldl_add_product_lookup products : ∀ productMap product sku,
  NoDup (omap key_of products) →
  product ∈ products →
  key_of product = Some sku →
  foldl add_product productMap products !! sku
  = Some (mkManagerProduct (extractStockFromProduct (stock product))).
Proof.
  induction products as [|p l IH]; intros m product sku Hnd Hin Hkey.
  { by apply elem_of_nil in Hin. }
  cbn [foldl]. cbn [omap list_omap] in Hnd.
  apply elem_of_cons in Hin as [-> | Hin].
  - rewrite Hkey in Hnd. apply NoDup_cons in Hnd as [Hnot _].
    rewrite foldl_add_product_other by done.
    rewrite add_product_key, Hkey. by simplify_map_eq.
  - apply IH; [|done..]. destruct (key_of p); [|done].
    by apply NoDup_cons in Hnd as [_ ?].
Qed.

Lemma foldl_add_product_dom products : ∀ productMap,
  dom (foldl add_product productMap products)
  = dom productMap ∪ list_to_set (omap key_of products).
Proof.
  induction products as [|p l IH]; intros m; cbn [foldl].
  - simpl. by rewrite (right_id_L ∅ (∪)).
  - rewrite IH, add_product_key. cbn [omap list_omap].
    destruct (key_of p) as [k|]; [|done].
    rewrite dom_insert_L. cbn [list_to_set].
    by rewrite (comm_L (∪) {[k]} (dom m)), (assoc_L (∪)).
Qed.

Lemma omap_key_of_length products :
  Forall (λ product, is_Some (key_of product)) products →
  length (omap key_of products) = length products.
Proof.
  induction 1 as [|p l [k Hk] _ IH]; [done|].
  cbn [omap list_omap]. rewrite Hk. simpl. by rewrite IH.
Qed.

Lemma foldl_add_product_size products :
  distinct_codes products →
  size (foldl add_product ∅ products) = length products.
Proof.
  intros [Hall Hnd].
  rewrite <- size_dom, foldl_add_product_dom, dom_empty_L, (left_id_L ∅ (∪)).
  rewrite size_list_to_set by done. by apply omap_key_of_length.
Qed.

Lemma distinct_codes_take n catalog :
  distinct_codes catalog → distinct_codes (take n catalog).
Proof.
  intros [Hall Hnd]. split; [by apply Forall_take|].
  rewrite <- (take_drop n catalog), omap_app in Hnd.
  by apply NoDup_app in Hnd as [? _].
Qed.

Lemma load_pages_same_page {W} (E : Erp W) limit pause page left w :
  ignores_offset E limit page →
  ∀ offset,
    let '(out, w', log) :=
      load_pages E (S left) limit pause offset ∅ w in
    out = Ok (foldl add_product ∅ page) ∧ w' = w
    ∧ (length (requests log) ≤ 2)%nat.
Proof.
  intros Hsame offset. cbn [load_pages]. rewrite Hsame.
  case_bool_decide as Hnil; [by subst page; simpl; auto with lia|].
  case_bool_decide as Hsize; [by simpl; auto with lia|].
  destruct (Z.of_nat (length page) <? limit); [by simpl; auto with lia|].
  destruct left as [|left]; cbn [load_pages].
  { rewrite requests_page. simpl. auto with lia. }
  rewrite Hsame. rewrite bool_decide_false by done.
  rewrite foldl_add_product_twice. rewrite bool_decide_true by done.
  rewrite requests_page. simpl. auto with lia.
Qed.

(** X22. When the ERP takes no notice of the offset and answers every request
    with the same page, the load stops at the second page at the latest and
    gives the products of that page, once, which it also keeps as the
    cache. *)
Theorem ignored_pagination_is_caught {W} (E : Erp W) options managerProductsCache
    w token w1 page :
  useCache options = false →
  (1 ≤ pages_of options)%nat →
  getERPAuthToken E w = (Ok token, w1) →
  ignores_offset E (limit_of options) page →
  let '(out, cache, w', log) :=
    loadAllManagerProductsWithStock E options managerProductsCache w in
  out = Ok (foldl add_product ∅ page)
  ∧ cache = Some (foldl add_product ∅ page)
  ∧ w' = w1
  ∧ (length (requests log) ≤ 2)%nat.
Proof.
  intros Hcache Hpages Htoken Hsame.
  unfold loadAllManagerProductsWithStock. rewrite Hcache, Htoken. cbn [andb].
  fold (limit_of options) (pages_of options).
  destruct (pages_of options) as [|left]; [lia|].
  pose proof (load_pages_same_page E (limit_of options) (default 150 (pauseMs options))
                page left w1 Hsame 0) as H.
  destruct (load_pages E (S left) _ _ 0 ∅ w1) as [[out w2] log].
  destruct H as (-> & -> & Hn). done.
Qed.

Lemma ignored_pagination_is_caught_witness :
  let '(out, cache, w', log) :=
    loadAllManagerProductsWithStock BulkExamples.stuck BulkExamples.by_two None () in
  out = Ok (foldl add_product ∅ (take 2 BulkExamples.catalog))
  ∧ cache = Some (foldl add_product ∅ (take 2 BulkExamples.catalog))
  ∧ w' = ()
  ∧ (length (requests log) ≤ 2)%nat.
Proof.
  apply (ignored_pagination_is_caught BulkExamples.stuck BulkExamples.by_two None
           () () () (take 2 BulkExamples.catalog)).
  - reflexivity.
  - vm_compute. lia.
  - reflexivity.
  - intros offset w. reflexivity.
Defined.

Lemma load_pages_paged {W} (E : Erp W) limit pause catalog :
  paginates E catalog →
  distinct_codes catalog →
  1 ≤ limit →
  ∀ left n w,
    (n ≤ length catalog)%nat →
    Z.of_nat (length catalog) - Z.of_nat n ≤ Z.of_nat left * limit →
    (load_pages E left limit pause (Z.of_nat n)
       (foldl add_product ∅ (take n catalog)) w).1
    = (Ok (foldl add_product ∅ catalog), w).
Proof.
  intros Hpag Hd Hlimit.
  induction left as [|left IH]; intros n w Hn Hrest.
  { cbn [load_pages fst]. rewrite take_ge by lia. done. }
  cbn [load_pages]. rewrite Hpag, Nat2Z.id.
  set (L := Z.to_nat limit).
  assert (Z.of_nat L = limit) as HL by (unfold L; lia).
  set (data := take L (drop n catalog)).
  assert (length data = L `min` (length catalog - n))%nat as Hlen.
  { unfold data. by rewrite length_take, length_drop. }
  case_bool_decide as Hnil.
  { cbn [fst]. rewrite Hnil in Hlen. simpl in Hlen.
    rewrite take_ge by lia. done. }
  assert (length data ≠ 0)%nat as Hpos.
  { intros H0. by apply nil_length_inv in H0. }
  rewrite <- foldl_app. unfold data. rewrite take_take_drop. fold data.
  rewrite !foldl_add_product_size by by apply distinct_codes_take.
  rewrite !length_take.
  rewrite bool_decide_false by lia.
  destruct (Z.of_nat (length data) <? limit) eqn:Hshort.
  - apply Z.ltb_lt in Hshort. cbn [fst]. rewrite take_ge by lia. done.
  - apply Z.ltb_ge in Hshort.
    assert (length data = L) as HdL by lia.
    rewrite HdL, HL. rewrite <- HL at 2. rewrite <- Nat2Z.inj_add.
    specialize (IH (n + L)%nat w).
    destruct (load_pages E left limit pause _ _ w) as [[out w2] log].
    cbn [fst] in *. apply IH; lia.
Qed.

(** X23. When the ERP pages through a catalogue whose products all have a code
    of their own, and [maxPages] pages of the size asked for hold the
    catalogue, the load gives every product of it: the map has as many
    entries as the catalogue has products, and under the code of each
    product the stock of that product. *)
Theorem paged_load_is_complete {W} (E : Erp W) options managerProductsCache
    w token w1 catalog :
  useCache options = false →
  getERPAuthToken E w = (Ok token, w1) →
  paginates E catalog →
  distinct_codes catalog →
  Z.of_nat (length catalog) ≤ Z.of_nat (pages_of options) * limit_of options →
  ∃ productMap,
    (loadAllManagerProductsWithStock E options managerProductsCache w).1
    = (Ok productMap, Some productMap, w1)
    ∧ size productMap = length catalog
    ∧ ∀ product, product ∈ catalog →
        ∃ sku, key_of product = Some sku
               ∧ productMap !! sku
                 = Some (mkManagerProduct (extractStockFromProduct (stock product))).
Proof.
  intros Hcache Htoken Hpag Hd Hfits.
  exists (foldl add_product ∅ catalog). split; [|split].
  - unfold loadAllManagerProductsWithStock. rewrite Hcache, Htoken. cbn [andb].
    fold (limit_of options) (pages_of options).
    pose proof (load_pages_paged E (limit_of options) (default 150 (pauseMs options))
                  catalog Hpag Hd (proj1 (limit_of_range options))
                  (pages_of options) 0%nat w1) as H.
    rewrite take_0 in H.
    change (foldl add_product ∅ []) with (∅ : gmap string ManagerProduct) in H.
    change (Z.of_nat 0) with 0 in H.
    destruct (load_pages E (pages_of options) _ _ _ ∅ w1) as [[out w2] log].
    cbn [fst] in *. assert ((out, w2) = (Ok (foldl add_product ∅ catalog), w1)) as [= -> ->].
    { apply H; lia. }
    done.
  - by apply foldl_add_product_size.
  - intros product Hin. destruct Hd as [Hall Hnd].
    destruct (proj1 (Forall_forall _ _) Hall product Hin) as [sku Hkey].
    exists sku. split; [done|]. by apply foldl_add_product_lookup.
Qed.

Lemma paged_load_is_complete_witness :
  ∃ productMap,
    (loadAllManagerProductsWithStock BulkExamples.paging BulkExamples.by_two None ()).1
    = (Ok productMap, Some productMap, ())
    ∧ size productMap = length BulkExamples.catalog
    ∧ ∀ product, product ∈ BulkExamples.catalog →
        ∃ sku, key_of product = Some sku
               ∧ productMap !! sku
                 = Some (mkManagerProduct (extractStockFromProduct (stock product))).
Proof.
  apply (paged_load_is_complete BulkExamples.paging BulkExamples.by_two None
           () () () BulkExamples.catalog).
  - reflexivity.
  - reflexivity.
  - intros limit offset w. reflexivity.
  - split.
    + repeat constructor; vm_compute; eauto.
    + apply (bool_decide_unpack _). vm_compute. exact I.
  - vm_compute. discriminate.
Defined.

End ManagerBulkProofs.

(** * Properties of the check digit *)

Module RutProofs.
Import Rut.

Lemma weight_next i : weight (S i) = if weight i =? 7 then 2 else weight i + 1.
Proof.
  unfold weight. rewrite Nat2Z.inj_succ.
  pose proof (Z.mod_pos_bound (Z.of_nat i) 6 ltac:(lia)) as Hb.
  destruct (2 + Z.of_nat i mod 6 =? 7) eqn:H7.
  - apply Z.eqb_eq in H7.
    rewrite (Z.div_mod (Z.of_nat i) 6) at 1 by lia.
    replace (Z.succ (6 * (Z.of_nat i / 6) + Z.of_nat i mod 6))
      with (0 + (Z.of_nat i / 6 + 1) * 6) by lia.
    rewrite Z.mod_add by lia. done.
  - apply Z.eqb_neq in H7.
    rewrite (Z.div_mod (Z.of_nat i) 6) at 1 by lia.
    replace (Z.succ (6 * (Z.of_nat i / 6) + Z.of_nat i mod 6))
      with ((Z.of_nat i mod 6 + 1) + (Z.of_nat i / 6) * 6) by lia.
    rewrite Z.mod_add by lia. rewrite Z.mod_small by lia. lia.
Qed.

Lemma weight_range i : 2 ≤ weight i ≤ 7.
Proof.
  unfold weight. pose proof (Z.mod_pos_bound (Z.of_nat i) 6 ltac:(lia)). lia.
Qed.

(** The loop, from the last character on, computes the weighted sum. *)
Lemma loop_weighted_sum digits :
  foldl step (0, 2) (reverse digits) = (weighted_sum digits, weight (length digits)).
Proof.
  induction digits as [|c rest IH]; [done|].
  rewrite reverse_cons, foldl_app, IH. cbn [foldl step weighted_sum length].
  rewrite weight_next. f_equal. lia.
Qed.

Lemma parseInt_range c : is_digit c = true → 0 ≤ parseInt c ≤ 9.
Proof.
  unfold is_digit, parseInt. intros [H1 H2]%andb_true_iff.
  apply N.leb_le in H1, H2. lia.
Qed.

Lemma weighted_sum_nonneg digits :
  Forall (λ c, is_digit c = true) digits → 0 ≤ weighted_sum digits.
Proof.
  induction 1 as [|c rest Hc _ IH]; simpl; [lia|].
  pose proof (parseInt_range c Hc). pose proof (weight_range (length rest)). nia.
Qed.

Lemma clean_of_digits rutBase : Forall (λ c, is_digit c = true) (clean_of rutBase).
Proof. unfold clean_of. apply Forall_forall. by intros c [? _]%list_elem_of_filter. Qed.

Lemma calcularDV_weighted rutBase :
  calcularDV rutBase = dv_of (weighted_sum (clean_of (default "" rutBase)) mod 11).
Proof.
  unfold calcularDV. case_bool_decide as Hnil.
  - by rewrite Hnil.
  - by rewrite loop_weighted_sum.
Qed.

Lemma resto_cases r : 0 ≤ r < 11 →
  r = 0 ∨ r = 1 ∨ r = 2 ∨ r = 3 ∨ r = 4 ∨ r = 5 ∨ r = 6 ∨ r = 7 ∨ r = 8
  ∨ r = 9 ∨ r = 10.
Proof. lia. Qed.

Lemma dv_of_value r : 0 ≤ r < 11 →
  ∃ v, dv_value (dv_of r) = Some v ∧ 0 ≤ v ≤ 10 ∧ (r + v) mod 11 = 0.
Proof.
  intros Hr. destruct (resto_cases r Hr) as [->|[->|[->|[->|[->|[->|[->|[->|[->|[->| ->]]]]]]]]]];
    vm_compute; eexists; (split; [reflexivity|]); repeat split; discriminate.
Qed.

Lemma dv_of_inj r1 r2 : 0 ≤ r1 < 11 → 0 ≤ r2 < 11 → dv_of r1 = dv_of r2 → r1 = r2.
Proof.
  intros H1 H2.
  destruct (resto_cases r1 H1) as [->|[->|[->|[->|[->|[->|[->|[->|[->|[->| ->]]]]]]]]]];
  destruct (resto_cases r2 H2) as [->|[->|[->|[->|[->|[->|[->|[->|[->|[->| ->]]]]]]]]]];
    vm_compute; congruence.
Qed.

(** X24. The digit [calcularDV] gives is a check digit modulo 11: it is a digit
    or ['K'], and the sum of the digits of the RUT, each times its weight
    (2 to 7 from the last digit on, and again), plus what the check digit
    stands for, is a multiple of 11. *)
Theorem calcularDV_checks_modulo_11 rutBase :
  ∃ v, dv_value (calcularDV rutBase) = Some v
       ∧ 0 ≤ v ≤ 10
       ∧ (weighted_sum (clean_of (default "" rutBase)) + v) mod 11 = 0.
Proof.
  rewrite calcularDV_weighted.
  set (suma := weighted_sum _).
  destruct (dv_of_value (suma mod 11)) as (v & Hv & Hrange & Hmod).
  { apply Z.mod_pos_bound. lia. }
  exists v. repeat split; [done | lia | lia |].
  by rewrite <- Zplus_mod_idemp_l.
Qed.

Lemma clean_of_app s1 s2 :
  clean_of (s1 +:+ s2) = clean_of s1 ++ clean_of s2.
Proof.
  unfold clean_of. rewrite <- filter_app. f_equal.
  induction s1 as [|c s1 IH]; [done|]. simpl. by rewrite <- IH.
Qed.

Lemma weighted_sum_differ l1 c1 c2 l2 :
  weighted_sum (l1 ++ c1 :: l2) - weighted_sum (l1 ++ c2 :: l2)
  = (parseInt c1 - parseInt c2) * weight (length l2).
Proof.
  induction l1 as [|d l1 IH].
  - simpl. lia.
  - cbn [app weighted_sum]. rewrite !length_app. cbn [length]. rewrite <- IH. ring.
Qed.

Lemma product_not_multiple x w :
  -9 ≤ x ≤ 9 → x ≠ 0 → 2 ≤ w ≤ 7 → (x * w) mod 11 ≠ 0.
Proof.
  intros Hx Hne Hw Hmod.
  apply Z.mod_divide in Hmod; [|lia]. destruct Hmod as [k Hk].
  assert (w = 2 ∨ w = 3 ∨ w = 4 ∨ w = 5 ∨ w = 6 ∨ w = 7) as Hcases by lia.
  destruct Hcases as [->|[->|[->|[->|[->| ->]]]]]; lia.
Qed.

(** X25. One wrong digit is always seen: two RUTs that differ in one digit and
    nothing else have different check digits. *)
Theorem one_wrong_digit_changes_the_dv before after (c1 c2 : Ascii.ascii) :
  is_digit c1 = true →
  is_digit c2 = true →
  c1 ≠ c2 →
  calcularDV (Some (before +:+ String c1 after))
  ≠ calcularDV (Some (before +:+ String c2 after)).
Proof.
  intros H1 H2 Hne Heq. rewrite !calcularDV_weighted in Heq.
  apply dv_of_inj in Heq; [| apply Z.mod_pos_bound; lia..].
  unfold default in Heq. cbn [from_option id] in Heq. rewrite !clean_of_app in Heq.
  unfold clean_of in Heq at 2 4. cbn [String.list_ascii_of_string] in Heq.
  rewrite !filter_cons, H1, H2 in Heq.
  rewrite !decide_True in Heq by done.
  fold (clean_of after) in Heq.
  assert (((parseInt c1 - parseInt c2) * weight (length (clean_of after))) mod 11 = 0)
    as Hzero.
  { rewrite <- (weighted_sum_differ (clean_of before)).
    rewrite Zminus_mod, Heq, Z.sub_diag. done. }
  pose proof (parseInt_range c1 H1). pose proof (parseInt_range c2 H2).
  apply product_not_multiple in Hzero; [done | lia | | apply weight_range].
  intros Hsame. apply Hne.
  unfold parseInt in Hsame.
  assert (Ascii.N_of_ascii c1 = Ascii.N_of_ascii c2) as HN by lia.
  rewrite <- (Ascii.ascii_N_embedding c1), <- (Ascii.ascii_N_embedding c2).
  by rewrite HN.
Qed.

Lemma one_wrong_digit_changes_the_dv_witness :
  calcularDV (Some "12345678-") ≠ calcularDV (Some "12345679-").
Proof.
  apply (one_wrong_digit_changes_the_dv "1234567" "-"
           (Ascii.ascii_of_nat 56) (Ascii.ascii_of_nat 57)).
  - reflexivity.
  - reflexivity.
  - discriminate.
Defined.

End RutProofs.
